(** * phetour: a shallow embedding of the site generator and its registry

    The Go program under [source/] is embedded function by function:
    the identifier registry ([Keylock]), the tag graph ([Taxonomy]), the
    line-oriented markup parser, the content loader and the build
    pipeline.  Go strings are byte strings and are modelled by [string]
    (one [ascii] per byte); Go [int] values are modelled in [Z]; slices
    are lists, and a slice mutated through a pointer is threaded through
    the functions that mutate it. *)

From Stdlib Require Import ZArith NArith List String Ascii Bool Lia.
From Stdlib Require Import Permutation Sorted.
Import ListNotations.

Open Scope string_scope.
Open Scope list_scope.
Open Scope Z_scope.

Infix "+++" := String.append (at level 60, right associativity).

(* ================================================================== *)
(** ** Go's [strings] package, on byte strings *)
(* ================================================================== *)

Module strings.

Fixpoint HasPrefix (s prefix : string) : bool :=
  match prefix with
  | EmptyString => true
  | String c p =>
      match s with
      | EmptyString => false
      | String d r => Ascii.eqb c d && HasPrefix r p
      end
  end.

Fixpoint drop (n : nat) (s : string) : string :=
  match n with
  | O => s
  | S k => match s with EmptyString => EmptyString | String _ r => drop k r end
  end.

Fixpoint take (n : nat) (s : string) : string :=
  match n with
  | O => EmptyString
  | S k => match s with EmptyString => EmptyString | String c r => String c (take k r) end
  end.

Definition TrimPrefix (s prefix : string) : string :=
  if HasPrefix s prefix then drop (String.length prefix) s else s.

Definition HasSuffix (s suffix : string) : bool :=
  (String.length suffix <=? String.length s)%nat
  && String.eqb (drop (String.length s - String.length suffix) s) suffix.

Definition TrimSuffix (s suffix : string) : string :=
  if HasSuffix s suffix then take (String.length s - String.length suffix) s else s.

(** [Index] is the byte offset of the first occurrence, or [-1]. *)
Fixpoint indexFrom (s substr : string) (i : Z) : Z :=
  if HasPrefix s substr then i
  else match s with
       | EmptyString => -1
       | String _ r => indexFrom r substr (i + 1)
       end.

Definition Index (s substr : string) : Z := indexFrom s substr 0.

(** [Split s sep] for the one-byte separator the program uses. *)
Fixpoint splitByte (sep : ascii) (s : string) (cur : string) : list string :=
  match s with
  | EmptyString => [cur]
  | String c r =>
      if Ascii.eqb c sep then cur :: splitByte sep r EmptyString
      else splitByte sep r (cur +++ String c EmptyString)
  end.

Definition SplitNL (s : string) : list string :=
  splitByte "010"%char s EmptyString.

Fixpoint Join (elems : list string) (sep : string) : string :=
  match elems with
  | [] => EmptyString
  | [x] => x
  | x :: r => x +++ sep +++ Join r sep
  end.

(** White space as [unicode.IsSpace] sees it, read off the UTF-8 bytes.
    [spaceWidth s] is the byte width of the white-space rune that [s]
    starts with, and [0] when it starts with none.  The runes are tab,
    LF, VT, FF, CR, space, U+0085, U+00A0, U+1680, U+2000..U+200A,
    U+2028, U+2029, U+202F, U+205F and U+3000.  No encoding of one of
    them starts with a continuation byte, so scanning byte by byte
    finds the same runes as decoding rune by rune. *)
Definition asciiSpace (a : N) : bool :=
  ((9 <=? a) && (a <=? 13) || (a =? 32))%N.

Definition spaceWidth (s : string) : nat :=
  match s with
  | EmptyString => 0
  | String a r =>
      let a := N_of_ascii a in
      if asciiSpace a then 1
      else match r with
           | EmptyString => 0
           | String b r' =>
               let b := N_of_ascii b in
               if ((a =? 0xC2) && ((b =? 0x85) || (b =? 0xA0)))%N then 2
               else match r' with
                    | EmptyString => 0
                    | String c _ =>
                        let c := N_of_ascii c in
                        if (((a =? 0xE1) && (b =? 0x9A) && (c =? 0x80))
                            || ((a =? 0xE2) && (b =? 0x80)
                                && (((0x80 <=? c) && (c <=? 0x8A))
                                    || (c =? 0xA8) || (c =? 0xA9) || (c =? 0xAF)))
                            || ((a =? 0xE2) && (b =? 0x81) && (c =? 0x9F))
                            || ((a =? 0xE3) && (b =? 0x80) && (c =? 0x80)))%N
                        then 3 else 0
                    end
           end
  end.

(** The same test on a reversed string: the width of the white-space
    rune that the original string ends with. *)
Definition spaceWidthRev (s : string) : nat :=
  match s with
  | EmptyString => 0
  | String a r =>
      if asciiSpace (N_of_ascii a) then 1
      else match r with
           | EmptyString => 0
           | String b r' =>
               if (spaceWidth (String b (String a EmptyString)) =? 2)%nat then 2
               else match r' with
                    | EmptyString => 0
                    | String c _ =>
                        if (spaceWidth (String c (String b (String a EmptyString))) =? 3)%nat
                        then 3 else 0
                    end
           end
  end.

Fixpoint trimLeftSpace (s : string) : string :=
  match spaceWidth s, s with
  | 1%nat, String _ r => trimLeftSpace r
  | 2%nat, String _ (String _ r) => trimLeftSpace r
  | 3%nat, String _ (String _ (String _ r)) => trimLeftSpace r
  | _, _ => s
  end.

Fixpoint trimLeftSpaceRev (s : string) : string :=
  match spaceWidthRev s, s with
  | 1%nat, String _ r => trimLeftSpaceRev r
  | 2%nat, String _ (String _ r) => trimLeftSpaceRev r
  | 3%nat, String _ (String _ (String _ r)) => trimLeftSpaceRev r
  | _, _ => s
  end.

Definition reverse (s : string) : string :=
  string_of_list_ascii (List.rev (list_ascii_of_string s)).

Definition trimRightSpace (s : string) : string :=
  reverse (trimLeftSpaceRev (reverse s)).

Definition TrimSpace (s : string) : string :=
  trimRightSpace (trimLeftSpace s).

(** [Fields]: the maximal runs of bytes between white-space runes. *)
Definition flush (field : string) : list string :=
  match field with EmptyString => [] | _ => [field] end.

Fixpoint fieldsFrom (s field : string) : list string :=
  match spaceWidth s, s with
  | _, EmptyString => flush field
  | O, String a r => fieldsFrom r (field +++ String a EmptyString)
  | 1%nat, String _ r => flush field ++ fieldsFrom r EmptyString
  | 2%nat, String _ (String _ r) => flush field ++ fieldsFrom r EmptyString
  | 3%nat, String _ (String _ (String _ r)) => flush field ++ fieldsFrom r EmptyString
  | _, String _ r => flush field ++ fieldsFrom r EmptyString
  end.

Definition Fields (s : string) : list string := fieldsFrom s EmptyString.

End strings.

(* ================================================================== *)
(** ** Errors and results *)
(* ================================================================== *)

(** [error] values: the message of a [fmt.Errorf] without [%w], a
    prefix wrapped around a cause with [%w], and the [*NumError] of
    [strconv]. *)
Inductive error : Type :=
| errorString (msg : string)
| wrapError (prefix : string) (cause : error)
| NumError (Func Num : string) (outOfRange : bool).

Definition dquote : string := String (ascii_of_nat 34) EmptyString.

(** The message of an error.  [strconv] quotes the number with
    [Quote]; the model writes it between double quotes as it is. *)
Fixpoint Error (e : error) : string :=
  match e with
  | errorString m => m
  | wrapError p c => p +++ Error c
  | NumError f n r =>
      "strconv." +++ f +++ ": parsing " +++ dquote +++ n +++ dquote +++ ": "
      +++ (if r then "value out of range" else "invalid syntax")
  end.

(** What a call gives back: a value, an [error], or a run-time panic. *)
Inductive result (A : Type) : Type :=
| Ok (a : A)
| Err (e : error)
| Panic.
Arguments Ok {A} a.
Arguments Err {A} e.
Arguments Panic {A}.

(* ================================================================== *)
(** ** [strconv] and [fmt]: integers to text and back *)
(* ================================================================== *)

Module strconv.

Definition digit (d : Z) : ascii :=
  if d <? 10 then ascii_of_N (48 + Z.to_N d) else ascii_of_N (87 + Z.to_N d).

(** The digit loop of [formatBits] and of [fmt]'s integer formatter:
    least significant digit first, written right to left.  The fuel is
    the length of Go's digit buffer, more than a 64-bit value needs. *)
Fixpoint digitsOf (fuel : nat) (base u : Z) (acc : string) : string :=
  match fuel with
  | O => acc
  | S f =>
      if u <? base then String (digit u) acc
      else digitsOf f base (u / base) (String (digit (u mod base)) acc)
  end.

Definition formatBits (base u : Z) : string := digitsOf 65 base u EmptyString.

Definition Itoa (i : Z) : string :=
  if i <? 0 then String "-" (formatBits 10 (Z.abs i)) else formatBits 10 i.

Definition maxInt : Z := 2 ^ 63 - 1.
Definition minInt : Z := - 2 ^ 63.

Definition isInt (i : Z) : Prop := minInt <= i <= maxInt.

(** Decimal digits folded left to right; [None] at the first byte that
    is not a digit. *)
Fixpoint parseDigits (s : string) (n : Z) : option Z :=
  match s with
  | EmptyString => Some n
  | String c r =>
      let ch := Z.of_N (N_of_ascii c) - 48 in
      if (0 <=? ch) && (ch <=? 9) then parseDigits r (n * 10 + ch) else None
  end.

(** [Atoi]: an optional sign, at least one digit, nothing else, and a
    value that fits [int]. *)
Definition Atoi (s : string) : error + Z :=
  let '(neg, body) :=
    match s with
    | String "-" r => (true, r)
    | String "+" r => (false, r)
    | _ => (false, s)
    end in
  match body with
  | EmptyString => inl (NumError "Atoi" s false)
  | _ =>
      match parseDigits body 0 with
      | None => inl (NumError "Atoi" s false)
      | Some un =>
          if neg then (if un <=? 2 ^ 63 then inr (- un) else inl (NumError "Atoi" s true))
          else (if un <? 2 ^ 63 then inr un else inl (NumError "Atoi" s true))
      end
  end.

End strconv.

Module fmt.

Fixpoint zeros (n : nat) : string :=
  match n with O => EmptyString | S k => String "0" (zeros k) end.

(** [%0<wid>x] on an [int]: the magnitude in lower-case hexadecimal,
    padded with zeros to the width (one less when a sign is written),
    then the sign. *)
Definition fmtInteger_x (wid : nat) (i : Z) : string :=
  let negative := i <? 0 in
  let u := Z.abs i in
  let prec := if negative then (wid - 1)%nat else wid in
  let ds := strconv.formatBits 16 u in
  let padded := zeros (prec - String.length ds) +++ ds in
  if negative then String "-" padded else padded.

End fmt.


(* ================================================================== *)
(** ** The [etree] document tree *)
(* ================================================================== *)

(** An element has a tag, its attributes in the order they were created
    and its child tokens in document order.  [TOther] stands for the
    tokens that are neither element nor character data (comments,
    directives, processing instructions).  Namespace prefixes are not
    modelled: a tag or key is a local name.  A document is the element
    with the empty tag, as in [etree], where [Document] embeds
    [Element]. *)
Module etree.

Record attribute : Type := mkAttr { Key : string; Value : string }.

Inductive Element : Type :=
| mkElement (tag : string) (attrs : list attribute) (children : list Token)
with Token : Type :=
| TElement (e : Element)
| TCharData (Data : string)
| TOther.

Definition Tag (e : Element) : string :=
  match e with mkElement t _ _ => t end.
Definition Attr (e : Element) : list attribute :=
  match e with mkElement _ a _ => a end.
Definition Child (e : Element) : list Token :=
  match e with mkElement _ _ c => c end.

Definition NewElement (tag : string) : Element := mkElement tag [] [].
Definition NewDocument : Element := NewElement EmptyString.

(** [e.AddChild(t)], and [e.CreateElement(tag)] followed by whatever
    the caller does to the new element before it moves on: the model
    appends the finished child. *)
Definition AddChild (e : Element) (t : Token) : Element :=
  mkElement (Tag e) (Attr e) (Child e ++ [t]).

Definition CreateText (e : Element) (text : string) : Element :=
  AddChild e (TCharData text).

(** [CreateAttr] replaces the value of a key that is already there and
    appends otherwise. *)
Fixpoint setAttr (attrs : list attribute) (key value : string) : list attribute :=
  match attrs with
  | [] => [mkAttr key value]
  | a :: r =>
      if String.eqb (Key a) key then mkAttr key value :: r
      else a :: setAttr r key value
  end.

Definition CreateAttr (e : Element) (key value : string) : Element :=
  mkElement (Tag e) (setAttr (Attr e) key value) (Child e).

Fixpoint selectElement (tag : string) (ts : list Token) : option Element :=
  match ts with
  | [] => None
  | TElement e :: r =>
      if String.eqb (Tag e) tag then Some e else selectElement tag r
  | _ :: r => selectElement tag r
  end.

Definition SelectElement (e : Element) (tag : string) : option Element :=
  selectElement tag (Child e).

Fixpoint selectElements (tag : string) (ts : list Token) : list Element :=
  match ts with
  | [] => []
  | TElement e :: r =>
      if String.eqb (Tag e) tag then e :: selectElements tag r
      else selectElements tag r
  | _ :: r => selectElements tag r
  end.

Definition SelectElements (e : Element) (tag : string) : list Element :=
  selectElements tag (Child e).

Fixpoint selectAttrValue (attrs : list attribute) (key dflt : string) : string :=
  match attrs with
  | [] => dflt
  | a :: r => if String.eqb (Key a) key then Value a else selectAttrValue r key dflt
  end.

Definition SelectAttrValue (e : Element) (key dflt : string) : string :=
  selectAttrValue (Attr e) key dflt.

(** [d.Root()]: the first child element of the document. *)
Fixpoint firstElement (ts : list Token) : option Element :=
  match ts with
  | [] => None
  | TElement e :: _ => Some e
  | _ :: r => firstElement r
  end.

Definition Root (d : Element) : option Element := firstElement (Child d).



End etree.

(* ================================================================== *)
(** ** What the program takes from outside *)
(* ================================================================== *)

(** The text layer of [etree], the [pandoc] child process, the sort of
    Go's [slices] package and the outcome of the file operations are not
    part of the repository.  They are the fields of one record, and the
    program is a function of it.

    - [WriteTo d] is the XML text [etree] writes for [d].
    - [ReadFrom d text] is the document [d] after it has read [text],
      with the error of the read, if any.
    - [Indent n d] is [d] after [d.Indent(n)].
    - [pandoc md] is the outcome of writing [md] to a temporary file and
      running [pandoc] on it: its output, or the error.
    - [SortFunc cmp x] is the slice [x] after [slices.SortFunc(x, cmp)].
    - [MkdirAll p], [WriteFile p], [RemoveAll p] tell whether the
      operation on path [p] fails; [ReadDir p] is the listing of the
      folder [p], sorted by name, or the error of reading it;
      [copyStatics] and [applyStylesheets] are the outcomes of the two
      steps of the build that only move files. *)
Module DirEntry.
Record t : Type := mk { Name : string; IsDir : bool }.
End DirEntry.

Record Env : Type := mkEnv {
  WriteTo : etree.Element -> string;
  ReadFrom : etree.Element -> string -> etree.Element * option error;
  Indent : nat -> etree.Element -> etree.Element;
  pandoc : string -> error + string;
  SortFunc : forall A : Type, (A -> A -> Z) -> list A -> list A;
  MkdirAll : string -> option error;
  WriteFile : string -> option error;
  ReadDir : string -> error + list DirEntry.t;
  RemoveAll : string -> option error;
  copyStatics : option error;
  applyStylesheets : option error
}.

(** The files the program writes, newest last: path and content. *)
Definition Files : Type := list (string * string).

Fixpoint readFile (fs : Files) (path : string) : option string :=
  match fs with
  | [] => None
  | (p, c) :: r =>
      match readFile r path with
      | Some c' => Some c'
      | None => if String.eqb p path then Some c else None
      end
  end.

(** [d.WriteToFile(path)]: the text of [d] becomes the content of
    [path], unless the file operation fails. *)
Definition WriteToFile (env : Env) (d : etree.Element) (path : string) (fs : Files)
  : option error * Files :=
  match WriteFile env path with
  | Some e => (Some e, fs)
  | None => (None, fs ++ [(path, WriteTo env d)])
  end.

(* ================================================================== *)
(** ** The identifier registry ([Keylock]) *)
(* ================================================================== *)

Module Key.
Record t : Type := mk { ID : Z; Value : string }.
End Key.

Module Keylock.
Record t : Type := mk { Keys : list Key.t }.
End Keylock.

Definition lockFilePath : string := "./lock.xml".

(** The loop of [GetKeylock] over the [key] elements: the first id that
    is not a number ends the load with an error. *)
Fixpoint parseKeys (keyElements : list etree.Element) (keys : list Key.t)
  : result (list Key.t) :=
  match keyElements with
  | [] => Ok keys
  | keyElement :: r =>
      let keyIDstring := etree.SelectAttrValue keyElement "id" "" in
      let keyValue := etree.SelectAttrValue keyElement "value" "" in
      match strconv.Atoi keyIDstring with
      | inl err =>
          Err (wrapError ("invalid id '" +++ keyIDstring +++ "' in lock file: ") err)
      | inr keyID => parseKeys r (keys ++ [Key.mk keyID keyValue])
      end
  end.

(** [GetKeylock]: no lock file gives the empty registry; a lock file is
    read whole.  A document without a [lock] element makes
    [lock.SelectElements] dereference nil. *)
Definition GetKeylock (env : Env) (fs : Files) : result Keylock.t :=
  match readFile fs lockFilePath with
  | None => Ok (Keylock.mk [])
  | Some text =>
      match ReadFrom env etree.NewDocument text with
      | (_, Some err) => Err (wrapError "failed reading lock file: " err)
      | (lockDocument, None) =>
          match etree.SelectElement lockDocument "lock" with
          | None => Panic
          | Some lock =>
              match parseKeys (etree.SelectElements lock "key") [] with
              | Ok keys => Ok (Keylock.mk keys)
              | Err e => Err e
              | Panic => Panic
              end
          end
      end
  end.

Definition keyElementOf (key : Key.t) : etree.Element :=
  etree.CreateAttr
    (etree.CreateAttr (etree.NewElement "key") "id" (strconv.Itoa (Key.ID key)))
    "value" (Key.Value key).

(** The document [Save] builds, before it is indented. *)
Definition lockDocumentOf (keylock : Keylock.t) : etree.Element :=
  let lockTag :=
    fold_left (fun lockTag key => etree.AddChild lockTag (etree.TElement (keyElementOf key)))
      (Keylock.Keys keylock) (etree.NewElement "lock") in
  etree.AddChild etree.NewDocument (etree.TElement lockTag).

Definition Save (env : Env) (keylock : Keylock.t) (fs : Files) : option error * Files :=
  WriteToFile env (Indent env 4 (lockDocumentOf keylock)) lockFilePath fs.

Fixpoint findKey (keys : list Key.t) (value : string) : option Z :=
  match keys with
  | [] => None
  | key :: r => if String.eqb (Key.Value key) value then Some (Key.ID key) else findKey r value
  end.

(** [AssureKey] returns the id and the registry after the call.  A slice
    is shorter than [maxInt], so [len + 1] does not wrap. *)
Definition AssureKey (keylock : Keylock.t) (value : string) : Z * Keylock.t :=
  match findKey (Keylock.Keys keylock) value with
  | Some id => (id, keylock)
  | None =>
      let newID := Z.of_nat (List.length (Keylock.Keys keylock)) + 1 in
      (newID, Keylock.mk (Keylock.Keys keylock ++ [Key.mk newID value]))
  end.

(* ================================================================== *)
(** ** The tag graph ([Taxonomy]) *)
(* ================================================================== *)

Module Tag.
Record t : Type := mk { Label : string; Key : Z; Mentions : list Z }.
End Tag.

(** [Taxonomy.Keylock] is a pointer to the one registry of the process.
    The model keeps that registry in the field, and the code that
    reaches the registry through its own pointer ([GetPostDocument],
    [main]) reads and writes the same field. *)
Module Taxonomy.
Record t : Type := mk { Keylock : Keylock.t; Tags : list Tag.t }.
End Taxonomy.

Definition GetTaxonomy (keylock : Keylock.t) : Taxonomy.t :=
  Taxonomy.mk keylock [].

Definition mentioned (mentions : list Z) (document : Z) : bool :=
  existsb (Z.eqb document) mentions.

(** The scan of [AssureLabelFromDocument] over the known tags: at the
    first tag with the label, its key and the tags after the mention is
    recorded; [None] when no tag has the label. *)
Fixpoint assureKnownLabel (tags : list Tag.t) (label : string) (document : Z)
  : option (Z * list Tag.t) :=
  match tags with
  | [] => None
  | tag :: r =>
      if String.eqb (Tag.Label tag) label then
        if mentioned (Tag.Mentions tag) document then Some (Tag.Key tag, tag :: r)
        else Some (Tag.Key tag,
                   Tag.mk (Tag.Label tag) (Tag.Key tag) (Tag.Mentions tag ++ [document]) :: r)
      else
        match assureKnownLabel r label document with
        | Some (key, r') => Some (key, tag :: r')
        | None => None
        end
  end.

Definition AssureLabelFromDocument (taxonomy : Taxonomy.t) (label : string) (document : Z)
  : Z * Taxonomy.t :=
  match assureKnownLabel (Taxonomy.Tags taxonomy) label document with
  | Some (key, tags) => (key, Taxonomy.mk (Taxonomy.Keylock taxonomy) tags)
  | None =>
      let (key, keylock) := AssureKey (Taxonomy.Keylock taxonomy) ("TAG:" +++ label) in
      (key, Taxonomy.mk keylock (Taxonomy.Tags taxonomy ++ [Tag.mk label key [document]]))
  end.

(* ================================================================== *)
(** ** Addresses *)
(* ================================================================== *)

Definition KeyIDToHex (id : Z) : string :=
  "0x" +++ fmt.fmtInteger_x 4 id.

(* ================================================================== *)
(** ** The markup parser *)
(* ================================================================== *)

(** The three regular expressions of [parseMetadata], each written as
    the matcher it denotes.  A search tries every start from the left;
    at one start none of the three has more than one way to match. *)
Module regex.

Definition isQuote (c : ascii) : bool :=
  Ascii.eqb c "'"%char || Ascii.eqb c (ascii_of_nat 34).

(** [\s] is tab, LF, FF, CR and space. *)
Definition isSpace (c : ascii) : bool :=
  let n := N_of_ascii c in
  ((n =? 9) || (n =? 10) || (n =? 12) || (n =? 13) || (n =? 32))%N.

Fixpoint skipSpaces (s : string) : string :=
  match s with
  | String c r => if isSpace c then skipSpaces r else s
  | EmptyString => s
  end.

(** The longest run of bytes that are not quotes, and what follows. *)
Fixpoint spanNonQuote (s : string) : string * string :=
  match s with
  | String c r =>
      if isQuote c then (EmptyString, s)
      else let (body, rest) := spanNonQuote r in (String c body, rest)
  | EmptyString => (EmptyString, EmptyString)
  end.

(** The quoted group: a quote of either kind, one or more bytes that
    are not quotes (the group), a quote of either kind.  Matched at
    the head of [s]: the group and the rest. *)
Definition quoted (s : string) : option (string * string) :=
  match s with
  | String q r =>
      if isQuote q then
        match spanNonQuote r with
        | (String c body, String _ rest) => Some (String c body, rest)
        | _ => None
        end
      else None
  | EmptyString => None
  end.

(** The title pattern: [title:], white space, the quoted group.
    First match from the left: the group. *)
Fixpoint findTitle (s : string) : option string :=
  let here :=
    if strings.HasPrefix s "title:"
    then option_map fst (quoted (skipSpaces (strings.drop 6 s)))
    else None in
  match here with
  | Some g => Some g
  | None => match s with
            | EmptyString => None
            | String _ r => findTitle r
            end
  end.

(** The lazy run of any bytes up to the first closing bracket, at the
    head of [s]; a dot of the pattern does not match a line feed. *)
Fixpoint upToBracket (s : string) : option string :=
  match s with
  | EmptyString => None
  | String c r =>
      if Ascii.eqb c "]"%char then Some EmptyString
      else if Ascii.eqb c "010"%char then None
      else option_map (String c) (upToBracket r)
  end.

(** The tags pattern: [tags:], white space, an opening bracket, the
    lazy run (the group), a closing bracket.  First match from the
    left: the group. *)
Fixpoint findTags (s : string) : option string :=
  let here :=
    if strings.HasPrefix s "tags:" then
      match skipSpaces (strings.drop 5 s) with
      | String "[" r => upToBracket r
      | _ => None
      end
    else None in
  match here with
  | Some g => Some g
  | None => match s with
            | EmptyString => None
            | String _ r => findTags r
            end
  end.

(** All the matches of the quoted group, left to right, none
    overlapping another: the groups.  A round consumes at least one
    byte, so the length of the text is fuel enough. *)
Fixpoint findAllQuotedFrom (fuel : nat) (s : string) : list string :=
  match fuel with
  | O => []
  | S f =>
      match quoted s with
      | Some (g, rest) => g :: findAllQuotedFrom f rest
      | None => match s with
                | EmptyString => []
                | String _ r => findAllQuotedFrom f r
                end
      end
  end.

Definition findAllQuoted (s : string) : list string :=
  findAllQuotedFrom (S (String.length s)) s.

End regex.

Definition parseMetadata (titleLine tagsLine : string) : result (string * list string) :=
  match regex.findTitle titleLine with
  | None => Err (errorString "invalid title format, expected: title: 'title'")
  | Some title =>
      match regex.findTags tagsLine with
      | None => Err (errorString "invalid tags format, expected: tags: ['tag1', 'tag2']")
      | Some tagsStr => Ok (title, regex.findAllQuoted tagsStr)
      end
  end.

Definition newline : string := String "010"%char EmptyString.

(** [processWithPandoc]: the converter's output read as a document; the
    error of that read is dropped, as in the source. *)
Definition processWithPandoc (env : Env) (markdown : string) : result etree.Element :=
  match pandoc env markdown with
  | inl err => Err err
  | inr output => Ok (fst (ReadFrom env etree.NewDocument output))
  end.

Definition isFence (line : string) : bool :=
  strings.HasPrefix (strings.TrimSpace line) "```".

(** The search of [parseCodeBlock] for the closing fence: [n] lines are
    left to look at from [endIdx]. *)
Fixpoint findFence (lines : list string) (endIdx n : nat) : nat :=
  match n with
  | O => endIdx
  | S k =>
      if isFence (nth endIdx lines EmptyString) then endIdx
      else findFence lines (S endIdx) k
  end.

(** [parseCodeBlock] gives the [code] element and the index of the line
    after the closing fence.  The root of an empty converter output is
    nil, and [Copy] on it panics. *)
Definition parseCodeBlock (env : Env) (lines : list string) (startIdx : nat)
  : result (etree.Element * nat) :=
  let endIdx := findFence lines (startIdx + 1) (List.length lines - (startIdx + 1)) in
  if (List.length lines <=? endIdx)%nat then
    Err (errorString ("unclosed code block starting at line "
                      +++ strconv.Itoa (Z.of_nat startIdx + 1)))
  else
    let codeLines := firstn (endIdx - (startIdx + 1)) (skipn (startIdx + 1) lines) in
    let codeContent := strings.Join codeLines newline in
    match processWithPandoc env codeContent with
    | Ok htmlContent =>
        match etree.Root htmlContent with
        | None => Panic
        | Some root =>
            Ok (etree.AddChild (etree.NewElement "code") (etree.TElement root),
                (endIdx + 1)%nat)
        end
    | _ =>
        Ok (etree.CreateText (etree.NewElement "code") codeContent, (endIdx + 1)%nat)
    end.

(** The lines that end a paragraph of plain text. *)
Definition endsText (nextLine : string) : bool :=
  String.eqb nextLine EmptyString
  || strings.HasPrefix nextLine "# "
  || strings.HasPrefix nextLine "- "
  || strings.HasPrefix nextLine "> "
  || strings.HasPrefix nextLine "```".

(** The inner loop of [parseContent] that gathers a paragraph: [n] lines
    are left from [i]. *)
Fixpoint collectText (lines : list string) (i n : nat) (textLines : list string)
  : nat * list string :=
  match n with
  | O => (i, textLines)
  | S k =>
      let nextLine := strings.TrimSpace (nth i lines EmptyString) in
      if endsText nextLine then (i, textLines)
      else collectText lines (S i) k (textLines ++ [nextLine])
  end.

Definition textElement (tag text : string) : etree.Token :=
  etree.TElement (etree.CreateText (etree.NewElement tag) text).

(** The [link] element of a link line, if the line has an href. *)
Definition linkOf (trimmed : string) : option etree.Token :=
  let linkContent := strings.TrimPrefix trimmed "> " in
  match strings.Fields linkContent with
  | [] => None
  | href :: rest =>
      let link := etree.CreateAttr (etree.NewElement "link") "href" href in
      Some (etree.TElement
              (etree.CreateText link
                 (match rest with
                  | [] => href
                  | _ => strings.Join rest " "
                  end)))
  end.

(** One round of the loop of [parseContent] at line [i]: the index the
    loop goes on from and the [body] after the round, or the error the
    loop returns. *)
Definition parseRound (env : Env) (lines : list string) (i : nat) (body : etree.Element)
  : result (nat * etree.Element) :=
  let line := nth i lines EmptyString in
  let trimmed := strings.TrimSpace line in
  if strings.HasPrefix trimmed "```" then
    match parseCodeBlock env lines i with
    | Err err => Err err
    | Panic => Panic
    | Ok (codeBlock, nextIdx) =>
        Ok (nextIdx, etree.AddChild body (etree.TElement codeBlock))
    end
  else if strings.HasPrefix trimmed "# " then
    Ok (S i, etree.AddChild body (textElement "bold" (strings.TrimPrefix trimmed "# ")))
  else if strings.HasPrefix trimmed "- " then
    Ok (S i, etree.AddChild body (textElement "item" (strings.TrimPrefix trimmed "- ")))
  else if strings.HasPrefix trimmed "> " then
    Ok (S i, match linkOf trimmed with
             | Some link => etree.AddChild body link
             | None => body
             end)
  else if negb (String.eqb trimmed EmptyString) then
    let '(next, textLines) :=
      collectText lines (S i) (List.length lines - S i) [trimmed] in
    Ok (next, etree.AddChild body (textElement "text" (strings.Join textLines newline)))
  else
    Ok (S i, body).

(** The loop of [parseContent] from line [i], with the [body] built so
    far.  Every round moves [i] forward, so [fuel] above the number of
    lines left is never used up; [parseContent] starts it that way. *)
Fixpoint parseContentFrom (env : Env) (fuel : nat) (lines : list string) (i : nat)
    (body : etree.Element) : result etree.Element :=
  match fuel with
  | O => Panic
  | S f =>
      if (List.length lines <=? i)%nat then Ok body
      else
        match parseRound env lines i body with
        | Ok (next, body') => parseContentFrom env f lines next body'
        | Err err => Err err
        | Panic => Panic
        end
  end.

Definition parseContent (env : Env) (lines : list string) (body : etree.Element)
  : result etree.Element :=
  parseContentFrom env (S (List.length lines)) lines 0 body.

Definition metaOf (title : string) (tags : list string) : etree.Element :=
  fold_left
    (fun meta tagLabel =>
       etree.AddChild meta
         (etree.TElement (etree.CreateAttr (etree.NewElement "tag") "label" tagLabel)))
    tags
    (etree.AddChild (etree.NewElement "meta")
       (etree.TElement (etree.CreateAttr (etree.NewElement "title") "value" title))).

Definition ParseCustomSyntax (env : Env) (content : string) : result etree.Element :=
  let lines := strings.SplitNL content in
  if (List.length lines <? 2)%nat then
    Err (errorString "file must have at least 2 lines for metadata")
  else
    match parseMetadata (nth 0 lines EmptyString) (nth 1 lines EmptyString) with
    | Err err => Err (wrapError "failed to parse metadata: " err)
    | Panic => Panic
    | Ok (title, tags) =>
        let contentLines := skipn 2 lines in
        match parseContent env contentLines (etree.NewElement "body") with
        | Err err => Err (wrapError "failed to parse content: " err)
        | Panic => Panic
        | Ok body =>
            let documentRoot :=
              etree.AddChild
                (etree.AddChild (etree.NewElement "document")
                   (etree.TElement (metaOf title tags)))
                (etree.TElement body) in
            Ok (etree.AddChild etree.NewDocument (etree.TElement documentRoot))
        end
    end.

(* ================================================================== *)
(** ** The content loader *)
(* ================================================================== *)

Module Post.
Record t : Type := mk {
  Name : string;
  Title : string;
  Key : Z;
  Content : etree.Element;
  Tags : list Z
}.
End Post.

Module Source.
Record t : Type := mk { Posts : list Post.t }.
End Source.

(** The root of the document when it is a [document] element. *)
Definition rootIsDocument (content : etree.Element) : option etree.Element :=
  match etree.Root content with
  | Some docRoot => if String.eqb (etree.Tag docRoot) "document" then Some docRoot else None
  | None => None
  end.

(** The loop of [ProcessPostMeta] over the [tag] elements.  A tag
    without a label ends it with an error; the tags before it have been
    recorded in the taxonomy by then. *)
Fixpoint assureLabels (tags : list etree.Element) (key : Z) (taxonomy : Taxonomy.t)
    (labelKeys : list Z) : result (list Z) * Taxonomy.t :=
  match tags with
  | [] => (Ok labelKeys, taxonomy)
  | tag :: r =>
      let tagLabel := etree.SelectAttrValue tag "label" "" in
      if String.eqb tagLabel "" then (Err (errorString "no label found in a tag"), taxonomy)
      else
        let (labelKey, taxonomy') := AssureLabelFromDocument taxonomy tagLabel key in
        assureLabels r key taxonomy' (labelKeys ++ [labelKey])
  end.

Definition ProcessPostMeta (content : etree.Element) (key : Z) (taxonomy : Taxonomy.t)
  : result (string * list Z) * Taxonomy.t :=
  let meta :=
    match rootIsDocument content with
    | Some docRoot => etree.SelectElement docRoot "meta"
    | None => etree.SelectElement content "meta"
    end in
  match meta with
  | None => (Err (errorString "no meta tag found"), taxonomy)
  | Some meta =>
      match etree.SelectElement meta "title" with
      | None => (Err (errorString "no title tag found"), taxonomy)
      | Some title =>
          let titleValue := etree.SelectAttrValue title "value" "" in
          if String.eqb titleValue "" then
            (Err (errorString "no value in title tag found"), taxonomy)
          else
            match assureLabels (etree.SelectElements meta "tag") key taxonomy [] with
            | (Ok labelKeys, taxonomy') => (Ok (titleValue, labelKeys), taxonomy')
            | (Err err, taxonomy') => (Err err, taxonomy')
            | (Panic, taxonomy') => (Panic, taxonomy')
            end
      end
  end.

(** [s[:n]] and [s[n:]] for an offset inside the string. *)
Definition sliceTo (s : string) (n : Z) : string := strings.take (Z.to_nat n) s.
Definition sliceFrom (s : string) (n : Z) : string := strings.drop (Z.to_nat n) s.

(** The document of a post file: the custom syntax when the first line
    starts with [title:], else XML, and for XML that does not parse the
    old layout wrapped into a [document] with a [body].  The second read
    goes into the document the first read left behind. *)
Definition readPostDocument (env : Env) (path contentStr : string) : result etree.Element :=
  let firstLine := strings.TrimSpace (nth 0 (strings.SplitNL contentStr) EmptyString) in
  if strings.HasPrefix firstLine "title:" then
    match ParseCustomSyntax env contentStr with
    | Ok document => Ok document
    | Err err =>
        Err (wrapError ("failed parsing custom syntax document " +++ path +++ ": ") err)
    | Panic => Panic
    end
  else
    match ReadFrom env etree.NewDocument contentStr with
    | (document, None) => Ok document
    | (document, Some err) =>
        let metaEnd := strings.Index contentStr "</meta>" in
        if metaEnd =? -1 then
          Err (wrapError ("failed parsing post document " +++ path +++ ": ") err)
        else
          let wrapped :=
            "<document>" +++ sliceTo contentStr (metaEnd + 7) +++ "<body>"
            +++ sliceFrom contentStr (metaEnd + 7) +++ "</body></document>" in
          match ReadFrom env document wrapped with
          | (document', None) => Ok document'
          | (_, Some err') =>
              Err (wrapError ("failed parsing post document " +++ path
                              +++ " (even after wrapping): ") err')
          end
    end.

(** [GetPostDocument], from the outcome of reading the file.  The
    registry is the one the taxonomy points to. *)
Definition GetPostDocument (env : Env) (path name : string) (file : error + string)
    (taxonomy : Taxonomy.t) : result Post.t * Taxonomy.t :=
  match file with
  | inl err =>
      (Err (wrapError ("failed reading post document " +++ path +++ ": ") err), taxonomy)
  | inr contentStr =>
      match readPostDocument env path contentStr with
      | Err err => (Err err, taxonomy)
      | Panic => (Panic, taxonomy)
      | Ok document =>
          let (key, keylock) := AssureKey (Taxonomy.Keylock taxonomy) ("POST:" +++ name) in
          let taxonomy1 := Taxonomy.mk keylock (Taxonomy.Tags taxonomy) in
          match ProcessPostMeta document key taxonomy1 with
          | (Ok (title, tags), taxonomy2) =>
              (Ok (Post.mk name title key document tags), taxonomy2)
          | (Err err, taxonomy2) =>
              (Err (wrapError "failed reading post document meta: " err), taxonomy2)
          | (Panic, taxonomy2) => (Panic, taxonomy2)
          end
      end
  end.

(** One step of [filepath.Walk] over the posts folder: the error the
    walk hands to the callback, or the entry and, for a file, the
    outcome of reading it. *)
Module WalkEntry.
Record t : Type := mk {
  walkErr : option error;
  path : string;
  name : string;
  IsDir : bool;
  file : error + string
}.
End WalkEntry.

Definition startsWithTilde (name : string) : bool :=
  match name with
  | String c _ => Ascii.eqb c "~"%char
  | EmptyString => false
  end.

(** The callback of [GetSource] run over the walk, in walk order. *)
Fixpoint walkPosts (env : Env) (walk : list WalkEntry.t) (posts : list Post.t)
    (taxonomy : Taxonomy.t) : result (list Post.t) * Taxonomy.t :=
  match walk with
  | [] => (Ok posts, taxonomy)
  | entry :: r =>
      match WalkEntry.walkErr entry with
      | Some err => (Err err, taxonomy)
      | None =>
          if WalkEntry.IsDir entry then walkPosts env r posts taxonomy
          else if startsWithTilde (WalkEntry.name entry) then walkPosts env r posts taxonomy
          else
            match GetPostDocument env (WalkEntry.path entry) (WalkEntry.name entry)
                    (WalkEntry.file entry) taxonomy with
            | (Ok post, taxonomy') => walkPosts env r (posts ++ [post]) taxonomy'
            | (Err err, taxonomy') =>
                (Err (wrapError ("failed reading post document "
                                 +++ WalkEntry.path entry +++ ": ") err), taxonomy')
            | (Panic, taxonomy') => (Panic, taxonomy')
            end
      end
  end.

Definition GetSource (env : Env) (walk : list WalkEntry.t) (taxonomy : Taxonomy.t)
  : result Source.t * Taxonomy.t :=
  match walkPosts env walk [] taxonomy with
  | (Ok posts, taxonomy') => (Ok (Source.mk posts), taxonomy')
  | (Err err, taxonomy') =>
      (Err (wrapError "failed reading post document folder: " err), taxonomy')
  | (Panic, taxonomy') => (Panic, taxonomy')
  end.

(* ================================================================== *)
(** ** The build pipeline *)
(* ================================================================== *)

(** [filepath.Join] on the paths of the build: the two parts with a
    slash between, cleaned.  The parts are free of dots and doubled
    slashes but for the leading [./] of the output root, which cleaning
    drops. *)
Definition filepath_Join (dir name : string) : string :=
  strings.TrimPrefix (dir +++ "/" +++ name) "./".

Definition copyAttrs (attrs : list etree.attribute) : list etree.attribute :=
  fold_left (fun acc a => etree.setAttr acc (etree.Key a) (etree.Value a)) attrs [].

(** [copyElementChildren src dst] appends these tokens to [dst]: a copy
    of every child element of [src], made the same way all the way
    down, and the text of every character-data child.  Other tokens are
    not copied. *)
Fixpoint copyElementChildren (src : etree.Element) : list etree.Token :=
  match src with
  | etree.mkElement _ _ children =>
      (fix copyTokens (ts : list etree.Token) : list etree.Token :=
         match ts with
         | [] => []
         | etree.TElement elem :: r =>
             etree.TElement
               (etree.mkElement (etree.Tag elem) (copyAttrs (etree.Attr elem))
                  (copyElementChildren elem))
             :: copyTokens r
         | etree.TCharData data :: r => etree.TCharData data :: copyTokens r
         | etree.TOther :: r => copyTokens r
         end) children
  end.

Definition copyOf (elem : etree.Element) : etree.Element :=
  etree.mkElement (etree.Tag elem) (copyAttrs (etree.Attr elem)) (copyElementChildren elem).

(** The tags [buildPost] lets through. *)
Definition allowedTag (tag : string) : bool :=
  String.eqb tag "bold" || String.eqb tag "text" || String.eqb tag "code"
  || String.eqb tag "item" || String.eqb tag "link".

(** The first tag with the label gives its key; [0] when there is none
    (the zero value of [var tagKey int]). *)
Fixpoint tagKeyOf (tags : list Tag.t) (tagLabel : string) : Z :=
  match tags with
  | [] => 0
  | t :: r => if String.eqb (Tag.Label t) tagLabel then Tag.Key t else tagKeyOf r tagLabel
  end.

(** [meta] or [body] as [buildPost] looks for it: at the top of the
    document, else under a [document] root. *)
Definition selectTopOrWrapped (content : etree.Element) (tag : string) : option etree.Element :=
  match etree.SelectElement content tag with
  | Some e => Some e
  | None =>
      match rootIsDocument content with
      | Some docRoot => etree.SelectElement docRoot tag
      | None => None
      end
  end.

(** The [meta] element of a post page. *)
Definition postMeta (metaOrig : etree.Element) (taxonomy : Taxonomy.t) : etree.Element :=
  let meta0 :=
    match etree.SelectElement metaOrig "title" with
    | Some titleOrig =>
        etree.AddChild (etree.NewElement "meta")
          (etree.TElement
             (etree.CreateAttr (etree.NewElement "title") "value"
                (etree.SelectAttrValue titleOrig "value" "")))
    | None => etree.NewElement "meta"
    end in
  fold_left
    (fun meta tagOrig =>
       let tagLabel := etree.SelectAttrValue tagOrig "label" "" in
       let tag := etree.CreateAttr (etree.NewElement "tag") "label" tagLabel in
       let tagKey := tagKeyOf (Taxonomy.Tags taxonomy) tagLabel in
       etree.AddChild meta
         (etree.TElement
            (if 0 <? tagKey then etree.CreateAttr tag "id" (KeyIDToHex tagKey) else tag)))
    (etree.SelectElements metaOrig "tag") meta0.

Definition linkElement (href text : string) : etree.Token :=
  etree.TElement
    (etree.CreateText (etree.CreateAttr (etree.NewElement "link") "href" href) text).

(** The head of a post body: the title in [bold], then a link per tag
    of the post that the taxonomy knows. *)
Definition postHead (metaOrig : etree.Element) (taxonomy : Taxonomy.t) : list etree.Token :=
  let title :=
    match etree.SelectElement metaOrig "title" with
    | Some titleOrig =>
        let titleValue := etree.SelectAttrValue titleOrig "value" "" in
        if negb (String.eqb titleValue "") then [textElement "bold" titleValue] else []
    | None => []
    end in
  fold_left
    (fun body tagOrig =>
       let tagLabel := etree.SelectAttrValue tagOrig "label" "" in
       if negb (String.eqb tagLabel "") then
         let tagKey := tagKeyOf (Taxonomy.Tags taxonomy) tagLabel in
         if 0 <? tagKey then
           body ++ [linkElement ("/" +++ KeyIDToHex tagKey +++ "/")
                      (KeyIDToHex tagKey +++ " - " +++ tagLabel)]
         else body
       else body)
    (etree.SelectElements metaOrig "tag") title.

(** The copy of the children of the parsed body: elements with an
    allowed tag, and character data. *)
Fixpoint copyBody (children : list etree.Token) : list etree.Token :=
  match children with
  | [] => []
  | etree.TElement elem :: r =>
      if allowedTag (etree.Tag elem) then etree.TElement (copyOf elem) :: copyBody r
      else copyBody r
  | etree.TCharData data :: r => etree.TCharData data :: copyBody r
  | etree.TOther :: r => copyBody r
  end.

(** The same copy in the fallback, where blank character data is left
    out. *)
Fixpoint copyLoose (children : list etree.Token) : list etree.Token :=
  match children with
  | [] => []
  | etree.TElement elem :: r =>
      if allowedTag (etree.Tag elem) then etree.TElement (copyOf elem) :: copyLoose r
      else copyLoose r
  | etree.TCharData data :: r =>
      if negb (String.eqb (strings.TrimSpace data) "")
      then etree.TCharData data :: copyLoose r
      else copyLoose r
  | etree.TOther :: r => copyLoose r
  end.

(** The fallback of [buildPost] for a document without a [body]: what
    follows the closing [meta] tag in the text of the document, read
    again as XML.  [Panic] is the nil root of a document that was read
    without error. *)
Definition looseBody (env : Env) (content : etree.Element) : result (list etree.Token) :=
  let xmlContent := WriteTo env content in
  let metaEnd := strings.Index xmlContent "</meta>" in
  if metaEnd =? -1 then Ok []
  else
    let bodyContent := strings.TrimSpace (sliceFrom xmlContent (metaEnd + 7)) in
    let bodyContent := strings.TrimPrefix bodyContent "<body>" in
    let bodyContent := strings.TrimSuffix bodyContent "</body>" in
    let bodyContent := strings.TrimPrefix bodyContent "<document>" in
    let bodyContent := strings.TrimSuffix bodyContent "</document>" in
    let bodyContent := strings.TrimSpace bodyContent in
    if String.eqb bodyContent "" then Ok []
    else
      match ReadFrom env etree.NewDocument ("<temp>" +++ bodyContent +++ "</temp>") with
      | (tempDoc, None) =>
          match etree.Root tempDoc with
          | Some tempRoot => Ok (copyLoose (etree.Child tempRoot))
          | None => Panic
          end
      | (_, Some _) => Ok [textElement "text" bodyContent]
      end.

(** The document [buildPost] writes, before it is indented. *)
Definition postDocument (env : Env) (post : Post.t) (taxonomy : Taxonomy.t)
  : result etree.Element :=
  let metaOrig := selectTopOrWrapped (Post.Content post) "meta" in
  let documentRoot :=
    match metaOrig with
    | Some m => etree.AddChild (etree.NewElement "document") (etree.TElement (postMeta m taxonomy))
    | None => etree.NewElement "document"
    end in
  let head :=
    match metaOrig with
    | Some m => postHead m taxonomy
    | None => []
    end in
  let copied :=
    match selectTopOrWrapped (Post.Content post) "body" with
    | Some bodyOrig => Ok (copyBody (etree.Child bodyOrig))
    | None => looseBody env (Post.Content post)
    end in
  match copied with
  | Ok tokens =>
      let body := etree.mkElement "body" [] (head ++ tokens) in
      Ok (etree.AddChild etree.NewDocument
            (etree.TElement (etree.AddChild documentRoot (etree.TElement body))))
  | Err err => Err err
  | Panic => Panic
  end.

Definition buildPost (env : Env) (post : Post.t) (outputPath : string)
    (taxonomy : Taxonomy.t) (fs : Files) : result unit * Files :=
  let identityHex := KeyIDToHex (Post.Key post) in
  let postDir := filepath_Join outputPath identityHex in
  match MkdirAll env postDir with
  | Some err => (Err (wrapError "failed to create post directory: " err), fs)
  | None =>
      match postDocument env post taxonomy with
      | Err err => (Err err, fs)
      | Panic => (Panic, fs)
      | Ok doc =>
          let indexPath := filepath_Join postDir "index.xml" in
          match WriteToFile env (Indent env 4 doc) indexPath fs with
          | (Some err, fs') => (Err (wrapError "failed to write post index.xml: " err), fs')
          | (None, fs') => (Ok tt, fs')
          end
      end
  end.

(** The title of the first post with the key; empty when there is
    none (the zero value of [var postTitle string]). *)
Fixpoint postTitleOf (posts : list Post.t) (mentionID : Z) : string :=
  match posts with
  | [] => EmptyString
  | post :: r => if Post.Key post =? mentionID then Post.Title post else postTitleOf r mentionID
  end.

Definition pageLabel (id : Z) (name : string) : string :=
  KeyIDToHex id +++ " - " +++ name.

Definition titleMeta (value : string) : etree.Token :=
  etree.TElement
    (etree.AddChild (etree.NewElement "meta")
       (etree.TElement (etree.CreateAttr (etree.NewElement "title") "value" value))).

Definition pageOf (meta : etree.Token) (body : list etree.Token) : etree.Element :=
  etree.AddChild etree.NewDocument
    (etree.TElement
       (etree.AddChild (etree.AddChild (etree.NewElement "document") meta)
          (etree.TElement (etree.mkElement "body" [] body)))).

(** The links of a tag page: one per mention whose post is found and
    has a title. *)
Definition mentionLinks (mentions : list Z) (source : Source.t) : list etree.Token :=
  flat_map
    (fun mentionID =>
       let postTitle := postTitleOf (Source.Posts source) mentionID in
       if negb (String.eqb postTitle "") then
         [linkElement ("/" +++ KeyIDToHex mentionID +++ "/") (pageLabel mentionID postTitle)]
       else [])
    mentions.

Definition tagDocument (tag : Tag.t) (source : Source.t) : etree.Element :=
  pageOf (titleMeta (Tag.Label tag))
    (textElement "bold" (Tag.Label tag) :: mentionLinks (Tag.Mentions tag) source).

Definition buildTag (env : Env) (tag : Tag.t) (outputPath : string) (source : Source.t)
    (fs : Files) : result unit * Files :=
  let identityHex := KeyIDToHex (Tag.Key tag) in
  let tagDir := filepath_Join outputPath identityHex in
  match MkdirAll env tagDir with
  | Some err => (Err (wrapError "failed to create tag directory: " err), fs)
  | None =>
      let indexPath := filepath_Join tagDir "index.xml" in
      match WriteToFile env (Indent env 4 (tagDocument tag source)) indexPath fs with
      | (Some err, fs') => (Err (wrapError "failed to write tag index.xml: " err), fs')
      | (None, fs') => (Ok tt, fs')
      end
  end.

Definition cmp_Compare (x y : Z) : Z :=
  if x <? y then -1 else if y <? x then 1 else 0.

Definition byPostKeyDesc (a b : Post.t) : Z := - cmp_Compare (Post.Key a) (Post.Key b).
Definition byTagKeyDesc (a b : Tag.t) : Z := - cmp_Compare (Tag.Key a) (Tag.Key b).

Definition postLink (post : Post.t) : etree.Token :=
  linkElement ("/" +++ KeyIDToHex (Post.Key post) +++ "/")
    (pageLabel (Post.Key post) (Post.Title post)).

Definition tagLink (tag : Tag.t) : etree.Token :=
  linkElement ("/" +++ KeyIDToHex (Tag.Key tag) +++ "/")
    (pageLabel (Tag.Key tag) (Tag.Label tag)).

Definition homeTitle : string := "փետուր".

(** The body of the home page, from the posts and the tags as sorted. *)
Definition homeBody (posts : list Post.t) (tags : list Tag.t) : list etree.Token :=
  map postLink posts ++ [textElement "text" ""] ++ map tagLink tags.

(** [buildHomeCatalog] sorts the posts of the source and the tags of
    the taxonomy in place: the caller's source and taxonomy come back
    sorted, whatever happens to the write. *)
Definition buildHomeCatalog (env : Env) (source : Source.t) (taxonomy : Taxonomy.t)
    (outputPath : string) (fs : Files)
  : result unit * Source.t * Taxonomy.t * Files :=
  let posts := SortFunc env Post.t byPostKeyDesc (Source.Posts source) in
  let tags := SortFunc env Tag.t byTagKeyDesc (Taxonomy.Tags taxonomy) in
  let source' := Source.mk posts in
  let taxonomy' := Taxonomy.mk (Taxonomy.Keylock taxonomy) tags in
  let doc := pageOf (titleMeta homeTitle) (homeBody posts tags) in
  let indexPath := filepath_Join outputPath "index.xml" in
  match WriteToFile env (Indent env 4 doc) indexPath fs with
  | (Some err, fs') =>
      (Err (wrapError "failed to write home catalog: " err), source', taxonomy', fs')
  | (None, fs') => (Ok tt, source', taxonomy', fs')
  end.

Definition xmlOutputPath : string := "./output/xml".

(** [filepath.Dir xmlOutputPath], cleaned. *)
Definition outputParent : string := "output".

(** The files that [os.RemoveAll dir] leaves: those that are not inside
    the folder [dir].  The paths of the files are relative and clean,
    as [filepath.Join] gives them. *)
Definition removeAll (dir : string) (fs : Files) : Files :=
  filter (fun file => negb (strings.HasPrefix (fst file) (dir +++ "/"))) fs.

(** The first step of [Build]: every folder that the listing of the
    output parent names is removed with all that is in it; plain files
    there are left.  The first removal that fails ends the build, with
    the folders before it gone; the folder it failed on is taken to be
    as it was.  A listing that cannot be read (no output yet) is passed
    over. *)
Fixpoint removeFolders (env : Env) (entries : list DirEntry.t) (fs : Files)
  : option error * Files :=
  match entries with
  | [] => (None, fs)
  | entry :: r =>
      if DirEntry.IsDir entry then
        match RemoveAll env (filepath_Join outputParent (DirEntry.Name entry)) with
        | Some err =>
            (Some (wrapError ("failed to remove output directory "
                              +++ DirEntry.Name entry +++ ": ") err), fs)
        | None =>
            removeFolders env r
              (removeAll (filepath_Join outputParent (DirEntry.Name entry)) fs)
        end
      else removeFolders env r fs
  end.

Definition clearOutput (env : Env) (fs : Files) : option error * Files :=
  match ReadDir env outputParent with
  | inr entries => removeFolders env entries fs
  | inl _ => (None, fs)
  end.

Fixpoint buildPosts (env : Env) (posts : list Post.t) (taxonomy : Taxonomy.t) (fs : Files)
  : result unit * Files :=
  match posts with
  | [] => (Ok tt, fs)
  | post :: r =>
      match buildPost env post xmlOutputPath taxonomy fs with
      | (Ok _, fs') => buildPosts env r taxonomy fs'
      | (Err err, fs') =>
          (Err (wrapError ("failed to build post " +++ Post.Name post +++ ": ") err), fs')
      | (Panic, fs') => (Panic, fs')
      end
  end.

Fixpoint buildTags (env : Env) (tags : list Tag.t) (source : Source.t) (fs : Files)
  : result unit * Files :=
  match tags with
  | [] => (Ok tt, fs)
  | tag :: r =>
      match buildTag env tag xmlOutputPath source fs with
      | (Ok _, fs') => buildTags env r source fs'
      | (Err err, fs') =>
          (Err (wrapError ("failed to build tag " +++ Tag.Label tag +++ ": ") err), fs')
      | (Panic, fs') => (Panic, fs')
      end
  end.

(** [Build]: the outcome, the source and the taxonomy as the caller
    finds them afterwards, and the files.  Copying the statics and
    applying the stylesheets only move files; their outcome is the
    environment's. *)
Definition Build (env : Env) (source : Source.t) (taxonomy : Taxonomy.t) (fs : Files)
  : result unit * Source.t * Taxonomy.t * Files :=
  match clearOutput env fs with
  | (Some err, fs0) => (Err err, source, taxonomy, fs0)
  | (None, fs0) =>
      match MkdirAll env xmlOutputPath with
      | Some err =>
          (Err (wrapError "failed to create output directory: " err), source, taxonomy, fs0)
      | None =>
          match buildPosts env (Source.Posts source) taxonomy fs0 with
          | (Err err, fs1) => (Err err, source, taxonomy, fs1)
          | (Panic, fs1) => (Panic, source, taxonomy, fs1)
          | (Ok _, fs1) =>
              match buildTags env (Taxonomy.Tags taxonomy) source fs1 with
              | (Err err, fs2) => (Err err, source, taxonomy, fs2)
              | (Panic, fs2) => (Panic, source, taxonomy, fs2)
              | (Ok _, fs2) =>
                  match buildHomeCatalog env source taxonomy xmlOutputPath fs2 with
                  | (Err err, source', taxonomy', fs3) =>
                      (Err (wrapError "failed to build home catalog: " err),
                       source', taxonomy', fs3)
                  | (Panic, source', taxonomy', fs3) => (Panic, source', taxonomy', fs3)
                  | (Ok _, source', taxonomy', fs3) =>
                      match copyStatics env with
                      | Some err =>
                          (Err (wrapError "failed to copy static files: " err),
                           source', taxonomy', fs3)
                      | None =>
                          match applyStylesheets env with
                          | Some err =>
                              (Err (wrapError "failed to apply stylesheets: " err),
                               source', taxonomy', fs3)
                          | None => (Ok tt, source', taxonomy', fs3)
                          end
                      end
                  end
              end
          end
      end
  end.

(** [main]: load the registry, load the posts, build, save.  Every
    error ends in [panic(err)]. *)
Definition main (env : Env) (walk : list WalkEntry.t) (fs : Files) : result unit * Files :=
  match GetKeylock env fs with
  | Ok keylock =>
      match GetSource env walk (GetTaxonomy keylock) with
      | (Ok source, taxonomy) =>
          match Build env source taxonomy fs with
          | (Ok _, _, taxonomy', fs') =>
              match Save env (Taxonomy.Keylock taxonomy') fs' with
              | (None, fs'') => (Ok tt, fs'')
              | (Some _, fs'') => (Panic, fs'')
              end
          | (_, _, _, fs') => (Panic, fs')
          end
      | (_, _) => (Panic, fs)
      end
  | _ => (Panic, fs)
  end.

(* ================================================================== *)
(** ** Runs of calls, and what the statements below read off a state *)
(* ================================================================== *)

(** [AssureKey] called on each value in turn: for every call, whether
    the value was new to the registry, and the id returned. *)
Fixpoint assureEach (keylock : Keylock.t) (values : list string)
  : list (bool * Z) * Keylock.t :=
  match values with
  | [] => ([], keylock)
  | value :: r =>
      let fresh := match findKey (Keylock.Keys keylock) value with
                   | None => true
                   | Some _ => false
                   end in
      let (id, keylock') := AssureKey keylock value in
      let (ids, keylock'') := assureEach keylock' r in
      ((fresh, id) :: ids, keylock'')
  end.

Definition oneTo (n : nat) : list Z := map Z.of_nat (seq 1 n).

(** The calls that change a taxonomy and its registry during a load. *)
Inductive call : Type :=
| callAssureKey (value : string)
| callAssureLabel (label : string) (document : Z).

Definition runCall (taxonomy : Taxonomy.t) (c : call) : Taxonomy.t :=
  match c with
  | callAssureKey value =>
      Taxonomy.mk (snd (AssureKey (Taxonomy.Keylock taxonomy) value)) (Taxonomy.Tags taxonomy)
  | callAssureLabel label document =>
      snd (AssureLabelFromDocument taxonomy label document)
  end.

Definition runCalls (taxonomy : Taxonomy.t) (calls : list call) : Taxonomy.t :=
  fold_left runCall calls taxonomy.

(** The mentions of the first tag with the label. *)
Fixpoint mentionsOf (tags : list Tag.t) (label : string) : list Z :=
  match tags with
  | [] => []
  | tag :: r =>
      if String.eqb (Tag.Label tag) label then Tag.Mentions tag else mentionsOf r label
  end.

(** No tag mentions a post twice. *)
Definition mentionsDistinct (tags : list Tag.t) : Prop :=
  Forall (fun tag => NoDup (Tag.Mentions tag)) tags.

(** The value of a lower-case hexadecimal digit. *)
Definition lowerHexValue (c : ascii) : option Z :=
  let n := Z.of_N (N_of_ascii c) in
  if (48 <=? n) && (n <=? 57) then Some (n - 48)
  else if (97 <=? n) && (n <=? 102) then Some (n - 87)
  else None.

(** What Go documents of a comparison handed to [slices.SortFunc]: a
    strict weak ordering, read off the sign of the result. *)
Definition weakOrder {A : Type} (cmp : A -> A -> Z) : Prop :=
  (forall a b, 0 <= cmp a b -> cmp b a <= 0)
  /\ (forall a b c, cmp a b <= 0 -> cmp b c <= 0 -> cmp a c <= 0).

(** What Go documents of [slices.SortFunc]: the slice is rearranged,
    and for such a comparison it ends up in ascending order; equal
    elements may land in any order. *)
Definition sortsSlices (sort : forall A : Type, (A -> A -> Z) -> list A -> list A) : Prop :=
  forall (A : Type) (cmp : A -> A -> Z) (x : list A),
    Permutation x (sort A cmp x)
    /\ (weakOrder cmp -> StronglySorted (fun a b => cmp a b <= 0) (sort A cmp x)).

(** A list in descending order of a key. *)
Definition descendingBy {A : Type} (key : A -> Z) (x : list A) : Prop :=
  StronglySorted (fun a b => key b <= key a) x.

(** What [Build] leaves of its arguments. *)
Definition outcomeOf {A B C D : Type} (r : A * B * C * D) : A := fst (fst (fst r)).
Definition sourceOf {A B C D : Type} (r : A * B * C * D) : B := snd (fst (fst r)).
Definition taxonomyOf {A B C D : Type} (r : A * B * C * D) : C := snd (fst r).
Definition filesOf {A B C D : Type} (r : A * B * C * D) : D := snd r.

(** The tokens of a parsed body that [buildPost] keeps, and what it
    writes for one of them. *)
Definition kept (t : etree.Token) : bool :=
  match t with
  | etree.TElement elem => allowedTag (etree.Tag elem)
  | etree.TCharData _ => true
  | etree.TOther => false
  end.

Definition copyToken (t : etree.Token) : etree.Token :=
  match t with
  | etree.TElement elem => etree.TElement (copyOf elem)
  | other => other
  end.

(** An element with more children at the end. *)
Definition appendTokens (e : etree.Element) (ts : list etree.Token) : etree.Element :=
  etree.mkElement (etree.Tag e) (etree.Attr e) (etree.Child e ++ ts).

(** The link a link line stands for: [href] is the target and the
    text. *)
Definition bareLink (href : string) : etree.Token :=
  etree.TElement
    (etree.mkElement "link" [etree.mkAttr "href" href] [etree.TCharData href]).

(** An element that a copy gives back as it is: at every depth the
    keys of the attributes are distinct, and the children are elements
    and character data. *)
Fixpoint distinctKeys (attrs : list etree.attribute) : bool :=
  match attrs with
  | [] => true
  | a :: r =>
      negb (existsb (fun b => String.eqb (etree.Key b) (etree.Key a)) r) && distinctKeys r
  end.

Fixpoint plain (e : etree.Element) : bool :=
  match e with
  | etree.mkElement _ attrs children =>
      distinctKeys attrs
      && (fix plainTokens (ts : list etree.Token) : bool :=
            match ts with
            | [] => true
            | etree.TElement x :: r => plain x && plainTokens r
            | etree.TCharData _ :: r => plainTokens r
            | etree.TOther :: r => false
            end) children
  end.

Definition plainToken (t : etree.Token) : bool :=
  match t with
  | etree.TElement x => plain x
  | etree.TCharData _ => true
  | etree.TOther => false
  end.

(** The [body] element of a page. *)
Definition bodyOfPage (doc : etree.Element) : option etree.Element :=
  match etree.Root doc with
  | Some root => etree.SelectElement root "body"
  | None => None
  end.

Definition elementTags (ts : list etree.Token) : list string :=
  flat_map (fun t => match t with
                     | etree.TElement e => [etree.Tag e]
                     | _ => []
                     end) ts.

(** The ids of a registry are 1, 2, 3, ... in entry order. *)
Definition numbered (keylock : Keylock.t) : Prop :=
  map Key.ID (Keylock.Keys keylock) = oneTo (List.length (Keylock.Keys keylock)).

(** The key of the first tag with the label, if there is one. *)
Fixpoint knownKey (tags : list Tag.t) (label : string) : option Z :=
  match tags with
  | [] => None
  | tag :: r =>
      if String.eqb (Tag.Label tag) label then Some (Tag.Key tag) else knownKey r label
  end.

(** The entry a [key] element of the lock file stands for, when its id
    is a number. *)
Definition keyOfElement (keyElement : etree.Element) : option Key.t :=
  match strconv.Atoi (etree.SelectAttrValue keyElement "id" "") with
  | inr keyID => Some (Key.mk keyID (etree.SelectAttrValue keyElement "value" ""))
  | inl _ => None
  end.

(** The tags have distinct labels and the ids the registry holds for
    them. *)
Definition sound (taxonomy : Taxonomy.t) : Prop :=
  NoDup (map Tag.Label (Taxonomy.Tags taxonomy))
  /\ Forall (fun tag =>
               findKey (Keylock.Keys (Taxonomy.Keylock taxonomy)) ("TAG:" +++ Tag.Label tag)
               = Some (Tag.Key tag))
       (Taxonomy.Tags taxonomy).

(** A string without a byte that [p] holds of. *)
Fixpoint freeOf (p : ascii -> bool) (s : string) : bool :=
  match s with
  | EmptyString => true
  | String c r => negb (p c) && freeOf p r
  end.

(** What may stand between the quotes of a title or of a tag: at least
    one byte and no quote; in a tag also no closing bracket and no line
    feed. *)
Definition titleText (s : string) : bool :=
  negb (String.eqb s EmptyString) && freeOf regex.isQuote s.

Definition endsTags (c : ascii) : bool :=
  Ascii.eqb c "]"%char || Ascii.eqb c "010"%char.

Definition tagText (s : string) : bool :=
  titleText s && freeOf endsTags s.

Definition inQuotes (q : ascii) (s : string) : string :=
  String q (s +++ String q EmptyString).

(** The error of a code block that starts at index [i] and is not
    closed. *)
Definition unclosedAt (i : nat) : error :=
  errorString ("unclosed code block starting at line " +++ strconv.Itoa (Z.of_nat i + 1)).

(** The converter gave an output in which [etree] finds no element. *)
Definition rootless (env : Env) (markdown : string) : Prop :=
  exists output,
    pandoc env markdown = inr output
    /\ etree.Root (fst (ReadFrom env etree.NewDocument output)) = None.

(** The lines from [i] on hold no fence. *)
Definition noFenceAfter (lines : list string) (i : nat) : Prop :=
  forall k, (i < k < List.length lines)%nat -> isFence (nth k lines EmptyString) = false.

(** The entries of the walk that [GetSource] passes over: folders, and
    files whose name starts with a tilde. *)
Definition passedOver (entry : WalkEntry.t) : bool :=
  WalkEntry.IsDir entry || startsWithTilde (WalkEntry.name entry).

(** A registry that holds the entries of another, in their places,
    followed by more. *)
Definition extends (after before : Keylock.t) : Prop :=
  exists added, Keylock.Keys after = Keylock.Keys before ++ added.

(** The post has the id the registry holds for its file name. *)
Definition registered (keylock : Keylock.t) (post : Post.t) : Prop :=
  findKey (Keylock.Keys keylock) ("POST:" +++ Post.Name post) = Some (Post.Key post).

(** The path of the page of an id. *)
Definition pagePath (id : Z) : string :=
  filepath_Join (filepath_Join xmlOutputPath (KeyIDToHex id)) "index.xml".

(** The mentions of the tags are among these ids. *)
Definition mentionsWithin (ids : list Z) (tags : list Tag.t) : Prop :=
  Forall (fun tag => Forall (fun id => In id ids) (Tag.Mentions tag)) tags.

(** The link of a tag page to the post of a mention. *)
Definition mentionLink (source : Source.t) (mentionID : Z) : etree.Token :=
  linkElement ("/" +++ KeyIDToHex mentionID +++ "/")
    (pageLabel mentionID (postTitleOf (Source.Posts source) mentionID)).

(** A key is present in a registry when an entry holds it as its
    value. *)
Definition present (keylock : Keylock.t) (value : string) : bool :=
  existsb (String.eqb value) (map Key.Value (Keylock.Keys keylock)).

(** [AssureKey] called on each value in turn: the ids returned by the
    first-time calls, those whose key was not present in the registry
    when the call was made. *)
Fixpoint firstTimeIds (keylock : Keylock.t) (values : list string) : list Z :=
  match values with
  | [] => []
  | value :: r =>
      let (id, keylock') := AssureKey keylock value in
      if present keylock value then firstTimeIds keylock' r
      else id :: firstTimeIds keylock' r
  end.

(** Whether a build gets as far as the home page: the output is
    cleared, the output folder made, and every post page and tag page
    written. *)
Definition reachesHome (env : Env) (source : Source.t) (taxonomy : Taxonomy.t) (fs : Files)
  : bool :=
  match clearOutput env fs with
  | (Some _, _) => false
  | (None, fs0) =>
      match MkdirAll env xmlOutputPath with
      | Some _ => false
      | None =>
          match buildPosts env (Source.Posts source) taxonomy fs0 with
          | (Ok _, fs1) =>
              match buildTags env (Taxonomy.Tags taxonomy) source fs1 with
              | (Ok _, _) => true
              | _ => false
              end
          | _ => false
          end
      end
  end.

(** The child elements of an element, in order: what [ChildElements]
    returns. *)
Definition childElements (e : etree.Element) : list etree.Element :=
  flat_map (fun t => match t with
                     | etree.TElement x => [x]
                     | _ => []
                     end) (etree.Child e).


(* ================================================================== *)
(** ** An environment to run the program in *)
(* ================================================================== *)

(** A small XML writer and reader, an indenter in the manner of
    [etree], the insertion sort that Go's sort runs on a short slice, a
    machine without [pandoc] and a file system that accepts every
    operation.  The examples below run the program in it. *)
Module Reference.

Definition amp : ascii := "&"%char.
Definition lt : ascii := "<"%char.
Definition gt : ascii := ">"%char.
Definition apos : ascii := "'"%char.
Definition quot : ascii := ascii_of_nat 34.

Definition between (lo hi n : N) : bool := (lo <=? n)%N && (n <=? hi)%N.

Definition RuneError : N := 65533.

(** What the first byte of an encoding says: how many bytes it takes
    and the range of the second.  The bytes [80]-[C1] and [F5]-[FF]
    start no encoding. *)
Definition leadOf (b : N) : option (nat * N * N) :=
  if between 194 223 b then Some (2%nat, 128%N, 191%N)
  else if (b =? 224)%N then Some (3%nat, 160%N, 191%N)
  else if between 225 236 b then Some (3%nat, 128%N, 191%N)
  else if (b =? 237)%N then Some (3%nat, 128%N, 159%N)
  else if between 238 239 b then Some (3%nat, 128%N, 191%N)
  else if (b =? 240)%N then Some (4%nat, 144%N, 191%N)
  else if between 241 243 b then Some (4%nat, 128%N, 191%N)
  else if (b =? 244)%N then Some (4%nat, 128%N, 143%N)
  else None.

Definition low6 (b : N) : N := N.land b 63.

(** [utf8.DecodeRuneInString]: the rune at the start of the string and
    its width; [RuneError] with width 1 where no valid encoding
    starts. *)
Definition decodeRune (s : string) : N * nat :=
  match s with
  | EmptyString => (RuneError, 0%nat)
  | String c0 r0 =>
      let b0 := N_of_ascii c0 in
      if (b0 <? 128)%N then (b0, 1%nat)
      else
        match leadOf b0, r0 with
        | Some (size, lo, hi), String c1 r1 =>
            let b1 := N_of_ascii c1 in
            if negb (between lo hi b1) then (RuneError, 1%nat)
            else if (size =? 2)%nat then
              (N.lor (N.shiftl (N.land b0 31) 6) (low6 b1), 2%nat)
            else
              match r1 with
              | String c2 r2 =>
                  let b2 := N_of_ascii c2 in
                  if negb (between 128 191 b2) then (RuneError, 1%nat)
                  else if (size =? 3)%nat then
                    (N.lor (N.shiftl (N.land b0 15) 12)
                       (N.lor (N.shiftl (low6 b1) 6) (low6 b2)), 3%nat)
                  else
                    match r2 with
                    | String c3 _ =>
                        let b3 := N_of_ascii c3 in
                        if negb (between 128 191 b3) then (RuneError, 1%nat)
                        else
                          (N.lor (N.shiftl (N.land b0 7) 18)
                             (N.lor (N.shiftl (low6 b1) 12)
                                (N.lor (N.shiftl (low6 b2) 6) (low6 b3))), 4%nat)
                    | EmptyString => (RuneError, 1%nat)
                    end
              | EmptyString => (RuneError, 1%nat)
              end
        | _, _ => (RuneError, 1%nat)
        end
  end.

(** The characters XML allows. *)
Definition isInCharacterRange (r : N) : bool :=
  (r =? 9)%N || (r =? 10)%N || (r =? 13)%N
  || between 32 55295 r || between 57344 65533 r || between 65536 1114111 r.

(** U+FFFD in UTF-8. *)
Definition replacement : string :=
  String (ascii_of_nat 239) (String (ascii_of_nat 191) (String (ascii_of_nat 189) EmptyString)).

(** The writer's escaping of attribute values and character data: the
    five entities, and the replacement character for every byte that is
    not part of a valid encoding and every character XML does not
    allow. *)
Fixpoint escapeFrom (fuel : nat) (s : string) : string :=
  match fuel with
  | O => EmptyString
  | S f =>
      match s with
      | EmptyString => EmptyString
      | String c _ =>
          let (r, width) := decodeRune s in
          (if Ascii.eqb c amp then "&amp;"
           else if Ascii.eqb c lt then "&lt;"
           else if Ascii.eqb c gt then "&gt;"
           else if Ascii.eqb c apos then "&apos;"
           else if Ascii.eqb c quot then "&quot;"
           else if negb (isInCharacterRange r) || ((r =? RuneError)%N && (width =? 1)%nat)
           then replacement
           else strings.take width s)
          +++ escapeFrom f (strings.drop width s)
      end
  end.

Definition escape (s : string) : string := escapeFrom (String.length s) s.

Definition cr : ascii := ascii_of_nat 13.
Definition lf : ascii := ascii_of_nat 10.

(** The reader's text: the five entities are resolved, and a carriage
    return, alone or before a line feed, is read as a line feed. *)
Fixpoint unescapeFrom (fuel : nat) (s : string) : string :=
  match fuel with
  | O => s
  | S f =>
      match s with
      | EmptyString => EmptyString
      | String c r =>
          if strings.HasPrefix s "&amp;" then String amp (unescapeFrom f (strings.drop 5 s))
          else if strings.HasPrefix s "&lt;" then String lt (unescapeFrom f (strings.drop 4 s))
          else if strings.HasPrefix s "&gt;" then String gt (unescapeFrom f (strings.drop 4 s))
          else if strings.HasPrefix s "&apos;" then String apos (unescapeFrom f (strings.drop 6 s))
          else if strings.HasPrefix s "&quot;" then String quot (unescapeFrom f (strings.drop 6 s))
          else if Ascii.eqb c cr then
            match r with
            | String d r' =>
                if Ascii.eqb d lf then String lf (unescapeFrom f r')
                else String lf (unescapeFrom f r)
            | EmptyString => String lf EmptyString
            end
          else String c (unescapeFrom f r)
      end
  end.

Definition unescape (s : string) : string := unescapeFrom (String.length s) s.


Definition writeAttrs (attrs : list etree.attribute) : string :=
  fold_right
    (fun a rest =>
       " " +++ etree.Key a +++ "=" +++ dquote +++ escape (etree.Value a) +++ dquote +++ rest)
    EmptyString attrs.

Fixpoint writeElement (e : etree.Element) : string :=
  match e with
  | etree.mkElement tag attrs children =>
      "<" +++ tag +++ writeAttrs attrs
      +++ match children with
          | [] => "/>"
          | _ =>
              ">"
              +++ (fix writeTokens (ts : list etree.Token) : string :=
                     match ts with
                     | [] => EmptyString
                     | etree.TElement x :: r => writeElement x +++ writeTokens r
                     | etree.TCharData d :: r => escape d +++ writeTokens r
                     | etree.TOther :: r => writeTokens r
                     end) children
              +++ "</" +++ tag +++ ">"
          end
  end.

Definition xmlWrite (d : etree.Element) : string :=
  fold_right
    (fun t rest =>
       match t with
       | etree.TElement x => writeElement x +++ rest
       | etree.TCharData data => escape data +++ rest
       | etree.TOther => rest
       end)
    EmptyString (etree.Child d).

(** The longest run of bytes for which [stop] is false, and the rest. *)
Fixpoint span (stop : ascii -> bool) (s : string) : string * string :=
  match s with
  | EmptyString => (EmptyString, EmptyString)
  | String c r =>
      if stop c then (EmptyString, s)
      else let (a, b) := span stop r in (String c a, b)
  end.

Definition endsName (c : ascii) : bool :=
  regex.isSpace c || Ascii.eqb c "/"%char || Ascii.eqb c gt || Ascii.eqb c "="%char.

Fixpoint readAttrs (fuel : nat) (s : string) : option (list etree.attribute * string) :=
  match fuel with
  | O => None
  | S f =>
      let s := regex.skipSpaces s in
      match s with
      | EmptyString => None
      | String c _ =>
          if Ascii.eqb c "/"%char || Ascii.eqb c gt then Some ([], s)
          else
            let (name, r) := span endsName s in
            match r with
            | String e (String q r') =>
                if Ascii.eqb e "="%char && Ascii.eqb q quot then
                  let (value, r'') := span (Ascii.eqb quot) r' in
                  match r'' with
                  | String _ r3 =>
                      match readAttrs f r3 with
                      | Some (attrs, rest) =>
                          Some (etree.mkAttr name (unescape value) :: attrs, rest)
                      | None => None
                      end
                  | EmptyString => None
                  end
                else None
            | _ => None
            end
      end
  end.

Fixpoint readTokens (fuel : nat) (s : string) : option (list etree.Token * string) :=
  match fuel with
  | O => None
  | S f =>
      match s with
      | EmptyString => Some ([], EmptyString)
      | String c r =>
          if strings.HasPrefix s "</" then Some ([], s)
          else if Ascii.eqb c lt then
            let (name, r1) := span endsName r in
            match readAttrs f r1 with
            | Some (attrs, r2) =>
                if strings.HasPrefix r2 "/>" then
                  match readTokens f (strings.drop 2 r2) with
                  | Some (ts, rest) =>
                      Some (etree.TElement (etree.mkElement name attrs []) :: ts, rest)
                  | None => None
                  end
                else if strings.HasPrefix r2 ">" then
                  match readTokens f (strings.drop 1 r2) with
                  | Some (children, r3) =>
                      let closing := "</" +++ name +++ ">" in
                      if strings.HasPrefix r3 closing then
                        match readTokens f (strings.drop (String.length closing) r3) with
                        | Some (ts, rest) =>
                            Some (etree.TElement (etree.mkElement name attrs children) :: ts,
                                  rest)
                        | None => None
                        end
                      else None
                  | None => None
                  end
                else None
            | None => None
            end
          else
            let (text, r1) := span (Ascii.eqb lt) s in
            match readTokens f r1 with
            | Some (ts, rest) => Some (etree.TCharData (unescape text) :: ts, rest)
            | None => None
            end
      end
  end.

Definition xmlRead (d : etree.Element) (text : string) : etree.Element * option error :=
  match readTokens (S (String.length text)) text with
  | Some (ts, EmptyString) =>
      (etree.mkElement (etree.Tag d) (etree.Attr d) (etree.Child d ++ ts), None)
  | _ => (d, Some (errorString "XML syntax error"))
  end.

Fixpoint spaces (n : nat) : string :=
  match n with O => EmptyString | S k => String " " (spaces k) end.

(** A line feed and the indentation of a depth; the depth is one
    more than the nesting, so that [0] is the line feed alone. *)
Definition lineBreak (n depth : nat) : etree.Token :=
  etree.TCharData (newline +++ spaces (n * (depth - 1))).

(** Every child that is not character data on a line of its own, one
    step deeper than its parent.  Character data stays where it is:
    only the white space that the reader or an earlier indentation has
    marked as such is stripped first, and the documents the program
    indents are made of tokens it has created. *)
Fixpoint indentElement (n depth : nat) (e : etree.Element) : etree.Element :=
  match e with
  | etree.mkElement tag attrs children =>
      etree.mkElement tag attrs
        ((fix indentTokens (ts : list etree.Token) (first last : bool) : list etree.Token :=
            match ts with
            | [] =>
                if last && (negb first || (0 <? depth)%nat) then [lineBreak n depth] else []
            | etree.TElement x :: r =>
                (if negb first || (0 <? depth)%nat then [lineBreak n (S depth)] else [])
                ++ etree.TElement (indentElement n (S depth) x) :: indentTokens r false true
            | etree.TCharData data :: r =>
                etree.TCharData data :: indentTokens r first false
            | etree.TOther :: r =>
                (if negb first || (0 <? depth)%nat then [lineBreak n (S depth)] else [])
                ++ etree.TOther :: indentTokens r false true
            end) children true false)
  end.

Definition indent (n : nat) (d : etree.Element) : etree.Element := indentElement n 0 d.

(** The insertion sort of Go's [slices] package, which [SortFunc]
    runs on a slice of at most twelve elements: each element in turn
    moves left past the elements it is less than.  The part sorted so
    far is kept reversed, its last element first. *)
Fixpoint insertBack {A : Type} (cmp : A -> A -> Z) (x : A) (sorted : list A) : list A :=
  match sorted with
  | [] => [x]
  | y :: r => if cmp x y <? 0 then y :: insertBack cmp x r else x :: sorted
  end.

Definition insertionSortCmpFunc (A : Type) (cmp : A -> A -> Z) (data : list A) : list A :=
  rev (fold_left (fun sorted x => insertBack cmp x sorted) data []).

Definition env : Env :=
  mkEnv xmlWrite xmlRead indent
    (fun _ => inl (errorString "pandoc conversion failed: sh: 1: pandoc: not found"))
    insertionSortCmpFunc
    (fun _ => None) (fun _ => None)
    (fun _ => inr [DirEntry.mk "html" true; DirEntry.mk "xml" true])
    (fun _ => None) None None.

(** A registry of two posts and a tag. *)
Definition keylock : Keylock.t :=
  Keylock.mk [Key.mk 1 "POST:a.txt"; Key.mk 2 "TAG:go"; Key.mk 3 "POST:b <&> c.txt"].

(** Two post files in the custom syntax, in walk order. *)
Definition postA : string :=
  "title: 'First'" +++ newline +++ "tags: ['go']" +++ newline +++ "Hello" +++ newline.

Definition postB : string :=
  "title: 'Second'" +++ newline +++ "tags: ['go', 'rocq']" +++ newline
  +++ "> https://example.org" +++ newline.

Definition walk : list WalkEntry.t :=
  [WalkEntry.mk None "input/posts" "posts" true (inl (errorString "is a directory"));
   WalkEntry.mk None "input/posts/a.txt" "a.txt" false (inr postA);
   WalkEntry.mk None "input/posts/b.txt" "b.txt" false (inr postB)].

(** What the loader makes of the walk on an empty registry. *)
Definition loaded : result Source.t * Taxonomy.t :=
  GetSource env walk (GetTaxonomy (Keylock.mk [])).

Definition source : Source.t :=
  match fst loaded with
  | Ok s => s
  | _ => Source.mk []
  end.

Definition taxonomy : Taxonomy.t := snd loaded.

(** A post whose body holds a [script] element and a comment between
    allowed elements and text. *)
Definition mixedPost : Post.t :=
  Post.mk "m.xml" "Mixed" 5
    (etree.mkElement "" []
       [etree.TElement
          (etree.mkElement "document" []
             [etree.TElement
                (etree.mkElement "meta" []
                   [etree.TElement
                      (etree.mkElement "title" [etree.mkAttr "value" "Mixed"] [])]);
              etree.TElement
                (etree.mkElement "body" []
                   [etree.TElement (etree.mkElement "bold" [] [etree.TCharData "one"]);
                    etree.TElement (etree.mkElement "script" [] [etree.TCharData "two"]);
                    etree.TCharData "three";
                    etree.TOther;
                    etree.TElement
                      (etree.mkElement "link" [etree.mkAttr "href" "/x"]
                         [etree.TCharData "four"])])])])
    [].

End Reference.

(** The number a string of lower-case hexadecimal digits stands for,
    and the id an address stands for. *)
Fixpoint hexValue (s : string) (n : Z) : option Z :=
  match s with
  | EmptyString => Some n
  | String c r =>
      match lowerHexValue c with
      | Some d => hexValue r (n * 16 + d)
      | None => None
      end
  end.

Definition addressId (address : string) : option Z :=
  match address with
  | String "0" (String "x" digits) =>
      match hexValue digits 0 with
      | Some u => Some u
      | None =>
          match digits with
          | String "-" r => option_map Z.opp (hexValue r 0)
          | _ => None
          end
      end
  | _ => None
  end.

(* ================================================================== *)
(** ** Inputs for the examples *)
(* ================================================================== *)

Module Samples.

(** A lock file whose second key has an id that is not a number. *)
Definition badLock : Files :=
  [(lockFilePath,
    Reference.xmlWrite
      (etree.mkElement "" []
         [etree.TElement
            (etree.mkElement "lock" []
               [etree.TElement
                  (etree.mkElement "key"
                     [etree.mkAttr "id" "1"; etree.mkAttr "value" "POST:a"] []);
                etree.TElement
                  (etree.mkElement "key"
                     [etree.mkAttr "id" "x7"; etree.mkAttr "value" "POST:b"] [])])]))].



(** Three posts with the ids 3, 1 and 2 in that order, and a tag. *)
Definition homeSource : Source.t :=
  Source.mk [Post.mk "c" "C" 3 etree.NewDocument [];
             Post.mk "a" "A" 1 etree.NewDocument [];
             Post.mk "b" "B" 2 etree.NewDocument []].

Definition homeTaxonomy : Taxonomy.t :=
  Taxonomy.mk (Keylock.mk []) [Tag.mk "go" 4 [1]].

(** A [link] element as it is read from a page. *)
Definition link (href text : string) : etree.Element :=
  etree.mkElement "link" [etree.mkAttr "href" href] [etree.TCharData text].

End Samples.

(* ================================================================== *)
(** * Properties *)
(* ================================================================== *)

(** ** The registry *)

Lemma findKey_app (keys : list Key.t) (key : Key.t) (value : string) :
  findKey (keys ++ [key]) value =
  match findKey keys value with
  | Some id => Some id
  | None => if String.eqb (Key.Value key) value then Some (Key.ID key) else None
  end.
Proof.
  induction keys as [|k keys IH]; simpl.
  - reflexivity.
  - destruct (String.eqb (Key.Value k) value); [reflexivity | exact IH].
Qed.

Lemma AssureKey_known (keylock : Keylock.t) (value : string) (id : Z) :
  findKey (Keylock.Keys keylock) value = Some id ->
  AssureKey keylock value = (id, keylock).
Proof.
  intros H. unfold AssureKey. rewrite H. reflexivity.
Qed.

Lemma AssureKey_finds (keylock : Keylock.t) (value : string) :
  findKey (Keylock.Keys (snd (AssureKey keylock value))) value
  = Some (fst (AssureKey keylock value)).
Proof.
  unfold AssureKey.
  destruct (findKey (Keylock.Keys keylock) value) as [id|] eqn:E; simpl.
  - exact E.
  - rewrite findKey_app, E. simpl. rewrite String.eqb_refl. reflexivity.
Qed.

(** C1.  Calling [AssureKey] with the same key twice, on any registry,
    returns the same id both times, and the second call leaves the
    registry as the first call left it: same entries, same order. *)
Theorem AssureKey_idempotent (keylock : Keylock.t) (k : string) :
  let first := AssureKey keylock k in
  let second := AssureKey (snd first) k in
  fst second = fst first
  /\ Keylock.Keys (snd second) = Keylock.Keys (snd first)
  /\ List.length (Keylock.Keys (snd second)) = List.length (Keylock.Keys (snd first)).
Proof.
  cbv zeta.
  rewrite (AssureKey_known _ _ _ (AssureKey_finds keylock k)).
  simpl. repeat split.
Qed.

Lemma present_In (keylock : Keylock.t) (value : string) :
  present keylock value = true <-> In value (map Key.Value (Keylock.Keys keylock)).
Proof.
  unfold present. rewrite existsb_exists. split.
  - intros [x [Hin Heq]]. apply String.eqb_eq in Heq. subst. exact Hin.
  - intros Hin. exists value. split; [exact Hin | apply String.eqb_refl].
Qed.

Lemma findKey_Some_In (keys : list Key.t) (value : string) (id : Z) :
  findKey keys value = Some id -> In value (map Key.Value keys).
Proof.
  induction keys as [|key r IH]; simpl; [discriminate|].
  destruct (String.eqb_spec (Key.Value key) value) as [Heq|_].
  - intros _. left. exact Heq.
  - intros H. right. exact (IH H).
Qed.

Lemma findKey_None_notin (keys : list Key.t) (value : string) :
  findKey keys value = None -> ~ In value (map Key.Value keys).
Proof.
  induction keys as [|key r IH]; simpl; [tauto|].
  destruct (String.eqb_spec (Key.Value key) value) as [Heq|Hne]; [discriminate|].
  intros H [Hin|Hin]; [exact (Hne Hin) | exact (IH H Hin)].
Qed.

Lemma assureEach_cons (keylock : Keylock.t) (value : string) (r : list string) :
  snd (assureEach keylock (value :: r))
  = snd (assureEach (snd (AssureKey keylock value)) r).
Proof.
  simpl. destruct (AssureKey keylock value) as [id keylock'].
  simpl. destruct (assureEach keylock' r) as [ids keylock'']. reflexivity.
Qed.

(** A run of calls on a registry without a repeated value: the ids of
    the first-time calls go on from the number of entries, one entry is
    added for each, and the values of the registry afterwards are those
    it had and those of the calls, none twice. *)
Lemma firstTimeIds_run (values : list string) :
  forall keylock,
    NoDup (map Key.Value (Keylock.Keys keylock)) ->
    firstTimeIds keylock values
    = map Z.of_nat (seq (S (List.length (Keylock.Keys keylock)))
                      (List.length (firstTimeIds keylock values)))
    /\ List.length (Keylock.Keys (snd (assureEach keylock values)))
       = (List.length (Keylock.Keys keylock)
          + List.length (firstTimeIds keylock values))%nat
    /\ NoDup (map Key.Value (Keylock.Keys (snd (assureEach keylock values))))
    /\ (forall v,
          In v (map Key.Value (Keylock.Keys (snd (assureEach keylock values))))
          <-> In v (map Key.Value (Keylock.Keys keylock)) \/ In v values).
Proof.
  induction values as [|value r IH]; intros keylock Hnd.
  - simpl. split; [reflexivity|]. split; [lia|]. split; [exact Hnd | tauto].
  - rewrite assureEach_cons.
    change (firstTimeIds keylock (value :: r))
      with (let (id, keylock') := AssureKey keylock value in
            if present keylock value then firstTimeIds keylock' r
            else id :: firstTimeIds keylock' r).
    unfold AssureKey.
    destruct (findKey (Keylock.Keys keylock) value) as [id|] eqn:E.
    + assert (Hp : present keylock value = true)
        by (apply present_In; exact (findKey_Some_In _ _ _ E)).
      rewrite Hp. cbv beta iota. simpl snd.
      destruct (IH keylock Hnd) as [Hids [Hlen [Hnd' Hin]]].
      split; [exact Hids|]. split; [exact Hlen|]. split; [exact Hnd'|].
      intros v. rewrite Hin. simpl. split; [tauto|].
      intros [H|[H|H]]; [tauto | subst v; left; apply present_In; exact Hp | tauto].
    + assert (Hnot : ~ In value (map Key.Value (Keylock.Keys keylock)))
        by exact (findKey_None_notin _ _ E).
      assert (Hp : present keylock value = false).
      { destruct (present keylock value) eqn:P; [|reflexivity].
        exfalso. apply Hnot. apply present_In. exact P. }
      rewrite Hp. cbv beta iota. simpl snd.
      set (keylock' :=
             Keylock.mk (Keylock.Keys keylock
                         ++ [Key.mk (Z.of_nat (List.length (Keylock.Keys keylock)) + 1) value])).
      assert (Hnd1 : NoDup (map Key.Value (Keylock.Keys keylock'))).
      { unfold keylock'. simpl. rewrite map_app. simpl.
        apply (Permutation_NoDup
                 (l := value :: map Key.Value (Keylock.Keys keylock)));
          [apply Permutation_cons_append | constructor; assumption]. }
      destruct (IH keylock' Hnd1) as [Hids [Hlen [Hnd' Hin]]].
      assert (Hl : List.length (Keylock.Keys keylock')
                   = S (List.length (Keylock.Keys keylock)))
        by (unfold keylock'; simpl; rewrite length_app; simpl; lia).
      rewrite Hl in Hids, Hlen.
      split; [|split; [|split]].
      * simpl List.length. simpl seq. simpl map. f_equal; [lia | exact Hids].
      * simpl List.length. lia.
      * exact Hnd'.
      * intros v. rewrite Hin. unfold keylock'. simpl. rewrite map_app, in_app_iff.
        simpl. tauto.
Qed.

Lemma oneTo_NoDup (n : nat) : NoDup (oneTo n).
Proof.
  unfold oneTo. apply Finite.Injective_map_NoDup.
  - intros a b. apply Nat2Z.inj.
  - apply seq_NoDup.
Qed.

(** C2.  On an empty registry, whatever the calls, the ids returned by
    the first-time calls (those made with a key that no entry of the
    registry holds at the time) are 1, 2, 3, ... in call order, one for
    each distinct key: the first is 1, each later one is one more than
    the one before, and no two are equal. *)
Theorem AssureKey_mints_successive (values : list string) :
  let minted := firstTimeIds (Keylock.mk []) values in
  minted = oneTo (List.length (nodup string_dec values))
  /\ NoDup minted
  /\ (forall i, (S i < List.length minted)%nat ->
        nth (S i) minted 0 = nth i minted 0 + 1)
  /\ (minted <> [] -> nth 0 minted 0 = 1).
Proof.
  cbv zeta.
  destruct (firstTimeIds_run values (Keylock.mk []) (NoDup_nil _))
    as [Hm [Hlen [Hnd Hin]]].
  simpl in Hm, Hlen, Hin.
  fold (oneTo (List.length (firstTimeIds (Keylock.mk []) values))) in Hm.
  assert (Hcount : List.length (firstTimeIds (Keylock.mk []) values)
                   = List.length (nodup string_dec values)).
  { rewrite <- Hlen.
    rewrite <- (length_map Key.Value).
    apply Permutation_length. apply NoDup_Permutation.
    - exact Hnd.
    - apply NoDup_nodup.
    - intros v. rewrite Hin, nodup_In. tauto. }
  set (m := firstTimeIds (Keylock.mk []) values) in *.
  assert (Hnth : forall i, (i < List.length m)%nat -> nth i m 0 = Z.of_nat (S i)).
  { intros i Hi. rewrite Hm. unfold oneTo.
    change 0 with (Z.of_nat 0). rewrite map_nth.
    rewrite seq_nth by exact Hi. reflexivity. }
  split; [rewrite <- Hcount; exact Hm|].
  split; [rewrite Hm; apply oneTo_NoDup|]. split.
  - intros i Hi. rewrite (Hnth (S i)) by lia. rewrite (Hnth i) by lia. lia.
  - intros Hne. rewrite (Hnth 0%nat).
    + reflexivity.
    + destruct m; [congruence | simpl; lia].
Qed.

(** ** The taxonomy *)

Lemma mentioned_In (mentions : list Z) (document : Z) :
  mentioned mentions document = true <-> In document mentions.
Proof.
  unfold mentioned. rewrite existsb_exists. split.
  - intros [x [Hin Heq]]. apply Z.eqb_eq in Heq. subst. exact Hin.
  - intros Hin. exists document. split; [exact Hin | apply Z.eqb_refl].
Qed.

Lemma NoDup_snoc (mentions : list Z) (document : Z) :
  NoDup mentions -> mentioned mentions document = false ->
  NoDup (mentions ++ [document]).
Proof.
  intros Hnd Hm.
  apply NoDup_rev in Hnd.
  rewrite <- (rev_involutive (mentions ++ [document])).
  apply NoDup_rev. rewrite rev_app_distr. simpl.
  constructor; [|exact Hnd].
  rewrite <- in_rev. intros Hin.
  apply mentioned_In in Hin. congruence.
Qed.

Lemma assureKnownLabel_distinct (tags : list Tag.t) (label : string) (document : Z) :
  forall key tags',
    assureKnownLabel tags label document = Some (key, tags') ->
    mentionsDistinct tags -> mentionsDistinct tags'.
Proof.
  induction tags as [|tag r IH]; intros key tags' H Hd; simpl in H.
  - discriminate.
  - inversion Hd as [|? ? Hnd Hr]; subst.
    destruct (String.eqb (Tag.Label tag) label).
    + destruct (mentioned (Tag.Mentions tag) document) eqn:Em;
        inversion H; subst.
      * exact Hd.
      * constructor; [|exact Hr]. simpl. apply NoDup_snoc; assumption.
    + destruct (assureKnownLabel r label document) as [[k r']|] eqn:E; [|discriminate].
      inversion H; subst. constructor; [exact Hnd|]. eapply IH; eauto.
Qed.

Lemma AssureLabelFromDocument_distinct (taxonomy : Taxonomy.t) (label : string) (document : Z) :
  mentionsDistinct (Taxonomy.Tags taxonomy) ->
  mentionsDistinct (Taxonomy.Tags (snd (AssureLabelFromDocument taxonomy label document))).
Proof.
  intros Hd. unfold AssureLabelFromDocument.
  destruct (assureKnownLabel (Taxonomy.Tags taxonomy) label document) as [[k tags']|] eqn:E.
  - simpl. eapply assureKnownLabel_distinct; eauto.
  - destruct (AssureKey (Taxonomy.Keylock taxonomy) ("TAG:" +++ label)) as [key kl].
    simpl. apply Forall_app. split; [exact Hd|].
    constructor; [|constructor]. simpl.
    constructor; [intros []|constructor].
Qed.

Lemma runCalls_distinct (calls : list call) :
  forall taxonomy,
    mentionsDistinct (Taxonomy.Tags taxonomy) ->
    mentionsDistinct (Taxonomy.Tags (runCalls taxonomy calls)).
Proof.
  unfold runCalls.
  induction calls as [|c r IH]; intros taxonomy Hd; simpl.
  - exact Hd.
  - apply IH. destruct c as [value|label document]; simpl.
    + exact Hd.
    + apply AssureLabelFromDocument_distinct. exact Hd.
Qed.

Lemma mentionsOf_distinct (tags : list Tag.t) (label : string) :
  mentionsDistinct tags -> NoDup (mentionsOf tags label).
Proof.
  induction 1 as [|tag r Hnd Hr IH]; simpl.
  - constructor.
  - destruct (String.eqb (Tag.Label tag) label); assumption.
Qed.

(** A call that finds the label leaves tags on which the same call
    finds the label, changes nothing and sees the mention. *)
Lemma assureKnownLabel_again (tags : list Tag.t) (label : string) (document : Z) :
  forall key tags',
    assureKnownLabel tags label document = Some (key, tags') ->
    assureKnownLabel tags' label document = Some (key, tags')
    /\ In document (mentionsOf tags' label).
Proof.
  induction tags as [|tag r IH]; intros key tags' H; simpl in H.
  - discriminate.
  - destruct (String.eqb (Tag.Label tag) label) eqn:El.
    + destruct (mentioned (Tag.Mentions tag) document) eqn:Em;
        inversion H; subst; simpl; rewrite El.
      * rewrite Em. split; [reflexivity | apply mentioned_In; exact Em].
      * assert (Hin : In document (Tag.Mentions tag ++ [document]))
          by (apply in_or_app; right; left; reflexivity).
        apply mentioned_In in Hin as Hm. rewrite Hm. split; [reflexivity | exact Hin].
    + destruct (assureKnownLabel r label document) as [[k r']|] eqn:E; [|discriminate].
      inversion H; subst. destruct (IH _ _ eq_refl) as [IH1 IH2].
      simpl. rewrite El, IH1. split; [reflexivity | exact IH2].
Qed.

(** A call that does not find the label appends a tag on which the
    same call finds the label, changes nothing and sees the mention. *)
Lemma assureKnownLabel_new (tags : list Tag.t) (label : string) (document key : Z) :
  assureKnownLabel tags label document = None ->
  let tags' := tags ++ [Tag.mk label key [document]] in
  assureKnownLabel tags' label document = Some (key, tags')
  /\ mentionsOf tags' label = [document].
Proof.
  induction tags as [|tag r IH]; intros H; simpl in *.
  - rewrite String.eqb_refl. unfold mentioned. simpl. rewrite Z.eqb_refl.
    split; reflexivity.
  - destruct (String.eqb (Tag.Label tag) label) eqn:El.
    + destruct (mentioned (Tag.Mentions tag) document); discriminate.
    + destruct (assureKnownLabel r label document) as [[k r']|] eqn:E; [discriminate|].
      destruct (IH eq_refl) as [IH1 IH2]. rewrite IH1. split; [reflexivity | exact IH2].
Qed.

(** C4.  On a taxonomy reached from [GetTaxonomy] by any calls, calling
    [AssureLabelFromDocument] twice with the same label and post id
    returns the same tag id both times, the second call changes
    nothing, and the mentions of the tag hold the post id once. *)
Theorem AssureLabelFromDocument_idempotent
    (keylock : Keylock.t) (calls : list call) (label : string) (postId : Z) :
  let taxonomy := runCalls (GetTaxonomy keylock) calls in
  let first := AssureLabelFromDocument taxonomy label postId in
  let second := AssureLabelFromDocument (snd first) label postId in
  fst second = fst first
  /\ snd second = snd first
  /\ count_occ Z.eq_dec (mentionsOf (Taxonomy.Tags (snd second)) label) postId = 1%nat.
Proof.
  cbv zeta.
  set (taxonomy := runCalls (GetTaxonomy keylock) calls).
  assert (Hd : mentionsDistinct (Taxonomy.Tags taxonomy)).
  { apply runCalls_distinct. constructor. }
  pose proof (AssureLabelFromDocument_distinct taxonomy label postId Hd) as Hd1.
  assert (Hagain :
    let first := AssureLabelFromDocument taxonomy label postId in
    assureKnownLabel (Taxonomy.Tags (snd first)) label postId
    = Some (fst first, Taxonomy.Tags (snd first))
    /\ In postId (mentionsOf (Taxonomy.Tags (snd first)) label)).
  { cbv zeta. unfold AssureLabelFromDocument.
    destruct (assureKnownLabel (Taxonomy.Tags taxonomy) label postId) as [[k tags']|] eqn:E.
    - simpl. exact (assureKnownLabel_again _ _ _ _ _ E).
    - destruct (AssureKey (Taxonomy.Keylock taxonomy) ("TAG:" +++ label)) as [key kl].
      simpl. destruct (assureKnownLabel_new _ _ _ key E) as [H1 H2].
      split; [exact H1 | rewrite H2; left; reflexivity]. }
  cbv zeta in Hagain. destruct Hagain as [Hfind Hin].
  destruct (AssureLabelFromDocument taxonomy label postId) as [key1 tx1] eqn:E1.
  simpl in *.
  unfold AssureLabelFromDocument at 1 2 3. rewrite Hfind. simpl.
  destruct tx1 as [kl1 tags1]. simpl in *.
  repeat split.
  apply NoDup_count_occ'; [apply mentionsOf_distinct; exact Hd1 | exact Hin].
Qed.

(** ** Addresses *)

Lemma lowerHexValue_digit (d : Z) :
  0 <= d < 16 -> lowerHexValue (strconv.digit d) = Some d.
Proof.
  intros H.
  assert (Hc : d = 0 \/ d = 1 \/ d = 2 \/ d = 3 \/ d = 4 \/ d = 5 \/ d = 6 \/ d = 7
               \/ d = 8 \/ d = 9 \/ d = 10 \/ d = 11 \/ d = 12 \/ d = 13 \/ d = 14
               \/ d = 15) by lia.
  repeat (destruct Hc as [Hc|Hc]; [subst d; reflexivity|]).
  subst d; reflexivity.
Qed.

(** The digits of a value below 16^4, padded to four. *)
Lemma fmtInteger_x_four (u : Z) :
  0 <= u < 65536 ->
  fmt.fmtInteger_x 4 u
  = String (strconv.digit (u / 4096))
      (String (strconv.digit (u / 256 mod 16))
         (String (strconv.digit (u / 16 mod 16))
            (String (strconv.digit (u mod 16)) EmptyString))).
Proof.
  intros H. unfold fmt.fmtInteger_x.
  assert (Hneg : (u <? 0) = false) by (apply Z.ltb_ge; lia).
  rewrite Hneg, Z.abs_eq by lia.
  unfold strconv.formatBits.
  assert (Hstep : forall f v acc,
             16 <= v -> strconv.digitsOf (S f) 16 v acc
                        = strconv.digitsOf f 16 (v / 16) (String (strconv.digit (v mod 16)) acc)).
  { intros f v acc Hv. simpl. destruct (Z.ltb_spec v 16); [lia | reflexivity]. }
  assert (Hstop : forall f v acc,
             v < 16 -> strconv.digitsOf (S f) 16 v acc = String (strconv.digit v) acc).
  { intros f v acc Hv. simpl. destruct (Z.ltb_spec v 16); [reflexivity | lia]. }
  assert (H16 : u / 16 / 16 = u / 256) by (rewrite Z.div_div by lia; reflexivity).
  assert (H4096 : u / 256 / 16 = u / 4096) by (rewrite Z.div_div by lia; reflexivity).
  destruct (Z_lt_ge_dec u 16) as [H1|H1].
  { rewrite Hstop by lia. simpl.
    rewrite (Z.div_small u 4096), (Z.div_small u 256), (Z.div_small u 16) by lia.
    rewrite (Z.mod_small u 16) by lia. reflexivity. }
  rewrite Hstep by lia.
  destruct (Z_lt_ge_dec u 256) as [H2|H2].
  { rewrite Hstop by (apply Z.div_lt_upper_bound; lia). simpl.
    rewrite (Z.div_small u 4096), (Z.div_small u 256) by lia.
    rewrite (Z.mod_small (u / 16) 16)
      by (split; [apply Z.div_pos; lia | apply Z.div_lt_upper_bound; lia]).
    reflexivity. }
  rewrite Hstep by (apply Z.div_le_lower_bound; lia). rewrite H16.
  destruct (Z_lt_ge_dec u 4096) as [H3|H3].
  { rewrite Hstop by (apply Z.div_lt_upper_bound; lia). simpl.
    rewrite (Z.div_small u 4096) by lia.
    rewrite (Z.mod_small (u / 256) 16)
      by (split; [apply Z.div_pos; lia | apply Z.div_lt_upper_bound; lia]).
    reflexivity. }
  rewrite Hstep by (apply Z.div_le_lower_bound; lia). rewrite H4096.
  rewrite Hstop by (apply Z.div_lt_upper_bound; lia). simpl.
  reflexivity.
Qed.

(** C5.  An id from 1 to 65535 renders as [0x] and four lower-case
    hexadecimal digits, the digits of the id padded with zeros; so 1 is
    [0x0001], 255 is [0x00ff] and 65535 is [0xffff]. *)
Theorem KeyIDToHex_address (id : Z) :
  1 <= id <= 65535 ->
  (exists a b c d : ascii,
      KeyIDToHex id = String "0" (String "x" (String a (String b (String c (String d EmptyString)))))
      /\ lowerHexValue a = Some (id / 4096)
      /\ lowerHexValue b = Some (id / 256 mod 16)
      /\ lowerHexValue c = Some (id / 16 mod 16)
      /\ lowerHexValue d = Some (id mod 16))
  /\ KeyIDToHex 1 = "0x0001"
  /\ KeyIDToHex 255 = "0x00ff"
  /\ KeyIDToHex 65535 = "0xffff".
Proof.
  intros H. split; [|repeat split].
  exists (strconv.digit (id / 4096)), (strconv.digit (id / 256 mod 16)),
    (strconv.digit (id / 16 mod 16)), (strconv.digit (id mod 16)).
  split.
  - unfold KeyIDToHex. rewrite fmtInteger_x_four by lia. reflexivity.
  - repeat split; apply lowerHexValue_digit.
    + split; [apply Z.div_pos; lia | apply Z.div_lt_upper_bound; lia].
    + apply Z.mod_pos_bound; lia.
    + apply Z.mod_pos_bound; lia.
    + apply Z.mod_pos_bound; lia.
Qed.

Lemma KeyIDToHex_address_witness :
  1 <= 255 <= 65535
  /\ (exists a b c d : ascii,
         KeyIDToHex 255
         = String "0" (String "x" (String a (String b (String c (String d EmptyString)))))
         /\ lowerHexValue a = Some (255 / 4096)
         /\ lowerHexValue b = Some (255 / 256 mod 16)
         /\ lowerHexValue c = Some (255 / 16 mod 16)
         /\ lowerHexValue d = Some (255 mod 16)).
Proof.
  split; [lia|]. apply (KeyIDToHex_address 255). lia.
Defined.

(** ** Numbers as text *)






(** ** The registry on disk *)













Lemma readFile_written (fs : Files) (path content : string) :
  readFile (fs ++ [(path, content)]) path = Some content.
Proof.
  induction fs as [|[p c] r IH]; simpl.
  - rewrite String.eqb_refl. reflexivity.
  - rewrite IH. reflexivity.
Qed.



(** ** Sorting *)

Lemma cmp_Compare_sign (x y : Z) :
  (- cmp_Compare x y <= 0 <-> y <= x) /\ (0 <= - cmp_Compare x y <-> x <= y).
Proof.
  unfold cmp_Compare.
  destruct (Z.ltb_spec x y); destruct (Z.ltb_spec y x); lia.
Qed.

Lemma descending_weakOrder {A : Type} (key : A -> Z) :
  weakOrder (fun a b => - cmp_Compare (key a) (key b)).
Proof.
  split.
  - intros a b H.
    pose proof (cmp_Compare_sign (key a) (key b)).
    pose proof (cmp_Compare_sign (key b) (key a)). lia.
  - intros a b c H1 H2.
    pose proof (cmp_Compare_sign (key a) (key b)).
    pose proof (cmp_Compare_sign (key b) (key c)).
    pose proof (cmp_Compare_sign (key a) (key c)). lia.
Qed.

Lemma sorted_descending {A : Type} (key : A -> Z) (x : list A) :
  StronglySorted (fun a b => - cmp_Compare (key a) (key b) <= 0) x ->
  descendingBy key x.
Proof.
  unfold descendingBy. induction 1 as [|a r Hs IH Hall]; constructor.
  - exact IH.
  - eapply Forall_impl; [|exact Hall]. intros b Hb. cbv beta in Hb.
    pose proof (cmp_Compare_sign (key a) (key b)). lia.
Qed.

Lemma SortFunc_descending (sort : forall A : Type, (A -> A -> Z) -> list A -> list A)
    {A : Type} (key : A -> Z) (x : list A) :
  sortsSlices sort ->
  Permutation x (sort A (fun a b => - cmp_Compare (key a) (key b)) x)
  /\ descendingBy key (sort A (fun a b => - cmp_Compare (key a) (key b)) x).
Proof.
  intros Hsort.
  destruct (Hsort A (fun a b => - cmp_Compare (key a) (key b)) x) as [Hp Hs].
  split; [exact Hp|]. apply sorted_descending. apply Hs. apply descending_weakOrder.
Qed.

Lemma descendingBy_map {A : Type} (key : A -> Z) (x : list A) :
  descendingBy key x -> StronglySorted Z.ge (map key x).
Proof.
  unfold descendingBy. induction 1 as [|a r Hs IH Hall]; simpl; constructor.
  - exact IH.
  - apply Forall_map. eapply Forall_impl; [|exact Hall]. intros b Hb.
    cbv beta in *. lia.
Qed.

(** Two descending lists with the same elements are the same list. *)
Lemma descending_unique (x : list Z) :
  forall y,
    StronglySorted Z.ge x -> StronglySorted Z.ge y -> Permutation x y -> x = y.
Proof.
  induction x as [|a r IH]; intros y Hx Hy Hp.
  - apply Permutation_nil in Hp. subst. reflexivity.
  - destruct y as [|b s]; [apply Permutation_sym, Permutation_nil in Hp; discriminate|].
    apply StronglySorted_inv in Hx as [Hxr Hxa].
    apply StronglySorted_inv in Hy as [Hys Hyb].
    assert (Hab : a = b).
    { assert (Hb : In b (a :: r))
        by (eapply Permutation_in; [apply Permutation_sym; exact Hp | left; reflexivity]).
      assert (Ha : In a (b :: s)) by (eapply Permutation_in; [exact Hp | left; reflexivity]).
      rewrite Forall_forall in Hxa, Hyb.
      destruct Hb as [Hb|Hb]; [congruence|].
      destruct Ha as [Ha|Ha]; [congruence|].
      specialize (Hxa _ Hb). specialize (Hyb _ Ha). lia. }
    subst b. f_equal. apply IH; try assumption.
    eapply Permutation_cons_inv; exact Hp.
Qed.

(** ** The home page *)

(** C6.  Whatever sort the environment has, the page that
    [buildHomeCatalog] writes has a [body], and the children of the body
    are: a [link] element per post, the posts in descending order of id,
    its [href] the address of the post between slashes and its text the
    address, [ - ] and the title; then one [text] element with empty
    text; then a [link] element per tag, the tags in descending order of
    id, made the same way from the address and the label.  The posts
    and tags linked are those of the source and of the taxonomy.  When
    the ids of the posts are 3, 1 and 2 in any order, the links come in
    the order 3, 2, 1. *)
Theorem buildHomeCatalog_body
    (env : Env) (source : Source.t) (taxonomy : Taxonomy.t) (outputPath : string) (fs : Files) :
  sortsSlices (SortFunc env) ->
  WriteFile env (filepath_Join outputPath "index.xml") = None ->
  exists posts tags page body,
    Permutation (Source.Posts source) posts /\ descendingBy Post.Key posts
    /\ Permutation (Taxonomy.Tags taxonomy) tags /\ descendingBy Tag.Key tags
    /\ outcomeOf (buildHomeCatalog env source taxonomy outputPath fs) = Ok tt
    /\ filesOf (buildHomeCatalog env source taxonomy outputPath fs)
       = fs ++ [(filepath_Join outputPath "index.xml", WriteTo env (Indent env 4 page))]
    /\ bodyOfPage page = Some body
    /\ etree.Child body
       = map (fun post =>
                etree.TElement
                  (etree.mkElement "link"
                     [etree.mkAttr "href" ("/" +++ KeyIDToHex (Post.Key post) +++ "/")]
                     [etree.TCharData
                        (KeyIDToHex (Post.Key post) +++ " - " +++ Post.Title post)]))
           posts
         ++ [etree.TElement (etree.mkElement "text" [] [etree.TCharData ""])]
         ++ map (fun tag =>
                   etree.TElement
                     (etree.mkElement "link"
                        [etree.mkAttr "href" ("/" +++ KeyIDToHex (Tag.Key tag) +++ "/")]
                        [etree.TCharData
                           (KeyIDToHex (Tag.Key tag) +++ " - " +++ Tag.Label tag)]))
             tags
    /\ (Permutation (map Post.Key (Source.Posts source)) [3; 1; 2] ->
        map Post.Key posts = [3; 2; 1]).
Proof.
  intros Hsort Hwrite.
  destruct (SortFunc_descending (SortFunc env) Post.Key (Source.Posts source) Hsort)
    as [Hpp Hps].
  destruct (SortFunc_descending (SortFunc env) Tag.Key (Taxonomy.Tags taxonomy) Hsort)
    as [Htp Hts].
  exists (SortFunc env Post.t byPostKeyDesc (Source.Posts source)),
    (SortFunc env Tag.t byTagKeyDesc (Taxonomy.Tags taxonomy)),
    (pageOf (titleMeta homeTitle)
       (homeBody (SortFunc env Post.t byPostKeyDesc (Source.Posts source))
          (SortFunc env Tag.t byTagKeyDesc (Taxonomy.Tags taxonomy)))),
    (etree.mkElement "body" []
       (homeBody (SortFunc env Post.t byPostKeyDesc (Source.Posts source))
          (SortFunc env Tag.t byTagKeyDesc (Taxonomy.Tags taxonomy)))).
  split; [exact Hpp|]. split; [exact Hps|]. split; [exact Htp|]. split; [exact Hts|].
  split; [unfold buildHomeCatalog, WriteToFile; rewrite Hwrite; reflexivity|].
  split; [unfold buildHomeCatalog, WriteToFile; rewrite Hwrite; reflexivity|].
  split; [reflexivity|]. split; [reflexivity|].
  intros H312. apply descending_unique.
  - apply descendingBy_map. exact Hps.
  - repeat constructor; lia.
  - apply perm_trans with (map Post.Key (Source.Posts source)).
    + apply Permutation_sym. apply Permutation_map. exact Hpp.
    + apply perm_trans with [3; 1; 2]; [exact H312|].
      apply perm_skip. apply perm_swap.
Qed.

(** ** The reference environment *)

Lemma insertBack_perm {A : Type} (cmp : A -> A -> Z) (x : A) (sorted : list A) :
  Permutation (x :: sorted) (Reference.insertBack cmp x sorted).
Proof.
  induction sorted as [|y r IH]; simpl.
  - apply Permutation_refl.
  - destruct (cmp x y <? 0).
    + apply perm_trans with (y :: x :: r); [apply perm_swap | apply perm_skip; exact IH].
    + apply Permutation_refl.
Qed.

Lemma insertBack_sorted {A : Type} (cmp : A -> A -> Z) (x : A) (sorted : list A) :
  weakOrder cmp ->
  StronglySorted (fun a b => cmp b a <= 0) sorted ->
  StronglySorted (fun a b => cmp b a <= 0) (Reference.insertBack cmp x sorted).
Proof.
  intros [Hanti Htrans]. induction 1 as [|y r Hs IH Hall]; simpl.
  - repeat constructor.
  - destruct (Z.ltb_spec (cmp x y) 0) as [Hlt|Hge].
    + constructor; [exact IH|].
      apply (Permutation_Forall (insertBack_perm cmp x r)).
      constructor; [lia | exact Hall].
    + constructor; [constructor; assumption|].
      constructor; [apply Hanti; exact Hge|].
      eapply Forall_impl; [|exact Hall]. intros z Hz. cbv beta in *.
      apply Htrans with y; [exact Hz | apply Hanti; exact Hge].
Qed.

Lemma StronglySorted_snoc {A : Type} (R : A -> A -> Prop) (l : list A) (x : A) :
  StronglySorted R l -> Forall (fun a => R a x) l -> StronglySorted R (l ++ [x]).
Proof.
  induction 1 as [|a r Hs IH Hall]; intros Hx; simpl.
  - repeat constructor.
  - inversion Hx; subst. constructor.
    + apply IH. assumption.
    + apply Forall_app. split; [exact Hall | repeat constructor; assumption].
Qed.

Lemma StronglySorted_rev {A : Type} (R : A -> A -> Prop) (l : list A) :
  StronglySorted (fun a b => R b a) l -> StronglySorted R (rev l).
Proof.
  induction 1 as [|a r Hs IH Hall]; simpl.
  - constructor.
  - apply StronglySorted_snoc; [exact IH|].
    apply Forall_rev. exact Hall.
Qed.

(** The insertion sort does what Go documents of [SortFunc]. *)
Lemma insertionSort_sortsSlices : sortsSlices Reference.insertionSortCmpFunc.
Proof.
  intros A cmp x. unfold Reference.insertionSortCmpFunc.
  assert (H : forall data sorted,
             Permutation (rev sorted ++ data)
               (rev (fold_left (fun s y => Reference.insertBack cmp y s) data sorted))
             /\ (weakOrder cmp ->
                 StronglySorted (fun a b => cmp b a <= 0) sorted ->
                 StronglySorted (fun a b => cmp b a <= 0)
                   (fold_left (fun s y => Reference.insertBack cmp y s) data sorted))).
  { induction data as [|y r IH]; intros sorted; simpl.
    - rewrite app_nil_r. split; [apply Permutation_refl | intros _ Hs; exact Hs].
    - destruct (IH (Reference.insertBack cmp y sorted)) as [Hp Hs]. split.
      + eapply perm_trans; [|exact Hp].
        apply perm_trans with ((rev sorted ++ [y]) ++ r);
          [rewrite <- app_assoc; apply Permutation_refl|].
        apply Permutation_app_tail.
        change (rev sorted ++ [y]) with (rev (y :: sorted)).
        apply perm_trans with (y :: sorted); [apply Permutation_sym, Permutation_rev|].
        apply perm_trans with (Reference.insertBack cmp y sorted);
          [apply insertBack_perm | apply Permutation_rev].
      + intros Hw Hsorted. apply Hs; [exact Hw|]. apply insertBack_sorted; assumption. }
  destruct (H x []) as [Hp Hs]. split.
  - exact Hp.
  - intros Hw. apply StronglySorted_rev. apply Hs; [exact Hw | constructor].
Qed.



Lemma buildHomeCatalog_body_witness :
  sortsSlices (SortFunc Reference.env)
  /\ WriteFile Reference.env (filepath_Join xmlOutputPath "index.xml") = None
  /\ (exists posts,
        Permutation (Source.Posts Samples.homeSource) posts
        /\ map Post.Key posts = [3; 2; 1])
  /\ exists text page body,
       readFile
         (filesOf (buildHomeCatalog Reference.env Samples.homeSource Samples.homeTaxonomy
                     xmlOutputPath []))
         "output/xml/index.xml" = Some text
       /\ ReadFrom Reference.env etree.NewDocument text = (page, None)
       /\ bodyOfPage page = Some body
       /\ childElements body
          = [Samples.link "/0x0003/" "0x0003 - C";
             Samples.link "/0x0002/" "0x0002 - B";
             Samples.link "/0x0001/" "0x0001 - A";
             etree.mkElement "text" [] [];
             Samples.link "/0x0004/" "0x0004 - go"].
Proof.
  split; [exact insertionSort_sortsSlices|]. split; [reflexivity|].
  destruct (buildHomeCatalog_body Reference.env Samples.homeSource Samples.homeTaxonomy
              xmlOutputPath [] insertionSort_sortsSlices eq_refl)
    as [posts [tags [page [body [Hpp [_ [_ [_ [_ [Hfiles [_ [_ H312]]]]]]]]]]]].
  split.
  - exists posts. split; [exact Hpp|]. apply H312. apply Permutation_refl.
  - clear Hfiles. do 3 eexists. split; [vm_compute; reflexivity|].
    split; [vm_compute; reflexivity|]. split; vm_compute; reflexivity.
Defined.

(** ** What a build does to the source *)

Lemma buildHomeCatalog_sorts
    (env : Env) (source : Source.t) (taxonomy : Taxonomy.t) (outputPath : string) (fs : Files) :
  sourceOf (buildHomeCatalog env source taxonomy outputPath fs)
  = Source.mk (SortFunc env Post.t byPostKeyDesc (Source.Posts source))
  /\ outcomeOf (buildHomeCatalog env source taxonomy outputPath fs) <> Panic.
Proof.
  unfold buildHomeCatalog, WriteToFile.
  destruct (WriteFile env (filepath_Join outputPath "index.xml"));
    split; try reflexivity; discriminate.
Qed.

(** The source and the taxonomy after a build: as they were when the
    build stops before the home page, and with the posts and the tags
    sorted when it gets there. *)
Lemma Build_cases (env : Env) (source : Source.t) (taxonomy : Taxonomy.t) (fs : Files) :
  (reachesHome env source taxonomy fs = false
   /\ sourceOf (Build env source taxonomy fs) = source
   /\ taxonomyOf (Build env source taxonomy fs) = taxonomy
   /\ outcomeOf (Build env source taxonomy fs) <> Ok tt)
  \/ (reachesHome env source taxonomy fs = true
      /\ sourceOf (Build env source taxonomy fs)
         = Source.mk (SortFunc env Post.t byPostKeyDesc (Source.Posts source))
      /\ taxonomyOf (Build env source taxonomy fs)
         = Taxonomy.mk (Taxonomy.Keylock taxonomy)
             (SortFunc env Tag.t byTagKeyDesc (Taxonomy.Tags taxonomy))).
Proof.
  unfold Build, reachesHome.
  destruct (clearOutput env fs) as [[err|] fs0];
    [left; repeat split; discriminate|].
  destruct (MkdirAll env xmlOutputPath);
    [left; repeat split; discriminate|].
  destruct (buildPosts env (Source.Posts source) taxonomy fs0) as [[u|e|] fs1];
    try (left; repeat split; discriminate).
  destruct (buildTags env (Taxonomy.Tags taxonomy) source fs1) as [[u'|e|] fs2];
    try (left; repeat split; discriminate).
  right. unfold buildHomeCatalog, WriteToFile.
  destruct (WriteFile env (filepath_Join xmlOutputPath "index.xml"));
    [repeat split|].
  destruct (copyStatics env); [repeat split|].
  destruct (applyStylesheets env); repeat split.
Qed.

(** C7, as the code has it.  A build leaves the source with the posts
    it had, each as it was, none added and none dropped.  When the
    build stops before the home page, their order is the order they
    had.  When it gets to the home page, they are in the order the sort
    of the home page gives them, which is descending order of id,
    whatever happens afterwards; a build that succeeds has got there. *)
Theorem Build_permutes_posts
    (env : Env) (source : Source.t) (taxonomy : Taxonomy.t) (fs : Files) :
  sortsSlices (SortFunc env) ->
  let after := Source.Posts (sourceOf (Build env source taxonomy fs)) in
  Permutation (Source.Posts source) after
  /\ (reachesHome env source taxonomy fs = false ->
      after = Source.Posts source
      /\ outcomeOf (Build env source taxonomy fs) <> Ok tt)
  /\ (reachesHome env source taxonomy fs = true ->
      after = SortFunc env Post.t byPostKeyDesc (Source.Posts source)
      /\ descendingBy Post.Key after)
  /\ (outcomeOf (Build env source taxonomy fs) = Ok tt ->
      reachesHome env source taxonomy fs = true /\ descendingBy Post.Key after).
Proof.
  intros Hsort. cbv zeta.
  destruct (SortFunc_descending (SortFunc env) Post.Key (Source.Posts source) Hsort)
    as [Hperm Hdesc].
  fold byPostKeyDesc in Hperm, Hdesc.
  destruct (Build_cases env source taxonomy fs)
    as [[Hreach [Hsrc [_ Hout]]] | [Hreach [Hsrc _]]];
    rewrite Hsrc, Hreach.
  - split; [apply Permutation_refl|]. split; [intros _; split; [reflexivity | exact Hout]|].
    split; [discriminate|]. intros Hok. exfalso. exact (Hout Hok).
  - simpl. split; [exact Hperm|]. split; [discriminate|].
    split; [intros _; split; [reflexivity | exact Hdesc]|].
    intros _. split; [reflexivity | exact Hdesc].
Qed.

Lemma Build_permutes_posts_witness :
  sortsSlices (SortFunc Reference.env)
  /\ Permutation (Source.Posts Reference.source)
       (Source.Posts (sourceOf (Build Reference.env Reference.source Reference.taxonomy [])))
  /\ reachesHome Reference.env Reference.source Reference.taxonomy [] = true
  /\ descendingBy Post.Key
       (Source.Posts (sourceOf (Build Reference.env Reference.source Reference.taxonomy []))).
Proof.
  split; [exact insertionSort_sortsSlices|].
  destruct (Build_permutes_posts Reference.env Reference.source Reference.taxonomy []
              insertionSort_sortsSlices) as [Hp [_ [_ Hd]]].
  split; [exact Hp|]. apply Hd. vm_compute. reflexivity.
Defined.

(** C7, as the claim has it, fails.  The loader reads two posts and
    gives them the ids 1 and 3 in walk order; the build succeeds and
    leaves them in the order 3, 1. *)
Lemma Build_reorders_posts :
  fst Reference.loaded = Ok Reference.source
  /\ map Post.Key (Source.Posts Reference.source) = [1; 3]
  /\ outcomeOf (Build Reference.env Reference.source Reference.taxonomy []) = Ok tt
  /\ map Post.Key
       (Source.Posts (sourceOf (Build Reference.env Reference.source Reference.taxonomy [])))
     = [3; 1]
  /\ Source.Posts (sourceOf (Build Reference.env Reference.source Reference.taxonomy []))
     <> Source.Posts Reference.source.
Proof.
  split; [vm_compute; reflexivity|]. split; [vm_compute; reflexivity|].
  split; [vm_compute; reflexivity|]. split; [vm_compute; reflexivity|].
  intros H. apply (f_equal (map Post.Key)) in H. vm_compute in H. discriminate H.
Qed.

(** ** The page of a post *)

Lemma copyBody_filter (children : list etree.Token) :
  copyBody children = map copyToken (filter kept children).
Proof.
  induction children as [|t r IH]; simpl; [reflexivity|].
  destruct t as [elem|data|]; simpl.
  - destruct (allowedTag (etree.Tag elem)); simpl; rewrite IH; reflexivity.
  - rewrite IH. reflexivity.
  - exact IH.
Qed.

Lemma elementTags_app (a b : list etree.Token) :
  elementTags (a ++ b) = elementTags a ++ elementTags b.
Proof. unfold elementTags. apply flat_map_app. Qed.

Lemma copyBody_allowed (children : list etree.Token) :
  Forall (fun tag => allowedTag tag = true) (elementTags (copyBody children)).
Proof.
  induction children as [|t r IH]; simpl; [constructor|].
  destruct t as [elem|data|]; simpl; try exact IH.
  destruct (allowedTag (etree.Tag elem)) eqn:E; simpl; [|exact IH].
  constructor; [exact E | exact IH].
Qed.

Lemma postHead_allowed (metaOrig : etree.Element) (taxonomy : Taxonomy.t) :
  Forall (fun tag => allowedTag tag = true) (elementTags (postHead metaOrig taxonomy)).
Proof.
  unfold postHead.
  set (title := match etree.SelectElement metaOrig "title" with
                | Some titleOrig => _
                | None => _
                end).
  assert (Ht : Forall (fun tag => allowedTag tag = true) (elementTags title)).
  { unfold title. destruct (etree.SelectElement metaOrig "title") as [titleOrig|];
      [|constructor].
    destruct (negb _); repeat constructor. }
  generalize dependent title.
  induction (etree.SelectElements metaOrig "tag") as [|tagOrig r IH]; intros title Ht; simpl.
  - exact Ht.
  - apply IH.
    destruct (negb _); [|exact Ht].
    destruct (0 <? _); [|exact Ht].
    rewrite elementTags_app. apply Forall_app. split; [exact Ht | repeat constructor].
Qed.

Lemma postMeta_Tag (metaOrig : etree.Element) (taxonomy : Taxonomy.t) :
  etree.Tag (postMeta metaOrig taxonomy) = "meta".
Proof.
  unfold postMeta.
  set (meta0 := match etree.SelectElement metaOrig "title" with
                | Some titleOrig => _
                | None => _
                end).
  assert (H0 : etree.Tag meta0 = "meta")
    by (unfold meta0; destruct (etree.SelectElement metaOrig "title"); reflexivity).
  generalize dependent meta0.
  induction (etree.SelectElements metaOrig "tag") as [|tagOrig r IH]; intros meta0 H0; simpl.
  - exact H0.
  - apply IH. exact H0.
Qed.

Lemma setAttr_fresh (attrs : list etree.attribute) (a : etree.attribute) :
  existsb (fun b => String.eqb (etree.Key b) (etree.Key a)) attrs = false ->
  etree.setAttr attrs (etree.Key a) (etree.Value a) = attrs ++ [a].
Proof.
  induction attrs as [|b r IH]; simpl; intros H.
  - destruct a. reflexivity.
  - apply orb_false_elim in H as [Hb Hr]. rewrite Hb, IH by exact Hr. reflexivity.
Qed.

Lemma copyAttrs_distinct (attrs : list etree.attribute) :
  distinctKeys attrs = true -> copyAttrs attrs = attrs.
Proof.
  unfold copyAttrs.
  assert (H : forall acc,
             distinctKeys (acc ++ attrs) = true ->
             fold_left (fun acc a => etree.setAttr acc (etree.Key a) (etree.Value a)) attrs acc
             = acc ++ attrs).
  { induction attrs as [|a r IH]; intros acc Hd; simpl.
    - rewrite app_nil_r. reflexivity.
    - rewrite setAttr_fresh.
      + rewrite IH; rewrite <- app_assoc; [reflexivity | exact Hd].
      + clear IH. induction acc as [|b acc IHacc]; simpl in *; [reflexivity|].
        apply andb_prop in Hd as [Hb Hd]. rewrite (IHacc Hd), orb_false_r.
        apply negb_true_iff in Hb. rewrite existsb_app in Hb.
        apply orb_false_elim in Hb as [_ Hb]. simpl in Hb.
        apply orb_false_elim in Hb as [Hb _].
        rewrite String.eqb_sym. exact Hb. }
  intros Hd. apply (H [] Hd).
Qed.

(** The copy of a plain element is the element. *)
Lemma copyOf_plain : forall e : etree.Element, plain e = true -> copyOf e = e.
Proof.
  fix IH 1. intros [tag attrs children] H. simpl in H.
  apply andb_prop in H as [Ha Hc].
  unfold copyOf. simpl. rewrite (copyAttrs_distinct attrs Ha). f_equal.
  induction children as [|t r IHr]; [reflexivity|].
  destruct t as [x|data|]; simpl in *.
  - apply andb_prop in Hc as [Hx Hr]. rewrite (IHr Hr).
    f_equal. f_equal. exact (IH x Hx).
  - rewrite (IHr Hc). reflexivity.
  - discriminate.
Qed.

Lemma copyToken_plain (t : etree.Token) : plainToken t = true -> copyToken t = t.
Proof.
  destruct t as [x|data|]; simpl; intros H; [|reflexivity | discriminate].
  rewrite (copyOf_plain x H). reflexivity.
Qed.

(** C8.  For a post whose document has a body, the page [buildPost]
    writes has a body made of the head (the title and the tag links)
    and then, in their order, the copies of the children of the parsed
    body that are character data or elements named bold, text, code,
    item or link; the copy of a child is the child itself when its
    attribute keys are distinct and it holds elements and character data
    only.  No element with another name is among the children of the
    written body, and whatever the names in the parsed body, [buildPost]
    succeeds when its two file operations do. *)
Theorem buildPost_whitelist
    (env : Env) (post : Post.t) (outputPath : string) (taxonomy : Taxonomy.t) (fs : Files)
    (bodyOrig : etree.Element) :
  selectTopOrWrapped (Post.Content post) "body" = Some bodyOrig ->
  let head := match selectTopOrWrapped (Post.Content post) "meta" with
              | Some metaOrig => postHead metaOrig taxonomy
              | None => []
              end in
  let children := head ++ map copyToken (filter kept (etree.Child bodyOrig)) in
  let postDir := filepath_Join outputPath (KeyIDToHex (Post.Key post)) in
  exists doc,
    postDocument env post taxonomy = Ok doc
    /\ bodyOfPage doc = Some (etree.mkElement "body" [] children)
    /\ Forall (fun tag => allowedTag tag = true) (elementTags children)
    /\ (forall t, plainToken t = true -> copyToken t = t)
    /\ (MkdirAll env postDir = None ->
        WriteFile env (filepath_Join postDir "index.xml") = None ->
        buildPost env post outputPath taxonomy fs
        = (Ok tt, fs ++ [(filepath_Join postDir "index.xml", WriteTo env (Indent env 4 doc))])).
Proof.
  intros Hbody. cbv zeta.
  unfold buildPost, postDocument. rewrite Hbody, copyBody_filter.
  eexists. split; [reflexivity|]. split; [|split; [|split; [exact copyToken_plain|]]].
  - unfold bodyOfPage. simpl.
    destruct (selectTopOrWrapped (Post.Content post) "meta") as [metaOrig|]; simpl.
    + unfold etree.SelectElement. simpl. rewrite postMeta_Tag. reflexivity.
    + reflexivity.
  - rewrite elementTags_app. apply Forall_app. split.
    + destruct (selectTopOrWrapped (Post.Content post) "meta");
        [apply postHead_allowed | constructor].
    + rewrite <- copyBody_filter. apply copyBody_allowed.
  - intros Hmk Hwr. rewrite Hmk. unfold WriteToFile. rewrite Hwr. reflexivity.
Qed.

Lemma buildPost_whitelist_witness :
  selectTopOrWrapped (Post.Content Reference.mixedPost) "body"
  = Some (etree.mkElement "body" []
            [etree.TElement (etree.mkElement "bold" [] [etree.TCharData "one"]);
             etree.TElement (etree.mkElement "script" [] [etree.TCharData "two"]);
             etree.TCharData "three";
             etree.TOther;
             etree.TElement
               (etree.mkElement "link" [etree.mkAttr "href" "/x"] [etree.TCharData "four"])])
  /\ exists doc,
       postDocument Reference.env Reference.mixedPost (GetTaxonomy (Keylock.mk [])) = Ok doc
       /\ bodyOfPage doc
          = Some (etree.mkElement "body" []
                    [etree.TElement (etree.mkElement "bold" [] [etree.TCharData "Mixed"]);
                     etree.TElement (etree.mkElement "bold" [] [etree.TCharData "one"]);
                     etree.TCharData "three";
                     etree.TElement
                       (etree.mkElement "link" [etree.mkAttr "href" "/x"]
                          [etree.TCharData "four"])])
       /\ buildPost Reference.env Reference.mixedPost xmlOutputPath
            (GetTaxonomy (Keylock.mk [])) []
          = (Ok tt, [("output/xml/0x0005/index.xml",
                      WriteTo Reference.env (Indent Reference.env 4 doc))]).
Proof.
  split; [reflexivity|].
  destruct (buildPost_whitelist Reference.env Reference.mixedPost xmlOutputPath
              (GetTaxonomy (Keylock.mk [])) [] _ eq_refl) as [doc [Hdoc [Hbody [_ [_ Hrun]]]]].
  exists doc. split; [exact Hdoc|]. split.
  - rewrite Hbody. reflexivity.
  - apply (Hrun eq_refl eq_refl).
Defined.

(** ** The parser: the loops on a longer list of lines *)

Section Lines.

Variable env : Env.

Lemma findFence_bounds (lines : list string) (n : nat) :
  forall e, (e <= findFence lines e n <= e + n)%nat.
Proof.
  induction n as [|n IH]; intros e; simpl; [lia|].
  destruct (isFence (nth e lines EmptyString)); [lia|].
  specialize (IH (S e)). lia.
Qed.

(** A fence found among the first lines is found there when more
    lines follow. *)
Lemma findFence_pre (pre rest : list string) (n : nat) :
  forall e,
    n = (List.length pre - e)%nat ->
    (findFence pre e n < List.length pre)%nat ->
    findFence (pre ++ rest) e (List.length (pre ++ rest) - e) = findFence pre e n.
Proof.
  induction n as [|n IH]; intros e Hn Hlt; simpl in *.
  - lia.
  - assert (He : (e < List.length pre)%nat) by lia.
    replace (List.length (pre ++ rest) - e)%nat
      with (S (List.length (pre ++ rest) - S e))
      by (rewrite length_app; lia).
    simpl. rewrite app_nth1 by exact He.
    destruct (isFence (nth e pre EmptyString)); [reflexivity|].
    apply IH; [lia | exact Hlt].
Qed.

Lemma findFence_shift (pre rest : list string) (n : nat) :
  forall e,
    findFence (pre ++ rest) (List.length pre + e) n
    = (List.length pre + findFence rest e n)%nat.
Proof.
  induction n as [|n IH]; intros e; simpl; [reflexivity|].
  rewrite app_nth2_plus.
  destruct (isFence (nth e rest EmptyString)); [reflexivity|].
  rewrite <- IH. f_equal. lia.
Qed.

Lemma findFence_none (lines : list string) (n : nat) :
  forall e,
    (forall k, (e <= k < e + n)%nat -> isFence (nth k lines EmptyString) = false) ->
    findFence lines e n = (e + n)%nat.
Proof.
  induction n as [|n IH]; intros e H; simpl; [lia|].
  rewrite (H e) by lia. rewrite IH; [lia|].
  intros k Hk. apply H. lia.
Qed.

Lemma collectText_bounds (lines : list string) (n : nat) :
  forall i textLines,
    (i <= fst (collectText lines i n textLines) <= i + n)%nat.
Proof.
  induction n as [|n IH]; intros i textLines; simpl; [lia|].
  destruct (endsText (strings.TrimSpace (nth i lines EmptyString))); simpl; [lia|].
  specialize (IH (S i) (textLines ++ [strings.TrimSpace (nth i lines EmptyString)])). lia.
Qed.

(** A paragraph among the first lines is the same paragraph when the
    line after them ends a paragraph. *)
Lemma collectText_pre (pre post : list string) (x : string) (n : nat) :
  endsText (strings.TrimSpace x) = true ->
  forall i textLines,
    n = (List.length pre - i)%nat -> (i <= List.length pre)%nat ->
    collectText (pre ++ x :: post) i (List.length (pre ++ x :: post) - i) textLines
    = collectText pre i n textLines.
Proof.
  intros Hx. induction n as [|n IH]; intros i textLines Hn Hi.
  - assert (i = List.length pre) by lia. subst i.
    replace (List.length (pre ++ x :: post) - List.length pre)%nat
      with (S (List.length post)) by (rewrite length_app; simpl; lia).
    simpl. replace (List.length pre) with (List.length pre + 0)%nat at 1 by lia.
    rewrite app_nth2_plus. simpl. rewrite Hx. reflexivity.
  - assert (He : (i < List.length pre)%nat) by lia.
    replace (List.length (pre ++ x :: post) - i)%nat
      with (S (List.length (pre ++ x :: post) - S i))
      by (rewrite length_app; simpl; lia).
    simpl. rewrite app_nth1 by exact He.
    destruct (endsText (strings.TrimSpace (nth i pre EmptyString))); [reflexivity|].
    apply IH; lia.
Qed.

Lemma collectText_shift (pre rest : list string) (n : nat) :
  forall i textLines,
    collectText (pre ++ rest) (List.length pre + i) n textLines
    = ((List.length pre + fst (collectText rest i n textLines))%nat,
       snd (collectText rest i n textLines)).
Proof.
  induction n as [|n IH]; intros i textLines; simpl; [reflexivity|].
  rewrite app_nth2_plus.
  destruct (endsText (strings.TrimSpace (nth i rest EmptyString))); [reflexivity|].
  replace (S (List.length pre + i)) with (List.length pre + S i)%nat by lia.
  apply IH.
Qed.

Lemma firstn_skipn_app (pre rest : list string) (s k : nat) :
  (s + k <= List.length pre)%nat ->
  firstn k (skipn s (pre ++ rest)) = firstn k (skipn s pre).
Proof.
  intros H. rewrite skipn_app.
  replace (s - List.length pre)%nat with 0%nat by lia. simpl.
  rewrite firstn_app.
  replace (k - List.length (skipn s pre))%nat with 0%nat
    by (rewrite length_skipn; lia).
  simpl. apply app_nil_r.
Qed.

Lemma skipn_shift (pre rest : list string) (s : nat) :
  skipn (List.length pre + s) (pre ++ rest) = skipn s rest.
Proof.
  rewrite skipn_app.
  replace (List.length pre + s - List.length pre)%nat with s by lia.
  rewrite skipn_all2 by lia. reflexivity.
Qed.

(** A code block closed among the first lines is the same code block
    when more lines follow. *)
Lemma parseCodeBlock_pre (pre rest : list string) (i : nat)
    (r : etree.Element * nat) :
  (i < List.length pre)%nat ->
  parseCodeBlock env pre i = Ok r ->
  parseCodeBlock env (pre ++ rest) i = Ok r /\ (i < snd r <= List.length pre)%nat.
Proof.
  intros Hi. unfold parseCodeBlock.
  set (endIdx := findFence pre (i + 1) (List.length pre - (i + 1))).
  destruct (Nat.leb_spec (List.length pre) endIdx) as [Hge|Hlt]; [discriminate|].
  rewrite (findFence_pre pre rest _ (i + 1) eq_refl Hlt). fold endIdx.
  destruct (Nat.leb_spec (List.length (pre ++ rest)) endIdx) as [Hge'|_];
    [rewrite length_app in Hge'; lia|].
  pose proof (findFence_bounds pre (List.length pre - (i + 1)) (i + 1)) as Hb.
  fold endIdx in Hb.
  rewrite firstn_skipn_app by lia.
  intros H. split; [exact H|].
  destruct (processWithPandoc env _) as [html| |];
    [destruct (etree.Root html); [|discriminate]| |];
    inversion H; subst; simpl; lia.
Qed.

Lemma parseCodeBlock_shift (pre rest : list string) (j : nat)
    (code : etree.Element) (next : nat) :
  parseCodeBlock env rest j = Ok (code, next) ->
  parseCodeBlock env (pre ++ rest) (List.length pre + j)
  = Ok (code, (List.length pre + next)%nat).
Proof.
  unfold parseCodeBlock.
  replace (List.length pre + j + 1)%nat with (List.length pre + (j + 1))%nat by lia.
  rewrite findFence_shift.
  replace (List.length (pre ++ rest) - (List.length pre + (j + 1)))%nat
    with (List.length rest - (j + 1))%nat by (rewrite length_app; lia).
  set (endIdx := findFence rest (j + 1) (List.length rest - (j + 1))).
  replace (List.length (pre ++ rest) <=? List.length pre + endIdx)%nat
    with (List.length rest <=? endIdx)%nat.
  2:{ rewrite length_app.
      destruct (Nat.leb_spec (List.length rest) endIdx);
        destruct (Nat.leb_spec (List.length pre + List.length rest)
                    (List.length pre + endIdx)); lia || reflexivity. }
  destruct (List.length rest <=? endIdx)%nat; [discriminate|].
  rewrite skipn_shift.
  replace (List.length pre + endIdx - (List.length pre + (j + 1)))%nat
    with (endIdx - (j + 1))%nat by lia.
  destruct (processWithPandoc env _) as [html| |];
    [destruct (etree.Root html); [|discriminate]| |];
    intros H; inversion H; subst; do 2 f_equal; lia.
Qed.

End Lines.

(** ** The parser: rounds and runs *)

Section Rounds.

Variable env : Env.

Lemma appendTokens_nil (e : etree.Element) : appendTokens e [] = e.
Proof. destruct e. unfold appendTokens. simpl. rewrite app_nil_r. reflexivity. Qed.

Lemma appendTokens_app (e : etree.Element) (a b : list etree.Token) :
  appendTokens (appendTokens e a) b = appendTokens e (a ++ b).
Proof. unfold appendTokens. simpl. rewrite app_assoc. reflexivity. Qed.

(** A round moves forward. *)
Lemma parseRound_progress (lines : list string) (i next : nat) (body body' : etree.Element) :
  parseRound env lines i body = Ok (next, body') -> (i < next)%nat.
Proof.
  unfold parseRound.
  destruct (strings.HasPrefix _ "```").
  { unfold parseCodeBlock.
    pose proof (findFence_bounds lines (List.length lines - (i + 1)) (i + 1)) as Hb.
    destruct (List.length lines <=? _)%nat; [discriminate|].
    destruct (processWithPandoc env _) as [html| |];
      [destruct (etree.Root html); [|discriminate]| |];
      intros H; inversion H; subst; lia. }
  destruct (strings.HasPrefix _ "# "); [intros H; inversion H; lia|].
  destruct (strings.HasPrefix _ "- "); [intros H; inversion H; lia|].
  destruct (strings.HasPrefix _ "> "); [intros H; inversion H; lia|].
  destruct (negb _); [|intros H; inversion H; lia].
  pose proof (collectText_bounds lines (List.length lines - S i) (S i)
                [strings.TrimSpace (nth i lines EmptyString)]) as Hb.
  destruct (collectText lines (S i) (List.length lines - S i) _) as [k textLines].
  simpl in Hb. intros H; inversion H; subst; lia.
Qed.

(** A round adds tokens to the body and looks at nothing else of it. *)
Lemma parseRound_tokens (lines : list string) (i next : nat) (body body' : etree.Element) :
  parseRound env lines i body = Ok (next, body') ->
  exists ts,
    body' = appendTokens body ts
    /\ forall b, parseRound env lines i b = Ok (next, appendTokens b ts).
Proof.
  unfold parseRound.
  destruct (strings.HasPrefix _ "```").
  { destruct (parseCodeBlock env lines i) as [[code k]| |]; try discriminate.
    intros H; inversion H; subst. eexists. split; reflexivity. }
  destruct (strings.HasPrefix _ "# ");
    [intros H; inversion H; subst; eexists; split; reflexivity|].
  destruct (strings.HasPrefix _ "- ");
    [intros H; inversion H; subst; eexists; split; reflexivity|].
  destruct (strings.HasPrefix _ "> ").
  { destruct (linkOf _) as [link|]; intros H; inversion H; subst.
    - eexists. split; reflexivity.
    - exists []. split; [symmetry; apply appendTokens_nil|].
      intros b. rewrite appendTokens_nil. reflexivity. }
  destruct (negb _).
  { destruct (collectText lines (S i) (List.length lines - S i) _) as [k textLines].
    intros H; inversion H; subst. eexists. split; reflexivity. }
  intros H; inversion H; subst.
  exists []. split; [symmetry; apply appendTokens_nil|].
  intros b. rewrite appendTokens_nil. reflexivity.
Qed.

(** A round among the first lines is the same round when the line
    after them ends a paragraph, and it stays among them. *)
Lemma parseRound_pre (pre post : list string) (x : string) (i next : nat)
    (body body' : etree.Element) :
  endsText (strings.TrimSpace x) = true ->
  (i < List.length pre)%nat ->
  parseRound env pre i body = Ok (next, body') ->
  parseRound env (pre ++ x :: post) i body = Ok (next, body')
  /\ (next <= List.length pre)%nat.
Proof.
  intros Hx Hi. unfold parseRound. rewrite app_nth1 by exact Hi.
  destruct (strings.HasPrefix _ "```").
  { destruct (parseCodeBlock env pre i) as [[code k]| |] eqn:E; try discriminate.
    destruct (parseCodeBlock_pre env pre (x :: post) i _ Hi E) as [E' Hk].
    rewrite E'. intros H; inversion H; subst. simpl in Hk. split; [reflexivity | lia]. }
  destruct (strings.HasPrefix _ "# "); [intros H; inversion H; split; [reflexivity | lia]|].
  destruct (strings.HasPrefix _ "- "); [intros H; inversion H; split; [reflexivity | lia]|].
  destruct (strings.HasPrefix _ "> "); [intros H; inversion H; split; [reflexivity | lia]|].
  destruct (negb _); [|intros H; inversion H; split; [reflexivity | lia]].
  rewrite (collectText_pre pre post x (List.length pre - S i) Hx (S i) _ eq_refl) by lia.
  pose proof (collectText_bounds pre (List.length pre - S i) (S i)
                [strings.TrimSpace (nth i pre EmptyString)]) as Hb.
  destruct (collectText pre (S i) (List.length pre - S i) _) as [k textLines].
  simpl in Hb. intros H; inversion H; subst. split; [reflexivity | lia].
Qed.

(** A round is the same round when lines come before. *)
Lemma parseRound_shift (pre rest : list string) (j next : nat) (body body' : etree.Element) :
  parseRound env rest j body = Ok (next, body') ->
  parseRound env (pre ++ rest) (List.length pre + j) body
  = Ok ((List.length pre + next)%nat, body').
Proof.
  unfold parseRound. rewrite app_nth2_plus.
  destruct (strings.HasPrefix _ "```").
  { destruct (parseCodeBlock env rest j) as [[code k]| |] eqn:E; try discriminate.
    rewrite (parseCodeBlock_shift env pre rest j code k E).
    intros H; inversion H; subst. reflexivity. }
  destruct (strings.HasPrefix _ "# ");
    [intros H; inversion H; subst; do 2 f_equal; lia|].
  destruct (strings.HasPrefix _ "- ");
    [intros H; inversion H; subst; do 2 f_equal; lia|].
  destruct (strings.HasPrefix _ "> ");
    [intros H; inversion H; subst; do 2 f_equal; lia|].
  destruct (negb _); [|intros H; inversion H; subst; do 2 f_equal; lia].
  replace (S (List.length pre + j)) with (List.length pre + S j)%nat by lia.
  replace (List.length (pre ++ rest) - (List.length pre + S j))%nat
    with (List.length rest - S j)%nat by (rewrite length_app; lia).
  rewrite collectText_shift.
  destruct (collectText rest (S j) (List.length rest - S j) _) as [k textLines].
  simpl. intros H; inversion H; subst. reflexivity.
Qed.

(** The loop does not run out of fuel that exceeds the lines left. *)
Lemma parseContentFrom_fuel (lines : list string) (f1 : nat) :
  forall f2 i body,
    (List.length lines - i < f1)%nat -> (List.length lines - i < f2)%nat ->
    parseContentFrom env f1 lines i body = parseContentFrom env f2 lines i body.
Proof.
  induction f1 as [|f1 IH]; intros f2 i body H1 H2; [lia|].
  destruct f2 as [|f2]; [lia|]. simpl.
  destruct (Nat.leb_spec (List.length lines) i) as [Hge|Hlt]; [reflexivity|].
  destruct (parseRound env lines i body) as [[next body']| |] eqn:E; try reflexivity.
  apply parseRound_progress in E. apply IH; lia.
Qed.

(** The loop over the first lines, when the line after them ends a
    paragraph, comes to that line with the body of the first lines. *)
Lemma parseContentFrom_pre (pre post : list string) (x : string) (f : nat) :
  endsText (strings.TrimSpace x) = true ->
  forall i body b1 F,
    (i <= List.length pre)%nat ->
    parseContentFrom env f pre i body = Ok b1 ->
    (List.length (pre ++ x :: post) - i < F)%nat ->
    parseContentFrom env F (pre ++ x :: post) i body
    = parseContentFrom env (S (S (List.length post))) (pre ++ x :: post) (List.length pre) b1.
Proof.
  intros Hx. induction f as [|f IH]; intros i body b1 F Hi Hrun HF; [discriminate|].
  simpl in Hrun.
  destruct (Nat.leb_spec (List.length pre) i) as [Hge|Hlt].
  - inversion Hrun; subst. assert (i = List.length pre) by lia. subst i.
    apply parseContentFrom_fuel; [exact HF | rewrite length_app; simpl; lia].
  - destruct (parseRound env pre i body) as [[next body']| |] eqn:E; try discriminate.
    pose proof (parseRound_progress _ _ _ _ _ E) as Hnext.
    destruct (parseRound_pre pre post x i next body body' Hx Hlt E) as [E' Hle].
    destruct F as [|F]; [lia|]. simpl.
    destruct (Nat.leb_spec (List.length (pre ++ x :: post)) i) as [Hge'|_];
      [rewrite length_app in Hge'; lia|].
    rewrite E'. apply IH; [exact Hle | exact Hrun |].
    pose proof (length_app pre (x :: post)). lia.
Qed.

(** The loop over lines is the same loop when lines come before, and
    what it adds to the body does not depend on the body. *)
Lemma parseContentFrom_shift (pre rest : list string) (f : nat) :
  forall j acc b2,
    parseContentFrom env f rest j acc = Ok b2 ->
    exists ts,
      b2 = appendTokens acc ts
      /\ forall body,
           parseContentFrom env f (pre ++ rest) (List.length pre + j) body
           = Ok (appendTokens body ts).
Proof.
  induction f as [|f IH]; intros j acc b2 Hrun; [discriminate|].
  simpl in Hrun. simpl.
  replace (List.length (pre ++ rest) <=? List.length pre + j)%nat
    with (List.length rest <=? j)%nat.
  2:{ rewrite length_app.
      destruct (Nat.leb_spec (List.length rest) j);
        destruct (Nat.leb_spec (List.length pre + List.length rest)
                    (List.length pre + j)); lia || reflexivity. }
  destruct (List.length rest <=? j)%nat.
  - inversion Hrun; subst. exists []. split; [symmetry; apply appendTokens_nil|].
    intros body. rewrite appendTokens_nil. reflexivity.
  - destruct (parseRound env rest j acc) as [[next acc']| |] eqn:E; try discriminate.
    destruct (parseRound_tokens _ _ _ _ _ E) as [t1 [Hacc Hany]].
    destruct (IH next acc' b2 Hrun) as [t2 [Hb2 Hrest]].
    exists (t1 ++ t2). split.
    + rewrite Hb2, Hacc. apply appendTokens_app.
    + intros body.
      rewrite (parseRound_shift pre rest j next body _ (Hany body)).
      rewrite Hrest. rewrite appendTokens_app. reflexivity.
Qed.

Lemma HasPrefix_head (s prefix : string) (c : ascii) :
  strings.HasPrefix s (String c prefix) = true ->
  exists r, s = String c r.
Proof.
  destruct s as [|d r]; simpl; [discriminate|].
  destruct (Ascii.eqb_spec c d); [subst; exists r; reflexivity | discriminate].
Qed.

(** The round at a link line that has an href and nothing after it. *)
Lemma parseRound_link (lines : list string) (i : nat) (href : string) (body : etree.Element) :
  strings.HasPrefix (strings.TrimSpace (nth i lines EmptyString)) "> " = true ->
  strings.Fields (strings.TrimPrefix (strings.TrimSpace (nth i lines EmptyString)) "> ")
  = [href] ->
  parseRound env lines i body = Ok (S i, appendTokens body [bareLink href]).
Proof.
  intros Hp Hf. unfold parseRound.
  destruct (HasPrefix_head _ _ _ Hp) as [r Hr].
  unfold linkOf. rewrite Hf, Hp. rewrite Hr. reflexivity.
Qed.

Lemma link_endsText (trimmed : string) :
  strings.HasPrefix trimmed "> " = true -> endsText trimmed = true.
Proof.
  intros H. unfold endsText. rewrite H.
  rewrite orb_true_r. reflexivity.
Qed.

Lemma fence_endsText (line : string) :
  isFence line = true -> endsText (strings.TrimSpace line) = true.
Proof.
  unfold isFence, endsText. intros H. rewrite H. apply orb_true_r.
Qed.

End Rounds.

(** ** Link lines and unclosed code blocks *)

(** C10.  A line that, trimmed, starts with [> ] and goes on with one
    field, the href, gives a [link] element whose [href] attribute and
    whose text are both the href.  When the lines before it and the
    lines after it parse, the whole parses, and the link stands in the
    body between what the lines before it and the lines after it give:
    it is not dropped and it is no error. *)
Theorem link_line_href_is_label
    (env : Env) (pre post : list string) (line href : string) (body b1 b2 : etree.Element) :
  strings.HasPrefix (strings.TrimSpace line) "> " = true ->
  strings.Fields (strings.TrimPrefix (strings.TrimSpace line) "> ") = [href] ->
  parseContent env pre body = Ok b1 ->
  parseContent env post (etree.NewElement "body") = Ok b2 ->
  parseContent env (pre ++ line :: post) body
  = Ok (appendTokens b1 (bareLink href :: etree.Child b2))
  /\ bareLink href
     = etree.TElement
         (etree.CreateText (etree.CreateAttr (etree.NewElement "link") "href" href) href).
Proof.
  intros Hp Hf Hpre Hpost. split; [|reflexivity].
  unfold parseContent in *.
  rewrite (parseContentFrom_pre env pre post line (S (List.length pre))
             (link_endsText _ Hp) 0%nat body b1 _ (Nat.le_0_l _) Hpre) by lia.
  assert (Hline : nth (List.length pre) (pre ++ line :: post) EmptyString = line)
    by apply nth_middle.
  change (parseContentFrom env (S (S (List.length post))) (pre ++ line :: post)
            (List.length pre) b1)
    with (if (List.length (pre ++ line :: post) <=? List.length pre)%nat then Ok b1
          else match parseRound env (pre ++ line :: post) (List.length pre) b1 with
               | Ok (next, body') =>
                   parseContentFrom env (S (List.length post)) (pre ++ line :: post) next body'
               | Err err => Err err
               | Panic => Panic
               end).
  destruct (Nat.leb_spec (List.length (pre ++ line :: post)) (List.length pre)) as [Hge|_];
    [rewrite length_app in Hge; simpl in Hge; lia|].
  rewrite (parseRound_link env (pre ++ line :: post) (List.length pre) href b1)
    by (rewrite Hline; assumption).
  destruct (parseContentFrom_shift env (pre ++ [line]) post (S (List.length post)) 0%nat
              (etree.NewElement "body") b2 Hpost) as [ts [Hb2 Hany]].
  replace (pre ++ line :: post) with ((pre ++ [line]) ++ post)
    by (rewrite <- app_assoc; reflexivity).
  replace (S (List.length pre)) with (List.length (pre ++ [line]) + 0)%nat
    by (rewrite length_app; simpl; lia).
  rewrite Hany, appendTokens_app. subst b2. reflexivity.
Qed.

Lemma link_line_href_is_label_witness :
  strings.HasPrefix (strings.TrimSpace "  > https://example.org ") "> " = true
  /\ strings.Fields (strings.TrimPrefix (strings.TrimSpace "  > https://example.org ") "> ")
     = ["https://example.org"]
  /\ parseContent Reference.env ["# Title"; "plain"; "text"; ""] (etree.NewElement "body")
     = Ok (etree.mkElement "body" []
             [etree.TElement (etree.mkElement "bold" [] [etree.TCharData "Title"]);
              etree.TElement
                (etree.mkElement "text" [] [etree.TCharData ("plain" +++ newline +++ "text")])])
  /\ parseContent Reference.env ["- item"] (etree.NewElement "body")
     = Ok (etree.mkElement "body" []
             [etree.TElement (etree.mkElement "item" [] [etree.TCharData "item"])])
  /\ parseContent Reference.env
       ["# Title"; "plain"; "text"; ""; "  > https://example.org "; "- item"]
       (etree.NewElement "body")
     = Ok (etree.mkElement "body" []
             [etree.TElement (etree.mkElement "bold" [] [etree.TCharData "Title"]);
              etree.TElement
                (etree.mkElement "text" [] [etree.TCharData ("plain" +++ newline +++ "text")]);
              etree.TElement
                (etree.mkElement "link" [etree.mkAttr "href" "https://example.org"]
                   [etree.TCharData "https://example.org"]);
              etree.TElement (etree.mkElement "item" [] [etree.TCharData "item"])]).
Proof.
  assert (H1 : strings.HasPrefix (strings.TrimSpace "  > https://example.org ") "> " = true)
    by (vm_compute; reflexivity).
  assert (H2 : strings.Fields
                 (strings.TrimPrefix (strings.TrimSpace "  > https://example.org ") "> ")
               = ["https://example.org"]) by (vm_compute; reflexivity).
  assert (H3 : parseContent Reference.env ["# Title"; "plain"; "text"; ""]
                 (etree.NewElement "body")
               = Ok (etree.mkElement "body" []
                       [etree.TElement (etree.mkElement "bold" [] [etree.TCharData "Title"]);
                        etree.TElement
                          (etree.mkElement "text" []
                             [etree.TCharData ("plain" +++ newline +++ "text")])]))
    by (vm_compute; reflexivity).
  assert (H4 : parseContent Reference.env ["- item"] (etree.NewElement "body")
               = Ok (etree.mkElement "body" []
                       [etree.TElement (etree.mkElement "item" [] [etree.TCharData "item"])]))
    by (vm_compute; reflexivity).
  split; [exact H1|]. split; [exact H2|]. split; [exact H3|]. split; [exact H4|].
  exact (proj1 (link_line_href_is_label Reference.env
                  ["# Title"; "plain"; "text"; ""] ["- item"]
                  "  > https://example.org " "https://example.org"
                  _ _ _ H1 H2 H3 H4)).
Defined.

(** A fence with no fence after it: the loop that comes to it returns
    the error, with the index of the fence among the lines it was
    given, counted from one. *)
Lemma parseContent_unclosed
    (env : Env) (pre post : list string) (fence : string) (body b1 : etree.Element) :
  parseContent env pre body = Ok b1 ->
  isFence fence = true ->
  (forall l, In l post -> isFence l = false) ->
  parseContent env (pre ++ fence :: post) body
  = Err (errorString ("unclosed code block starting at line "
                      +++ strconv.Itoa (Z.of_nat (List.length pre) + 1))).
Proof.
  intros Hpre Hfence Hpost.
  unfold parseContent in *.
  rewrite (parseContentFrom_pre env pre post fence (S (List.length pre))
             (fence_endsText _ Hfence) 0%nat body b1 _ (Nat.le_0_l _) Hpre) by lia.
  assert (Hline : nth (List.length pre) (pre ++ fence :: post) EmptyString = fence)
    by apply nth_middle.
  change (parseContentFrom env (S (S (List.length post))) (pre ++ fence :: post)
            (List.length pre) b1)
    with (if (List.length (pre ++ fence :: post) <=? List.length pre)%nat then Ok b1
          else match parseRound env (pre ++ fence :: post) (List.length pre) b1 with
               | Ok (next, body') =>
                   parseContentFrom env (S (List.length post)) (pre ++ fence :: post) next body'
               | Err err => Err err
               | Panic => Panic
               end).
  destruct (Nat.leb_spec (List.length (pre ++ fence :: post)) (List.length pre)) as [Hge|_];
    [rewrite length_app in Hge; simpl in Hge; lia|].
  unfold parseRound. rewrite Hline. unfold isFence in Hfence. rewrite Hfence.
  unfold parseCodeBlock.
  rewrite findFence_none.
  - replace (List.length pre + 1
             + (List.length (pre ++ fence :: post) - (List.length pre + 1)))%nat
      with (List.length (pre ++ fence :: post))
      by (rewrite length_app; simpl; lia).
    rewrite Nat.leb_refl. reflexivity.
  - intros k Hk. rewrite length_app in Hk. simpl in Hk.
    replace k with (List.length pre + S (k - List.length pre - 1))%nat by lia.
    rewrite app_nth2_plus. simpl.
    apply Hpost. apply nth_In. lia.
Qed.

(** The same for a whole file: the two lines of metadata, lines that
    parse, a fence, lines without a fence.  The fence is line
    [length pre + 3] of the file; the error names [length pre + 1]. *)
Lemma ParseCustomSyntax_unclosed
    (env : Env) (content titleLine tagsLine title : string) (tags : list string)
    (pre post : list string) (fence : string) (b1 : etree.Element) :
  strings.SplitNL content = titleLine :: tagsLine :: pre ++ fence :: post ->
  parseMetadata titleLine tagsLine = Ok (title, tags) ->
  parseContent env pre (etree.NewElement "body") = Ok b1 ->
  isFence fence = true ->
  (forall l, In l post -> isFence l = false) ->
  nth (List.length pre + 2) (strings.SplitNL content) EmptyString = fence
  /\ ParseCustomSyntax env content
     = Err (wrapError "failed to parse content: "
              (errorString ("unclosed code block starting at line "
                            +++ strconv.Itoa (Z.of_nat (List.length pre) + 1)))).
Proof.
  intros Hsplit Hmeta Hpre Hfence Hpost. split.
  - rewrite Hsplit. replace (List.length pre + 2)%nat with (S (S (List.length pre))) by lia.
    simpl. apply nth_middle.
  - unfold ParseCustomSyntax. rewrite Hsplit.
    change (nth 0 (titleLine :: tagsLine :: pre ++ fence :: post) EmptyString) with titleLine.
    change (nth 1 (titleLine :: tagsLine :: pre ++ fence :: post) EmptyString) with tagsLine.
    change (skipn 2 (titleLine :: tagsLine :: pre ++ fence :: post))
      with (pre ++ fence :: post).
    change (List.length (titleLine :: tagsLine :: pre ++ fence :: post) <? 2)%nat with false.
    cbv iota. rewrite Hmeta.
    rewrite (parseContent_unclosed env pre post fence _ b1 Hpre Hfence Hpost).
    reflexivity.
Qed.

(** C9, at a file of four lines: the title, the tags, a fence and a
    line of code.  The fence that is never closed is the third line of
    the file.  Parsing fails, in every environment, and the error says
    that the code block starts at line 1. *)
Theorem ParseCustomSyntax_unclosed_line_off (env : Env) :
  let content :=
    "title: 'T'" +++ newline +++ "tags: ['a']" +++ newline +++ "```" +++ newline +++ "code" in
  strings.SplitNL content = ["title: 'T'"; "tags: ['a']"; "```"; "code"]
  /\ ParseCustomSyntax env content
     = Err (wrapError "failed to parse content: "
              (errorString "unclosed code block starting at line 1"))
  /\ Error (wrapError "failed to parse content: "
              (errorString "unclosed code block starting at line 1"))
     = "failed to parse content: unclosed code block starting at line 1".
Proof.
  cbv zeta. split; [vm_compute; reflexivity|]. split; [|reflexivity].
  assert (Hs : strings.SplitNL
                 ("title: 'T'" +++ newline +++ "tags: ['a']" +++ newline +++ "```"
                  +++ newline +++ "code")
               = "title: 'T'" :: "tags: ['a']" :: [] ++ "```" :: ["code"])
    by (vm_compute; reflexivity).
  destruct (ParseCustomSyntax_unclosed env _ "title: 'T'" "tags: ['a']" "T" ["a"]
              [] ["code"] "```" (etree.NewElement "body") Hs) as [_ H].
  - vm_compute. reflexivity.
  - reflexivity.
  - vm_compute. reflexivity.
  - intros l [Hl|[]]. subst l. vm_compute. reflexivity.
  - exact H.
Qed.

(** ** The program run on small inputs *)

(** A file with the title Hello, the tags a and b and the text World:
    the loader gives a post with that title and two tag ids, and the
    page of the post has the title in [bold], a link per tag and the
    text. *)
Example round_trip_example :
  let file := "title: 'Hello'" +++ newline +++ "tags: ['a','b']" +++ newline +++ "World" in
  exists post taxonomy doc,
    GetPostDocument Reference.env "input/posts/hello" "hello" (inr file)
      (GetTaxonomy (Keylock.mk []))
    = (Ok post, taxonomy)
    /\ Post.Title post = "Hello"
    /\ Post.Key post = 1
    /\ Post.Tags post = [2; 3]
    /\ postDocument Reference.env post taxonomy = Ok doc
    /\ option_map etree.Child (bodyOfPage doc)
       = Some [textElement "bold" "Hello";
               linkElement "/0x0002/" "0x0002 - a";
               linkElement "/0x0003/" "0x0003 - b";
               textElement "text" "World"].
Proof.
  cbv zeta. do 3 eexists. split; [vm_compute; reflexivity|].
  repeat split; vm_compute; reflexivity.
Qed.

(** The registry a run leaves on disk is the registry the next run
    loads, and a post keeps its id when the files are walked in another
    order. *)
Example second_run_example :
  exists fs keylock source taxonomy,
    main Reference.env Reference.walk [] = (Ok tt, fs)
    /\ GetKeylock Reference.env fs = Ok keylock
    /\ map Key.Value (Keylock.Keys keylock) = ["POST:a.txt"; "TAG:go"; "POST:b.txt"; "TAG:rocq"]
    /\ GetSource Reference.env (rev Reference.walk) (GetTaxonomy keylock)
       = (Ok source, taxonomy)
    /\ map (fun post => (Post.Name post, Post.Key post)) (Source.Posts source)
       = [("b.txt", 3); ("a.txt", 1)]
    /\ Taxonomy.Keylock taxonomy = keylock.
Proof.
  do 4 eexists. split; [vm_compute; reflexivity|].
  split; [vm_compute; reflexivity|].
  repeat split; vm_compute; reflexivity.
Qed.

(** White space is what [unicode.IsSpace] says: a no-break space
    (C2 A0) is trimmed and splits fields, a vertical tab is trimmed. *)
Example white_space_example :
  let nbsp := String (ascii_of_nat 194) (String (ascii_of_nat 160) EmptyString) in
  let vt := String (ascii_of_nat 11) EmptyString in
  strings.TrimSpace (nbsp +++ vt +++ "a b" +++ vt +++ nbsp) = "a b"
  /\ strings.Fields ("a" +++ nbsp +++ "b  c") = ["a"; "b"; "c"]
  /\ strings.TrimSpace "   " = ""
  /\ strings.Fields "" = [].
Proof. cbv zeta. repeat split; vm_compute; reflexivity. Qed.

(** A link line between two fences is code, and a link line with text
    after the href takes the text as its label. *)
Example link_in_code_example :
  parseContent Reference.env ["```"; "> href"; "```"; "> href the label"]
    (etree.NewElement "body")
  = Ok (etree.mkElement "body" []
          [etree.TElement (etree.mkElement "code" [] [etree.TCharData "> href"]);
           linkElement "href" "the label"]).
Proof. vm_compute. reflexivity. Qed.

(** Ids outside the four digits: 65536 takes five, and a negative id
    keeps its sign inside the width. *)
Example KeyIDToHex_outside_example :
  KeyIDToHex 65536 = "0x10000" /\ KeyIDToHex 0 = "0x0000" /\ KeyIDToHex (-1) = "0x-001".
Proof. repeat split; vm_compute; reflexivity. Qed.

(* ================================================================== *)
(** * More of the registry *)
(* ================================================================== *)

Lemma findKey_kept (keys more : list Key.t) (k : string) (id : Z) :
  findKey keys k = Some id -> findKey (keys ++ more) k = Some id.
Proof.
  induction keys as [|key r IH]; simpl; [discriminate|].
  destruct (String.eqb (Key.Value key) k); [intros H; exact H | exact IH].
Qed.

Lemma AssureKey_extends (keylock : Keylock.t) (value : string) :
  exists added,
    Keylock.Keys (snd (AssureKey keylock value)) = Keylock.Keys keylock ++ added
    /\ (List.length added <= 1)%nat.
Proof.
  unfold AssureKey. destruct (findKey (Keylock.Keys keylock) value).
  - exists []. simpl. rewrite app_nil_r. split; [reflexivity | lia].
  - eexists. simpl. split; [reflexivity | simpl; lia].
Qed.

Lemma assureEach_extends (values : list string) :
  forall keylock,
    exists added,
      Keylock.Keys (snd (assureEach keylock values)) = Keylock.Keys keylock ++ added
      /\ (List.length added <= List.length values)%nat.
Proof.
  induction values as [|value r IH]; intros keylock; simpl.
  - exists []. rewrite app_nil_r. split; [reflexivity | simpl; lia].
  - destruct (AssureKey_extends keylock value) as [a1 [H1 L1]].
    destruct (AssureKey keylock value) as [id kl1]. simpl in H1.
    destruct (IH kl1) as [a2 [H2 L2]].
    destruct (assureEach kl1 r) as [ids kl2]. simpl in *.
    exists (a1 ++ a2). rewrite H2, H1, <- app_assoc. split; [reflexivity|].
    rewrite length_app. lia.
Qed.

(** X1.  The registry only grows at the end.  After any run of
    [AssureKey] calls the entries that were there are still there, in
    their places, followed by at most one new entry per call, and a key
    that had an id is given that id again. *)
Theorem AssureKey_append_only
    (keylock : Keylock.t) (values : list string) (k : string) (id : Z) :
  findKey (Keylock.Keys keylock) k = Some id ->
  let after := snd (assureEach keylock values) in
  (exists added,
      Keylock.Keys after = Keylock.Keys keylock ++ added
      /\ (List.length added <= List.length values)%nat)
  /\ AssureKey after k = (id, after).
Proof.
  intros Hk. cbv zeta.
  destruct (assureEach_extends values keylock) as [added [Ha Hl]].
  split; [exists added; split; assumption|].
  apply AssureKey_known. rewrite Ha. apply findKey_kept. exact Hk.
Qed.

Lemma AssureKey_append_only_witness :
  findKey (Keylock.Keys Reference.keylock) "TAG:go" = Some 2
  /\ AssureKey (snd (assureEach Reference.keylock ["POST:z"; "TAG:go"; "TAG:y"])) "TAG:go"
     = (2, snd (assureEach Reference.keylock ["POST:z"; "TAG:go"; "TAG:y"])).
Proof.
  split; [reflexivity|].
  exact (proj2 (AssureKey_append_only Reference.keylock ["POST:z"; "TAG:go"; "TAG:y"]
                  "TAG:go" 2 eq_refl)).
Defined.

Lemma oneTo_S (n : nat) : oneTo (S n) = oneTo n ++ [Z.of_nat (S n)].
Proof. unfold oneTo. rewrite seq_S, map_app. reflexivity. Qed.

Lemma AssureKey_numbered (keylock : Keylock.t) (value : string) :
  numbered keylock -> numbered (snd (AssureKey keylock value)).
Proof.
  unfold numbered, AssureKey. intros H.
  destruct (findKey (Keylock.Keys keylock) value); simpl; [exact H|].
  rewrite map_app, length_app, H. simpl.
  replace (List.length (Keylock.Keys keylock) + 1)%nat
    with (S (List.length (Keylock.Keys keylock))) by lia.
  rewrite oneTo_S. f_equal. f_equal. lia.
Qed.

Lemma assureEach_numbered (values : list string) :
  forall keylock, numbered keylock -> numbered (snd (assureEach keylock values)).
Proof.
  induction values as [|value r IH]; intros keylock H; simpl; [exact H|].
  pose proof (AssureKey_numbered keylock value H) as H1.
  destruct (AssureKey keylock value) as [id kl1]. simpl in H1.
  specialize (IH kl1 H1). destruct (assureEach kl1 r). exact IH.
Qed.

Lemma findKey_In (keys : list Key.t) (k : string) (id : Z) :
  findKey keys k = Some id -> In (Key.mk id k) keys.
Proof.
  induction keys as [|key r IH]; simpl; [discriminate|].
  destruct (String.eqb_spec (Key.Value key) k) as [Heq|_].
  - intros H. inversion H; subst. left. destruct key. reflexivity.
  - intros H. right. apply IH. exact H.
Qed.

Lemma NoDup_map_eq {A B : Type} (f : A -> B) (l : list A) (x y : A) :
  NoDup (map f l) -> In x l -> In y l -> f x = f y -> x = y.
Proof.
  induction l as [|a r IH]; simpl; intros Hnd Hx Hy Hf; [contradiction|].
  inversion Hnd as [|? ? Hnotin Hnd']; subst.
  destruct Hx as [Hx|Hx]; destruct Hy as [Hy|Hy]; subst.
  - reflexivity.
  - exfalso. apply Hnotin. rewrite Hf. apply in_map. exact Hy.
  - exfalso. apply Hnotin. rewrite <- Hf. apply in_map. exact Hx.
  - apply IH; assumption.
Qed.

(** X2.  In a registry built from the empty one by [AssureKey] calls,
    two different keys never get the same id. *)
Theorem AssureKey_injective (values : list string) (k1 k2 : string) :
  k1 <> k2 ->
  let keylock := snd (assureEach (Keylock.mk []) values) in
  let first := AssureKey keylock k1 in
  let second := AssureKey (snd first) k2 in
  fst first <> fst second.
Proof.
  intros Hne. cbv zeta.
  set (keylock := snd (assureEach (Keylock.mk []) values)).
  assert (Hn : numbered keylock) by (apply assureEach_numbered; reflexivity).
  pose proof (AssureKey_numbered keylock k1 Hn) as Hn1.
  pose proof (AssureKey_finds keylock k1) as Hf1.
  pose proof (AssureKey_numbered (snd (AssureKey keylock k1)) k2 Hn1) as Hn2.
  pose proof (AssureKey_finds (snd (AssureKey keylock k1)) k2) as Hf2.
  destruct (AssureKey_extends (snd (AssureKey keylock k1)) k2) as [added [Hext _]].
  destruct (AssureKey keylock k1) as [id1 kl1]. simpl in *.
  destruct (AssureKey kl1 k2) as [id2 kl2]. simpl in *.
  intros Heq. subst id2. apply Hne.
  apply findKey_In in Hf2.
  apply (findKey_kept _ added) in Hf1. rewrite <- Hext in Hf1. apply findKey_In in Hf1.
  assert (Hnd : NoDup (map Key.ID (Keylock.Keys kl2)))
    by (rewrite Hn2; apply oneTo_NoDup).
  pose proof (NoDup_map_eq Key.ID _ _ _ Hnd Hf1 Hf2 eq_refl) as H.
  inversion H. reflexivity.
Qed.

Lemma AssureKey_injective_witness :
  "POST:a" <> "TAG:a"
  /\ fst (AssureKey (snd (assureEach (Keylock.mk []) ["POST:a"; "POST:b"])) "POST:a")
     <> fst (AssureKey
               (snd (AssureKey (snd (assureEach (Keylock.mk []) ["POST:a"; "POST:b"]))
                       "POST:a"))
               "TAG:a").
Proof.
  assert (H : "POST:a" <> "TAG:a") by discriminate.
  split; [exact H|].
  exact (AssureKey_injective ["POST:a"; "POST:b"] "POST:a" "TAG:a" H).
Defined.

(** X3.  The new id is the number of entries plus one, whatever the
    ids of the entries are.  In a registry that holds that number
    already (a lock file with an entry taken out by hand), a new key is
    given an id that another key has. *)
Theorem AssureKey_reuses_id_after_edit (keylock : Keylock.t) (value : string) :
  findKey (Keylock.Keys keylock) value = None ->
  In (Z.of_nat (List.length (Keylock.Keys keylock)) + 1)
     (map Key.ID (Keylock.Keys keylock)) ->
  exists other,
    In other (Keylock.Keys keylock)
    /\ Key.Value other <> value
    /\ Key.ID other = fst (AssureKey keylock value)
    /\ findKey (Keylock.Keys (snd (AssureKey keylock value))) value = Some (Key.ID other).
Proof.
  intros Hnew Hin.
  apply in_map_iff in Hin as [other [Hid Hother]].
  exists other. split; [exact Hother|]. split.
  - intros Hv. clear Hid.
    induction (Keylock.Keys keylock) as [|key r IH]; simpl in *; [contradiction|].
    destruct (String.eqb_spec (Key.Value key) value) as [Heq|Hneq]; [discriminate|].
    destruct Hother as [Ho|Ho]; [subst; contradiction | exact (IH Hnew Ho)].
  - pose proof (AssureKey_finds keylock value) as Hf.
    unfold AssureKey in *. rewrite Hnew in *. simpl in *.
    split; [exact Hid | rewrite Hf, Hid; reflexivity].
Qed.

Lemma AssureKey_reuses_id_after_edit_witness :
  findKey [Key.mk 1 "POST:a"; Key.mk 3 "POST:c"] "POST:d" = None
  /\ In (Z.of_nat (List.length [Key.mk 1 "POST:a"; Key.mk 3 "POST:c"]) + 1)
        (map Key.ID [Key.mk 1 "POST:a"; Key.mk 3 "POST:c"])
  /\ exists other,
       In other [Key.mk 1 "POST:a"; Key.mk 3 "POST:c"]
       /\ Key.Value other <> "POST:d"
       /\ Key.ID other
          = fst (AssureKey (Keylock.mk [Key.mk 1 "POST:a"; Key.mk 3 "POST:c"]) "POST:d").
Proof.
  assert (H1 : findKey [Key.mk 1 "POST:a"; Key.mk 3 "POST:c"] "POST:d" = None)
    by reflexivity.
  assert (H2 : In (Z.of_nat (List.length [Key.mk 1 "POST:a"; Key.mk 3 "POST:c"]) + 1)
                 (map Key.ID [Key.mk 1 "POST:a"; Key.mk 3 "POST:c"]))
    by (simpl; right; left; reflexivity).
  split; [exact H1|]. split; [exact H2|].
  destruct (AssureKey_reuses_id_after_edit
              (Keylock.mk [Key.mk 1 "POST:a"; Key.mk 3 "POST:c"]) "POST:d" H1 H2)
    as [other [Ho [Hv [Hi _]]]].
  exists other. repeat split; assumption.
Defined.

Lemma parseKeys_numeric (before rest : list etree.Element) (entries : list Key.t) :
  map keyOfElement before = map Some entries ->
  forall keys, parseKeys (before ++ rest) keys = parseKeys rest (keys ++ entries).
Proof.
  revert entries. induction before as [|e r IH]; intros entries H keys.
  - destruct entries; [|discriminate]. simpl. rewrite app_nil_r. reflexivity.
  - destruct entries as [|entry entries]; [discriminate|]. simpl in H.
    injection H as He Hr. unfold keyOfElement in He. simpl.
    destruct (strconv.Atoi (etree.SelectAttrValue e "id" "")) as [err|n]; [discriminate|].
    injection He as He. subst entry.
    rewrite (IH entries Hr). rewrite <- app_assoc. reflexivity.
Qed.

(** X4.  A lock file is loaded whole or not at all.  When the [key]
    elements before one have numeric ids and that one has an id that
    [Atoi] refuses (not a decimal number, out of range, or no id at
    all), [GetKeylock] returns the error that names the id, and no
    registry. *)
Theorem GetKeylock_invalid_id
    (env : Env) (fs : Files) (text : string) (d lock bad : etree.Element)
    (before after : list etree.Element) (entries : list Key.t) (err : error) :
  readFile fs lockFilePath = Some text ->
  ReadFrom env etree.NewDocument text = (d, None) ->
  etree.SelectElement d "lock" = Some lock ->
  etree.SelectElements lock "key" = before ++ bad :: after ->
  map keyOfElement before = map Some entries ->
  strconv.Atoi (etree.SelectAttrValue bad "id" "") = inl err ->
  GetKeylock env fs
  = Err (wrapError ("invalid id '" +++ etree.SelectAttrValue bad "id" ""
                    +++ "' in lock file: ") err).
Proof.
  intros Hfile Hread Hlock Hkeys Hbefore Hbad.
  unfold GetKeylock. rewrite Hfile, Hread, Hlock, Hkeys.
  rewrite (parseKeys_numeric before (bad :: after) entries Hbefore).
  simpl. rewrite Hbad. reflexivity.
Qed.

(** ** More of the taxonomy *)

Lemma assureKnownLabel_None (tags : list Tag.t) (label : string) (document : Z) :
  assureKnownLabel tags label document = None <-> knownKey tags label = None.
Proof.
  induction tags as [|tag r IH]; simpl; [tauto|].
  destruct (String.eqb (Tag.Label tag) label).
  - destruct (mentioned (Tag.Mentions tag) document); split; discriminate.
  - destruct (assureKnownLabel r label document) as [[k r']|].
    + split; [discriminate|]. intros H. apply IH in H. discriminate.
    + split; [intros _; apply IH; reflexivity | reflexivity].
Qed.

(** A call that finds the label returns the key of the tag and leaves
    every label and key where it was. *)
Lemma assureKnownLabel_Some (tags : list Tag.t) (label : string) (document : Z) :
  forall key tags',
    assureKnownLabel tags label document = Some (key, tags') ->
    knownKey tags label = Some key
    /\ map Tag.Label tags' = map Tag.Label tags
    /\ map Tag.Key tags' = map Tag.Key tags.
Proof.
  induction tags as [|tag r IH]; intros key tags' H; simpl in *; [discriminate|].
  destruct (String.eqb (Tag.Label tag) label).
  - destruct (mentioned (Tag.Mentions tag) document); inversion H; subst;
      repeat split.
  - destruct (assureKnownLabel r label document) as [[k r']|]; [|discriminate].
    inversion H; subst. destruct (IH _ _ eq_refl) as [H1 [H2 H3]].
    simpl. rewrite H2, H3. repeat split. exact H1.
Qed.

Lemma knownKey_labels (tags tags' : list Tag.t) :
  map Tag.Label tags' = map Tag.Label tags ->
  map Tag.Key tags' = map Tag.Key tags ->
  forall label, knownKey tags' label = knownKey tags label.
Proof.
  revert tags'. induction tags as [|t r IH]; intros [|t' r'] Hl Hk label;
    try discriminate; [reflexivity|].
  simpl in *. injection Hl as Hl1 Hl2. injection Hk as Hk1 Hk2.
  rewrite Hl1, Hk1, (IH r' Hl2 Hk2). reflexivity.
Qed.

Lemma knownKey_app (tags more : list Tag.t) (label : string) (key : Z) :
  knownKey tags label = Some key -> knownKey (tags ++ more) label = Some key.
Proof.
  induction tags as [|t r IH]; simpl; [discriminate|].
  destruct (String.eqb (Tag.Label t) label); [intros H; exact H | exact IH].
Qed.

Lemma knownKey_None_notin (tags : list Tag.t) (label : string) :
  knownKey tags label = None -> ~ In label (map Tag.Label tags).
Proof.
  induction tags as [|t r IH]; simpl; [tauto|].
  destruct (String.eqb_spec (Tag.Label t) label) as [Heq|Hne]; [discriminate|].
  intros H [Hin|Hin]; [contradiction | exact (IH H Hin)].
Qed.

(** A call leaves the key of every known label as it was. *)
Lemma AssureLabelFromDocument_keeps_key
    (taxonomy : Taxonomy.t) (label other : string) (document key : Z) :
  knownKey (Taxonomy.Tags taxonomy) other = Some key ->
  knownKey (Taxonomy.Tags (snd (AssureLabelFromDocument taxonomy label document))) other
  = Some key.
Proof.
  intros H. unfold AssureLabelFromDocument.
  destruct (assureKnownLabel (Taxonomy.Tags taxonomy) label document) as [[k tags']|] eqn:E.
  - destruct (assureKnownLabel_Some _ _ _ _ _ E) as [_ [Hl Hk]]. simpl.
    rewrite (knownKey_labels _ _ Hl Hk). exact H.
  - destruct (AssureKey (Taxonomy.Keylock taxonomy) ("TAG:" +++ label)). simpl.
    apply knownKey_app. exact H.
Qed.

Lemma runCalls_keeps_key (calls : list call) (label : string) (key : Z) :
  forall taxonomy,
    knownKey (Taxonomy.Tags taxonomy) label = Some key ->
    knownKey (Taxonomy.Tags (runCalls taxonomy calls)) label = Some key.
Proof.
  unfold runCalls. induction calls as [|c r IH]; intros taxonomy H; simpl; [exact H|].
  apply IH. destruct c as [value|l d]; simpl; [exact H|].
  apply AssureLabelFromDocument_keeps_key. exact H.
Qed.

Lemma AssureLabelFromDocument_knows (taxonomy : Taxonomy.t) (label : string) (document : Z) :
  knownKey (Taxonomy.Tags (snd (AssureLabelFromDocument taxonomy label document))) label
  = Some (fst (AssureLabelFromDocument taxonomy label document)).
Proof.
  unfold AssureLabelFromDocument.
  destruct (assureKnownLabel (Taxonomy.Tags taxonomy) label document) as [[k tags']|] eqn:E.
  - destruct (assureKnownLabel_Some _ _ _ _ _ E) as [Hk [Hl Hkeys]]. simpl.
    rewrite (knownKey_labels _ _ Hl Hkeys). exact Hk.
  - apply assureKnownLabel_None in E.
    destruct (AssureKey (Taxonomy.Keylock taxonomy) ("TAG:" +++ label)) as [key kl]. simpl.
    induction (Taxonomy.Tags taxonomy) as [|t r IH]; simpl in *.
    + rewrite String.eqb_refl. reflexivity.
    + destruct (String.eqb (Tag.Label t) label); [discriminate | exact (IH E)].
Qed.

Lemma AssureLabelFromDocument_known
    (taxonomy : Taxonomy.t) (label : string) (document key : Z) :
  knownKey (Taxonomy.Tags taxonomy) label = Some key ->
  fst (AssureLabelFromDocument taxonomy label document) = key.
Proof.
  intros H. unfold AssureLabelFromDocument.
  destruct (assureKnownLabel (Taxonomy.Tags taxonomy) label document) as [[k tags']|] eqn:E.
  - destruct (assureKnownLabel_Some _ _ _ _ _ E) as [Hk _]. simpl. congruence.
  - apply assureKnownLabel_None in E. congruence.
Qed.

(** X5.  A label keeps its tag id for the whole build: once
    [AssureLabelFromDocument] has returned an id for a label, it returns
    that id for the label again, for any post and after any other
    calls. *)
Theorem AssureLabelFromDocument_stable
    (taxonomy : Taxonomy.t) (label : string) (d1 d2 : Z) (calls : list call) :
  let first := AssureLabelFromDocument taxonomy label d1 in
  fst (AssureLabelFromDocument (runCalls (snd first) calls) label d2) = fst first.
Proof.
  cbv zeta. apply AssureLabelFromDocument_known. apply runCalls_keeps_key.
  apply AssureLabelFromDocument_knows.
Qed.

(** X6.  A call records the mention in the tag of its label and
    touches the mentions of no other label: the mentions of the label
    gain the post at the end unless they hold it, and a label that had
    no tag has the post as its only mention. *)
Theorem AssureLabelFromDocument_mentions
    (taxonomy : Taxonomy.t) (label other : string) (document : Z) :
  mentionsOf (Taxonomy.Tags (snd (AssureLabelFromDocument taxonomy label document))) other
  = if String.eqb other label then
      if mentioned (mentionsOf (Taxonomy.Tags taxonomy) label) document
      then mentionsOf (Taxonomy.Tags taxonomy) label
      else mentionsOf (Taxonomy.Tags taxonomy) label ++ [document]
    else mentionsOf (Taxonomy.Tags taxonomy) other.
Proof.
  unfold AssureLabelFromDocument.
  destruct (assureKnownLabel (Taxonomy.Tags taxonomy) label document) as [[k tags']|] eqn:E.
  - simpl. revert k tags' E.
    induction (Taxonomy.Tags taxonomy) as [|t r IH]; intros k tags' E; simpl in *;
      [discriminate|].
    destruct (String.eqb_spec (Tag.Label t) label) as [Heq|Hne].
    + destruct (mentioned (Tag.Mentions t) document) eqn:Em; inversion E; subst; simpl.
      * destruct (String.eqb_spec (Tag.Label t) other) as [Ho|Ho].
        -- rewrite <- Ho, String.eqb_refl. reflexivity.
        -- destruct (String.eqb_spec other (Tag.Label t)); [congruence | reflexivity].
      * destruct (String.eqb_spec (Tag.Label t) other) as [Ho|Ho].
        -- rewrite <- Ho, String.eqb_refl. reflexivity.
        -- destruct (String.eqb_spec other (Tag.Label t)); [congruence | reflexivity].
    + destruct (assureKnownLabel r label document) as [[k' r']|] eqn:E'; [|discriminate].
      inversion E; subst. simpl.
      destruct (String.eqb_spec (Tag.Label t) other) as [Ho|Ho].
      * destruct (String.eqb_spec other label); [congruence | reflexivity].
      * apply (IH _ _ eq_refl).
  - destruct (AssureKey (Taxonomy.Keylock taxonomy) ("TAG:" +++ label)) as [key kl]. simpl.
    induction (Taxonomy.Tags taxonomy) as [|t r IH]; simpl in *.
    + destruct (String.eqb_spec label other) as [Ho|Ho].
      * subst. rewrite String.eqb_refl. reflexivity.
      * destruct (String.eqb_spec other label); [congruence | reflexivity].
    + destruct (String.eqb_spec (Tag.Label t) label) as [Heq|Hne].
      * destruct (mentioned (Tag.Mentions t) document); discriminate.
      * destruct (assureKnownLabel r label document) as [[k' r']|] eqn:E'; [discriminate|].
        destruct (String.eqb_spec (Tag.Label t) other) as [Ho|Ho].
        -- destruct (String.eqb_spec other label); [congruence | reflexivity].
        -- apply IH. reflexivity.
Qed.

(** The tags of a taxonomy have distinct labels, and each has the id
    the registry holds for its label. *)
Lemma runCall_sound (taxonomy : Taxonomy.t) (c : call) :
  sound taxonomy -> sound (runCall taxonomy c).
Proof.
  intros [Hnd Hreg]. destruct c as [value|label document]; simpl.
  - split; [exact Hnd|]. simpl.
    destruct (AssureKey_extends (Taxonomy.Keylock taxonomy) value) as [added [Ha _]].
    rewrite Ha. eapply Forall_impl; [|exact Hreg].
    intros t Ht. apply findKey_kept. exact Ht.
  - unfold AssureLabelFromDocument.
    destruct (assureKnownLabel (Taxonomy.Tags taxonomy) label document)
      as [[k tags']|] eqn:E.
    + destruct (assureKnownLabel_Some _ _ _ _ _ E) as [_ [Hl Hk]]. simpl.
      unfold sound. simpl. rewrite Hl. split; [exact Hnd|].
      clear E Hnd. revert tags' Hl Hk.
      induction Hreg as [|t r Ht Hr IH]; intros [|t' r'] Hl Hk; try discriminate;
        constructor.
      * simpl in Hl, Hk. injection Hl as Hl1 _. injection Hk as Hk1 _.
        rewrite Hl1, Hk1. exact Ht.
      * simpl in Hl, Hk. injection Hl as _ Hl2. injection Hk as _ Hk2.
        apply IH; assumption.
    + apply assureKnownLabel_None in E.
      pose proof (AssureKey_finds (Taxonomy.Keylock taxonomy) ("TAG:" +++ label)) as Hf.
      destruct (AssureKey_extends (Taxonomy.Keylock taxonomy) ("TAG:" +++ label))
        as [added [Ha _]].
      destruct (AssureKey (Taxonomy.Keylock taxonomy) ("TAG:" +++ label)) as [key kl].
      simpl in *. split; simpl.
      * rewrite map_app. simpl.
        rewrite <- (rev_involutive (map Tag.Label (Taxonomy.Tags taxonomy) ++ [label])).
        apply NoDup_rev. rewrite rev_app_distr. simpl. constructor.
        -- rewrite <- in_rev. apply knownKey_None_notin. exact E.
        -- apply NoDup_rev. exact Hnd.
      * apply Forall_app. split.
        -- rewrite Ha. eapply Forall_impl; [|exact Hreg].
           intros t Ht. apply findKey_kept. exact Ht.
        -- constructor; [exact Hf | constructor].
Qed.

(** X7.  In every taxonomy reached from [GetTaxonomy], no two tags have
    the same label, and the id of each tag is the id the registry
    holds for the key [TAG:] followed by the label. *)
Theorem Taxonomy_sound (keylock : Keylock.t) (calls : list call) :
  let taxonomy := runCalls (GetTaxonomy keylock) calls in
  NoDup (map Tag.Label (Taxonomy.Tags taxonomy))
  /\ Forall (fun tag =>
               findKey (Keylock.Keys (Taxonomy.Keylock taxonomy)) ("TAG:" +++ Tag.Label tag)
               = Some (Tag.Key tag))
       (Taxonomy.Tags taxonomy).
Proof.
  cbv zeta. unfold runCalls.
  assert (H : forall taxonomy, sound taxonomy -> sound (fold_left runCall calls taxonomy)).
  { induction calls as [|c r IH]; intros taxonomy Hs; simpl; [exact Hs|].
    apply IH. apply runCall_sound. exact Hs. }
  apply (H (GetTaxonomy keylock)). split; constructor.
Qed.

Lemma GetKeylock_invalid_id_witness :
  GetKeylock Reference.env Samples.badLock
  = Err (wrapError "invalid id 'x7' in lock file: " (NumError "Atoi" "x7" false)).
Proof.
  eapply (GetKeylock_invalid_id Reference.env Samples.badLock _ _ _
            (etree.mkElement "key" [etree.mkAttr "id" "x7"; etree.mkAttr "value" "POST:b"] [])
            [etree.mkElement "key" [etree.mkAttr "id" "1"; etree.mkAttr "value" "POST:a"] []]
            [] [Key.mk 1 "POST:a"]).
  - reflexivity.
  - vm_compute. reflexivity.
  - reflexivity.
  - reflexivity.
  - reflexivity.
  - reflexivity.
Defined.

(** ** More of the addresses *)

Lemma hexValue_digit (d : Z) (r : string) (n : Z) :
  0 <= d < 16 ->
  hexValue (String (strconv.digit d) r) n = hexValue r (n * 16 + d).
Proof.
  intros H. simpl. rewrite lowerHexValue_digit by exact H. reflexivity.
Qed.

Lemma hexValue_digitsOf (f : nat) :
  forall u acc,
    0 <= u < 16 ^ Z.of_nat f ->
    hexValue (strconv.digitsOf f 16 u acc) 0 = hexValue acc u.
Proof.
  induction f as [|f IH]; intros u acc Hu.
  - simpl in Hu. assert (u = 0) by lia. subst. reflexivity.
  - rewrite Nat2Z.inj_succ, Z.pow_succ_r in Hu by lia.
    simpl. destruct (Z.ltb_spec u 16) as [Hlt|Hge].
    + rewrite hexValue_digit by lia. f_equal.
    + rewrite IH.
      * rewrite hexValue_digit by (apply Z.mod_pos_bound; lia).
        f_equal. rewrite Z.mul_comm. symmetry. apply Z.div_mod. lia.
      * split; [apply Z.div_pos; lia | apply Z.div_lt_upper_bound; lia].
Qed.

Lemma hexValue_zeros (k : nat) (s : string) :
  hexValue (fmt.zeros k +++ s) 0 = hexValue s 0.
Proof. induction k as [|k IH]; simpl; [reflexivity | exact IH]. Qed.

Lemma addressId_digits (digits : string) (u : Z) :
  hexValue digits 0 = Some u -> addressId ("0x" +++ digits) = Some u.
Proof.
  intros H. change ("0x" +++ digits) with (String "0" (String "x" digits)).
  unfold addressId. rewrite H. reflexivity.
Qed.

Lemma addressId_signed (digits : string) (u : Z) :
  hexValue digits 0 = Some u -> addressId ("0x" +++ String "-" digits) = Some (- u).
Proof.
  intros H.
  change ("0x" +++ String "-" digits) with (String "0" (String "x" (String "-" digits))).
  unfold addressId.
  change (hexValue (String "-" digits) 0) with (@None Z).
  cbv beta iota. rewrite H. reflexivity.
Qed.

(** The id can be read back from the address. *)
Lemma addressId_KeyIDToHex (id : Z) :
  strconv.isInt id -> addressId (KeyIDToHex id) = Some id.
Proof.
  unfold strconv.isInt, strconv.minInt, strconv.maxInt. intros H.
  assert (Hfuel : 2 ^ 63 < 16 ^ Z.of_nat 65) by (vm_compute; reflexivity).
  assert (Hdigits : forall k,
             hexValue (fmt.zeros k +++ strconv.digitsOf 65 16 (Z.abs id) EmptyString) 0
             = Some (Z.abs id)).
  { intros k. rewrite hexValue_zeros, hexValue_digitsOf by lia. reflexivity. }
  unfold KeyIDToHex, fmt.fmtInteger_x, strconv.formatBits.
  destruct (Z.ltb_spec id 0) as [Hneg|Hpos].
  - rewrite (addressId_signed _ _ (Hdigits _)). f_equal. lia.
  - rewrite (addressId_digits _ _ (Hdigits _)). f_equal. lia.
Qed.

(** X8.  Two different ids never get the same address, inside the four
    digits or outside: an id above 65535 is written with more digits, a
    negative id with its sign, and nothing is cut off. *)
Theorem KeyIDToHex_injective (a b : Z) :
  strconv.isInt a -> strconv.isInt b -> a <> b -> KeyIDToHex a <> KeyIDToHex b.
Proof.
  intros Ha Hb Hne Heq. apply Hne.
  apply addressId_KeyIDToHex in Ha. apply addressId_KeyIDToHex in Hb.
  rewrite Heq in Ha. congruence.
Qed.

Lemma KeyIDToHex_injective_witness :
  strconv.isInt 1 /\ strconv.isInt 65537 /\ 1 <> 65537
  /\ KeyIDToHex 1 <> KeyIDToHex 65537.
Proof.
  assert (H1 : strconv.isInt 1)
    by (unfold strconv.isInt, strconv.minInt, strconv.maxInt; simpl; lia).
  assert (H2 : strconv.isInt 65537)
    by (unfold strconv.isInt, strconv.minInt, strconv.maxInt; simpl; lia).
  assert (H3 : 1 <> 65537) by lia.
  split; [exact H1|]. split; [exact H2|]. split; [exact H3|].
  exact (KeyIDToHex_injective 1 65537 H1 H2 H3).
Defined.

(** ** More of the copy *)

Lemma setAttr_existsb (attrs : list etree.attribute) (key value x : string) :
  existsb (fun b => String.eqb (etree.Key b) x) (etree.setAttr attrs key value)
  = existsb (fun b => String.eqb (etree.Key b) x) attrs || String.eqb key x.
Proof.
  induction attrs as [|b r IH]; simpl.
  - rewrite orb_false_r. reflexivity.
  - destruct (String.eqb_spec (etree.Key b) key) as [Heq|Hne]; simpl.
    + subst key. destruct (String.eqb (etree.Key b) x); simpl; [reflexivity|].
      rewrite orb_false_r. reflexivity.
    + rewrite IH, orb_assoc. reflexivity.
Qed.

Lemma setAttr_distinct (attrs : list etree.attribute) (key value : string) :
  distinctKeys attrs = true -> distinctKeys (etree.setAttr attrs key value) = true.
Proof.
  induction attrs as [|b r IH]; simpl; intros H; [reflexivity|].
  apply andb_prop in H as [Hb Hr].
  destruct (String.eqb_spec (etree.Key b) key) as [Heq|Hne]; simpl.
  - subst key. rewrite Hb, Hr. reflexivity.
  - rewrite (IH Hr), setAttr_existsb. apply negb_true_iff in Hb. rewrite Hb. simpl.
    destruct (String.eqb_spec key (etree.Key b)); [congruence | reflexivity].
Qed.

Lemma copyAttrs_distinctKeys (attrs : list etree.attribute) :
  distinctKeys (copyAttrs attrs) = true.
Proof.
  unfold copyAttrs.
  assert (H : forall acc,
             distinctKeys acc = true ->
             distinctKeys
               (fold_left (fun acc a => etree.setAttr acc (etree.Key a) (etree.Value a))
                  attrs acc) = true).
  { induction attrs as [|a r IH]; intros acc Hacc; simpl; [exact Hacc|].
    apply IH. apply setAttr_distinct. exact Hacc. }
  apply H. reflexivity.
Qed.

Lemma copyOf_is_plain : forall e : etree.Element, plain (copyOf e) = true.
Proof.
  fix IH 1. intros [tag attrs children]. unfold copyOf. simpl.
  rewrite copyAttrs_distinctKeys. simpl.
  induction children as [|t r IHr]; [reflexivity|].
  destruct t as [x|data|]; simpl.
  - rewrite IHr, andb_true_r. exact (IH x).
  - exact IHr.
  - exact IHr.
Qed.

(** X9.  A copy made by [copyElementChildren] holds, at every depth,
    elements and character data only and one attribute per key:
    comments are gone, a repeated key keeps its last value.  Copying a
    copy changes nothing. *)
Theorem copyOf_normal (e : etree.Element) :
  plain (copyOf e) = true /\ copyOf (copyOf e) = copyOf e.
Proof.
  split; [apply copyOf_is_plain|]. apply copyOf_plain. apply copyOf_is_plain.
Qed.

(** ** More of the parser: the metadata lines *)

Lemma append_assoc (a b c : string) : (a +++ b) +++ c = a +++ (b +++ c).
Proof. induction a as [|x a IH]; simpl; [reflexivity | rewrite IH; reflexivity]. Qed.

Lemma append_nil_r (a : string) : a +++ EmptyString = a.
Proof. induction a as [|x a IH]; simpl; [reflexivity | rewrite IH; reflexivity]. Qed.

Lemma append_length (a b : string) :
  String.length (a +++ b) = (String.length a + String.length b)%nat.
Proof. induction a as [|x a IH]; simpl; [reflexivity | rewrite IH; reflexivity]. Qed.

Lemma spanNonQuote_app (t rest : string) (q : ascii) :
  freeOf regex.isQuote t = true -> regex.isQuote q = true ->
  regex.spanNonQuote (t +++ String q rest) = (t, String q rest).
Proof.
  intros Ht Hq. induction t as [|c t IH]; simpl in *.
  - rewrite Hq. reflexivity.
  - apply andb_prop in Ht as [Hc Ht]. apply negb_true_iff in Hc.
    rewrite Hc, (IH Ht). reflexivity.
Qed.

Lemma quoted_app (t rest : string) (q : ascii) :
  titleText t = true -> regex.isQuote q = true ->
  regex.quoted (inQuotes q t +++ rest) = Some (t, rest).
Proof.
  unfold titleText, inQuotes. intros Ht Hq. apply andb_prop in Ht as [Hne Hfree].
  simpl. rewrite Hq. rewrite append_assoc. simpl.
  rewrite (spanNonQuote_app t rest q Hfree Hq).
  destruct t; [discriminate | reflexivity].
Qed.

Lemma findTitle_unfold (s : string) :
  regex.findTitle s
  = match (if strings.HasPrefix s "title:"
           then option_map fst (regex.quoted (regex.skipSpaces (strings.drop 6 s)))
           else None) with
    | Some g => Some g
    | None => match s with
              | EmptyString => None
              | String _ r => regex.findTitle r
              end
    end.
Proof. destruct s; reflexivity. Qed.

Lemma findTags_unfold (s : string) :
  regex.findTags s
  = match (if strings.HasPrefix s "tags:" then
             match regex.skipSpaces (strings.drop 5 s) with
             | String "[" r => regex.upToBracket r
             | _ => None
             end
           else None) with
    | Some g => Some g
    | None => match s with
              | EmptyString => None
              | String _ r => regex.findTags r
              end
    end.
Proof. destruct s; reflexivity. Qed.

Lemma upToBracket_app (inner rest : string) :
  freeOf endsTags inner = true ->
  regex.upToBracket (inner +++ String "]" rest) = Some inner.
Proof.
  intros H. induction inner as [|c t IH]; simpl in *; [reflexivity|].
  apply andb_prop in H as [Hc Ht]. apply negb_true_iff in Hc.
  unfold endsTags in Hc. apply orb_false_elim in Hc as [H1 H2].
  rewrite H1, H2, (IH Ht). reflexivity.
Qed.

Lemma freeOf_app (p : ascii -> bool) (a b : string) :
  freeOf p (a +++ b) = freeOf p a && freeOf p b.
Proof.
  induction a as [|c a IH]; simpl; [reflexivity|].
  rewrite IH, andb_assoc. reflexivity.
Qed.

(** The text of a tag list: the tags in quotes, a comma and a space
    between them. *)
Lemma tagList_free (q : ascii) (tags : list string) :
  regex.isQuote q = true ->
  Forall (fun t => tagText t = true) tags ->
  freeOf endsTags (strings.Join (map (inQuotes q) tags) ", ") = true.
Proof.
  intros Hq H.
  assert (Hqf : endsTags q = false).
  { unfold regex.isQuote in Hq. unfold endsTags.
    destruct (Ascii.eqb_spec q "'"%char) as [->|_]; [reflexivity|].
    destruct (Ascii.eqb_spec q (ascii_of_nat 34)) as [->|_]; [reflexivity | discriminate]. }
  assert (Hone : forall t, tagText t = true -> freeOf endsTags (inQuotes q t) = true).
  { intros t Ht. unfold tagText in Ht. apply andb_prop in Ht as [_ Ht].
    unfold inQuotes. simpl. rewrite Hqf, freeOf_app, Ht. simpl. rewrite Hqf. reflexivity. }
  induction H as [|t r Ht Hr IH]; [reflexivity|].
  destruct r as [|t' r'].
  - simpl. apply Hone. exact Ht.
  - change (strings.Join (map (inQuotes q) (t :: t' :: r')) ", ")
      with (inQuotes q t +++ ", " +++ strings.Join (map (inQuotes q) (t' :: r')) ", ").
    rewrite !freeOf_app, (Hone t Ht), IH. reflexivity.
Qed.

Lemma findAllQuoted_tagList (q : ascii) (tags : list string) :
  regex.isQuote q = true ->
  Forall (fun t => tagText t = true) tags ->
  forall fuel,
    (String.length (strings.Join (map (inQuotes q) tags) ", ") < fuel)%nat ->
    regex.findAllQuotedFrom fuel (strings.Join (map (inQuotes q) tags) ", ") = tags.
Proof.
  intros Hq H. induction H as [|t r Ht Hr IH]; intros fuel Hfuel.
  - destruct fuel; reflexivity.
  - assert (Htt : titleText t = true)
      by (unfold tagText in Ht; apply andb_prop in Ht as [Ht _]; exact Ht).
    destruct r as [|t' r'].
    + change (strings.Join (map (inQuotes q) [t]) ", ") with (inQuotes q t) in *.
      destruct fuel as [|fuel]; [lia|].
      change (regex.findAllQuotedFrom (S fuel) (inQuotes q t))
        with (match regex.quoted (inQuotes q t) with
              | Some (g, rest') => g :: regex.findAllQuotedFrom fuel rest'
              | None =>
                  match inQuotes q t with
                  | EmptyString => []
                  | String _ r0 => regex.findAllQuotedFrom fuel r0
                  end
              end).
      pose proof (quoted_app t EmptyString q Htt Hq) as Hquoted.
      rewrite append_nil_r in Hquoted. rewrite Hquoted.
      destruct fuel; reflexivity.
    + change (strings.Join (map (inQuotes q) (t :: t' :: r')) ", ")
        with (inQuotes q t +++ ", " +++ strings.Join (map (inQuotes q) (t' :: r')) ", ")
        in *.
      set (rest := strings.Join (map (inQuotes q) (t' :: r')) ", ") in *.
      rewrite append_length in Hfuel.
      change (String.length (", " +++ rest)) with (S (S (String.length rest))) in Hfuel.
      destruct fuel as [|[|[|fuel]]]; try lia.
      change (regex.findAllQuotedFrom (S (S (S fuel))) (inQuotes q t +++ ", " +++ rest))
        with (match regex.quoted (inQuotes q t +++ ", " +++ rest) with
              | Some (g, rest') => g :: regex.findAllQuotedFrom (S (S fuel)) rest'
              | None =>
                  match inQuotes q t +++ ", " +++ rest with
                  | EmptyString => []
                  | String _ r0 => regex.findAllQuotedFrom (S (S fuel)) r0
                  end
              end).
      rewrite (quoted_app t (", " +++ rest) q Htt Hq).
      f_equal.
      change (regex.findAllQuotedFrom (S (S fuel)) (", " +++ rest))
        with (regex.findAllQuotedFrom fuel rest).
      apply IH.
      assert (1 <= String.length (inQuotes q t))%nat by (unfold inQuotes; simpl; lia).
      lia.
Qed.

(** X10.  The metadata lines are read back as written.  A title line
    that starts with [title: ], the title between quotes, and a tags
    line that starts with [tags: ], an opening bracket, the tags each
    between quotes with a comma and a space between them, and a closing
    bracket, give the title and the tags, in order; what follows the
    closing quote of the title or the closing bracket is passed over.
    The quotes may be single or double; the title and the tags are not
    empty and hold no quote, the tags no closing bracket either. *)
Theorem parseMetadata_reads
    (q : ascii) (title after : string) (tags : list string) (after' : string) :
  regex.isQuote q = true ->
  titleText title = true ->
  Forall (fun t => tagText t = true) tags ->
  parseMetadata ("title: " +++ inQuotes q title +++ after)
    ("tags: [" +++ strings.Join (map (inQuotes q) tags) ", " +++ String "]" after')
  = Ok (title, tags).
Proof.
  intros Hq Ht Htags. unfold parseMetadata.
  rewrite findTitle_unfold.
  change (strings.HasPrefix ("title: " +++ inQuotes q title +++ after) "title:") with true.
  cbv iota.
  change (strings.drop 6 ("title: " +++ inQuotes q title +++ after))
    with (String " " (inQuotes q title +++ after)).
  assert (Hskip : regex.skipSpaces (String " " (inQuotes q title +++ after))
                  = inQuotes q title +++ after).
  { unfold inQuotes. simpl.
    assert (Hs : regex.isSpace q = false).
    { unfold regex.isQuote in Hq.
      destruct (Ascii.eqb_spec q "'"%char) as [->|_]; [reflexivity|].
      destruct (Ascii.eqb_spec q (ascii_of_nat 34)) as [->|_]; [reflexivity | discriminate]. }
    rewrite Hs. reflexivity. }
  rewrite Hskip, (quoted_app title after q Ht Hq). simpl option_map. cbv iota.
  rewrite findTags_unfold.
  change (strings.HasPrefix
            ("tags: [" +++ strings.Join (map (inQuotes q) tags) ", " +++ String "]" after')
            "tags:") with true.
  cbv iota.
  change (regex.skipSpaces
            (strings.drop 5
               ("tags: [" +++ strings.Join (map (inQuotes q) tags) ", "
                +++ String "]" after')))
    with (String "[" (strings.Join (map (inQuotes q) tags) ", " +++ String "]" after')).
  cbv iota.
  rewrite (upToBracket_app _ after' (tagList_free q tags Hq Htags)).
  unfold regex.findAllQuoted.
  rewrite (findAllQuoted_tagList q tags Hq Htags) by lia.
  reflexivity.
Qed.

Lemma parseMetadata_reads_witness :
  parseMetadata "title: 'Don't look'" "tags: ['go', 'rocq'] # two"
  = Ok ("Don", ["go"; "rocq"]).
Proof.
  apply (parseMetadata_reads "'"%char "Don" "t look'" ["go"; "rocq"] " # two");
    [reflexivity | reflexivity | repeat constructor].
Defined.

(** ** More of the parser: what a parse can come to *)

Lemma findFence_before (lines : list string) (n : nat) :
  forall e k,
    (e <= k < findFence lines e n)%nat -> isFence (nth k lines EmptyString) = false.
Proof.
  induction n as [|n IH]; intros e k Hk; simpl in Hk; [lia|].
  destruct (isFence (nth e lines EmptyString)) eqn:E; [lia|].
  destruct (Nat.eq_dec k e) as [->|Hne]; [exact E|].
  apply (IH (S e)). lia.
Qed.

Lemma parseCodeBlock_outcome (env : Env) (lines : list string) (i : nat) :
  match parseCodeBlock env lines i with
  | Ok (code, next) => etree.Tag code = "code"
  | Err e => noFenceAfter lines i /\ e = unclosedAt i
  | Panic => exists markdown, rootless env markdown
  end.
Proof.
  unfold parseCodeBlock.
  pose proof (findFence_before lines (List.length lines - (i + 1)) (i + 1)) as Hb.
  destruct (Nat.leb_spec (List.length lines)
              (findFence lines (i + 1) (List.length lines - (i + 1)))) as [Hge|Hlt].
  - split; [|reflexivity]. intros k Hk. apply Hb. lia.
  - unfold processWithPandoc.
    destruct (pandoc env _) as [err|output] eqn:E; [reflexivity|].
    destruct (etree.Root _) eqn:Er; [reflexivity|].
    eexists. exists output. split; [exact E | exact Er].
Qed.

Lemma parseRound_outcome (env : Env) (lines : list string) (i : nat) (body : etree.Element) :
  match parseRound env lines i body with
  | Ok (next, body') =>
      exists ts, body' = appendTokens body ts /\ Forall (fun t => kept t = true) ts
  | Err e =>
      isFence (nth i lines EmptyString) = true /\ noFenceAfter lines i /\ e = unclosedAt i
  | Panic =>
      isFence (nth i lines EmptyString) = true /\ exists markdown, rootless env markdown
  end.
Proof.
  unfold parseRound, isFence.
  destruct (strings.HasPrefix _ "```") eqn:Ef.
  { pose proof (parseCodeBlock_outcome env lines i) as H.
    destruct (parseCodeBlock env lines i) as [[code k]|e|].
    - eexists. split; [reflexivity|]. constructor; [|constructor].
      simpl. rewrite H. reflexivity.
    - destruct H as [H1 H2]. repeat split; assumption.
    - split; [reflexivity | exact H]. }
  destruct (strings.HasPrefix _ "# ");
    [eexists; split; [reflexivity | repeat constructor]|].
  destruct (strings.HasPrefix _ "- ");
    [eexists; split; [reflexivity | repeat constructor]|].
  destruct (strings.HasPrefix _ "> ").
  { unfold linkOf. destruct (strings.Fields _) as [|href rest].
    - exists []. split; [symmetry; apply appendTokens_nil | constructor].
    - eexists. split; [reflexivity | repeat constructor]. }
  destruct (negb _).
  - destruct (collectText lines (S i) (List.length lines - S i) _) as [k textLines].
    eexists. split; [reflexivity | repeat constructor].
  - exists []. split; [symmetry; apply appendTokens_nil | constructor].
Qed.

Lemma parseContentFrom_outcome (env : Env) (lines : list string) (f : nat) :
  forall i body,
    (List.length lines - i < f)%nat ->
    match parseContentFrom env f lines i body with
    | Ok b => exists ts, b = appendTokens body ts /\ Forall (fun t => kept t = true) ts
    | Err e =>
        exists j, (i <= j < List.length lines)%nat
                  /\ isFence (nth j lines EmptyString) = true
                  /\ noFenceAfter lines j /\ e = unclosedAt j
    | Panic =>
        exists j markdown, (i <= j < List.length lines)%nat
                           /\ isFence (nth j lines EmptyString) = true
                           /\ rootless env markdown
    end.
Proof.
  induction f as [|f IH]; intros i body Hf; [lia|]. simpl.
  destruct (Nat.leb_spec (List.length lines) i) as [Hge|Hlt].
  - exists []. split; [symmetry; apply appendTokens_nil | constructor].
  - pose proof (parseRound_outcome env lines i body) as Hr.
    destruct (parseRound env lines i body) as [[next body']|e|] eqn:E.
    + apply parseRound_progress in E. destruct Hr as [t1 [Hb1 Hk1]].
      specialize (IH next body'). 
      assert (Hf' : (List.length lines - next < f)%nat) by lia.
      specialize (IH Hf').
      destruct (parseContentFrom env f lines next body') as [b|e|].
      * destruct IH as [t2 [Hb2 Hk2]]. exists (t1 ++ t2). split.
        -- rewrite Hb2, Hb1. apply appendTokens_app.
        -- apply Forall_app. split; assumption.
      * destruct IH as [j [Hj H]]. exists j. split; [lia | exact H].
      * destruct IH as [j [md [Hj H]]]. exists j, md. split; [lia | exact H].
    + exists i. split; [lia | exact Hr].
    + destruct Hr as [Hfence [md Hmd]]. exists i, md. repeat split; try assumption; lia.
Qed.

(** X11.  What a parse of the content lines can come to.  It succeeds,
    and then it has only added children to the body.  Or it returns the
    error of an unclosed code block, and then the line it names is a
    fence among the lines given, with no fence after it.  Or it panics,
    and then there is a fence among the lines and the converter gave an
    output without an element.  There is no other error, and the loop
    never runs without end. *)
Theorem parseContent_outcome (env : Env) (lines : list string) (body : etree.Element) :
  match parseContent env lines body with
  | Ok b => exists ts, b = appendTokens body ts
  | Err e =>
      exists j, (j < List.length lines)%nat
                /\ isFence (nth j lines EmptyString) = true
                /\ noFenceAfter lines j
                /\ e = unclosedAt j
  | Panic =>
      exists j markdown, (j < List.length lines)%nat
                         /\ isFence (nth j lines EmptyString) = true
                         /\ rootless env markdown
  end.
Proof.
  unfold parseContent.
  pose proof (parseContentFrom_outcome env lines (S (List.length lines)) 0 body) as H.
  assert (Hf : (List.length lines - 0 < S (List.length lines))%nat) by lia.
  specialize (H Hf).
  destruct (parseContentFrom env (S (List.length lines)) lines 0 body) as [b|e|].
  - destruct H as [ts [Hb _]]. exists ts. exact Hb.
  - destruct H as [j [Hj H]]. exists j. split; [lia | exact H].
  - destruct H as [j [md [Hj H]]]. exists j, md. split; [lia | exact H].
Qed.

(** X12.  Content without a code fence always parses: no error, no
    panic, whatever the lines and whatever the converter does. *)
Theorem parseContent_without_fence (env : Env) (lines : list string) (body : etree.Element) :
  (forall line, In line lines -> isFence line = false) ->
  exists ts, parseContent env lines body = Ok (appendTokens body ts).
Proof.
  intros Hno. unfold parseContent.
  pose proof (parseContentFrom_outcome env lines (S (List.length lines)) 0 body) as H.
  assert (Hf : (List.length lines - 0 < S (List.length lines))%nat) by lia.
  specialize (H Hf).
  destruct (parseContentFrom env (S (List.length lines)) lines 0 body) as [b|e|].
  - destruct H as [ts [Hb _]]. exists ts. rewrite Hb. reflexivity.
  - destruct H as [j [Hj [Hfence _]]]. rewrite Hno in Hfence; [discriminate|].
    apply nth_In. lia.
  - destruct H as [j [md [Hj [Hfence _]]]]. rewrite Hno in Hfence; [discriminate|].
    apply nth_In. lia.
Qed.

Lemma parseContent_without_fence_witness :
  (forall line, In line ["# a"; ""; "> "; "b"] -> isFence line = false)
  /\ exists ts,
       parseContent Reference.env ["# a"; ""; "> "; "b"] (etree.NewElement "body")
       = Ok (appendTokens (etree.NewElement "body") ts).
Proof.
  assert (H : forall line, In line ["# a"; ""; "> "; "b"] -> isFence line = false).
  { intros line [<-|[<-|[<-|[<-|[]]]]]; vm_compute; reflexivity. }
  split; [exact H|].
  exact (parseContent_without_fence Reference.env ["# a"; ""; "> "; "b"]
           (etree.NewElement "body") H).
Defined.

(** X13.  Nothing the parser makes is dropped when the page is built:
    every child of a parsed body is an element that [buildPost] lets
    through, so the copy of the body has as many children as the
    body. *)
Theorem parsed_body_is_kept (env : Env) (lines : list string) (b : etree.Element) :
  parseContent env lines (etree.NewElement "body") = Ok b ->
  filter kept (etree.Child b) = etree.Child b
  /\ List.length (copyBody (etree.Child b)) = List.length (etree.Child b).
Proof.
  intros Hrun. unfold parseContent in Hrun.
  pose proof (parseContentFrom_outcome env lines (S (List.length lines)) 0
                (etree.NewElement "body")) as H.
  assert (Hf : (List.length lines - 0 < S (List.length lines))%nat) by lia.
  specialize (H Hf). rewrite Hrun in H. destruct H as [ts [Hb Hk]].
  subst b. simpl.
  assert (Hfilter : filter kept ts = ts).
  { clear Hrun. induction Hk as [|t r Ht Hr IH]; simpl; [reflexivity|].
    rewrite Ht, IH. reflexivity. }
  split; [exact Hfilter|].
  rewrite copyBody_filter, Hfilter, length_map. reflexivity.
Qed.

Lemma parsed_body_is_kept_witness :
  exists b,
    parseContent Reference.env ["# a"; "```"; "x"; "```"; "> h t"; "p"]
      (etree.NewElement "body") = Ok b
    /\ List.length (etree.Child b) = 4%nat
    /\ List.length (copyBody (etree.Child b)) = List.length (etree.Child b).
Proof.
  eexists. split; [vm_compute; reflexivity|]. split; [reflexivity|].
  refine (proj2 (parsed_body_is_kept Reference.env
                   ["# a"; "```"; "x"; "```"; "> h t"; "p"] _ _)).
  vm_compute. reflexivity.
Defined.

(** ** More of the parser: paragraphs, code blocks, whole files *)

Lemma map_nth_seq (f : string -> string) (l : list string) :
  forall a, map (fun k => f (nth k l EmptyString)) (seq a (List.length l - a))
            = map f (skipn a l).
Proof.
  induction l as [|x r IH]; intros a; simpl.
  - destruct a; reflexivity.
  - destruct a as [|a].
    + simpl. f_equal. specialize (IH 0%nat). rewrite Nat.sub_0_r in IH. simpl in IH.
      rewrite <- IH, <- seq_shift, map_map. reflexivity.
    + simpl. rewrite <- IH, <- seq_shift, map_map. reflexivity.
Qed.

Lemma collectText_plain (lines : list string) (n : nat) :
  forall i textLines,
    (forall k, (i <= k < i + n)%nat ->
               endsText (strings.TrimSpace (nth k lines EmptyString)) = false) ->
    collectText lines i n textLines
    = ((i + n)%nat,
       textLines ++ map (fun k => strings.TrimSpace (nth k lines EmptyString)) (seq i n)).
Proof.
  induction n as [|n IH]; intros i textLines H; simpl.
  - rewrite app_nil_r. f_equal. lia.
  - rewrite (H i) by lia. rewrite IH by (intros k Hk; apply H; lia).
    rewrite <- app_assoc. simpl. f_equal. lia.
Qed.

Lemma endsText_false (trimmed : string) :
  endsText trimmed = false ->
  String.eqb trimmed EmptyString = false
  /\ strings.HasPrefix trimmed "# " = false
  /\ strings.HasPrefix trimmed "- " = false
  /\ strings.HasPrefix trimmed "> " = false
  /\ strings.HasPrefix trimmed "```" = false.
Proof.
  unfold endsText. intros H.
  apply orb_false_elim in H as [H H5]. apply orb_false_elim in H as [H H4].
  apply orb_false_elim in H as [H H3]. apply orb_false_elim in H as [H1 H2].
  repeat split; assumption.
Qed.

Lemma parseContentFrom_S (env : Env) (f : nat) (lines : list string) (i : nat)
    (body : etree.Element) :
  parseContentFrom env (S f) lines i body
  = if (List.length lines <=? i)%nat then Ok body
    else match parseRound env lines i body with
         | Ok (next, body') => parseContentFrom env f lines next body'
         | Err err => Err err
         | Panic => Panic
         end.
Proof. reflexivity. Qed.

(** X14.  Lines of plain text that follow one another are one
    paragraph: lines that are not blank and start with none of the
    marks give one [text] element, whose text is the lines, each
    trimmed, with a line feed between them. *)
Theorem paragraph_is_one_text
    (env : Env) (first : string) (more : list string) (body : etree.Element) :
  Forall (fun line => endsText (strings.TrimSpace line) = false) (first :: more) ->
  parseContent env (first :: more) body
  = Ok (appendTokens body
          [textElement "text"
             (strings.Join (map strings.TrimSpace (first :: more)) newline)]).
Proof.
  intros Hplain. unfold parseContent.
  change (S (List.length (first :: more))) with (S (S (List.length more))).
  rewrite parseContentFrom_S.
  change (List.length (first :: more) <=? 0)%nat with false. cbv iota.
  unfold parseRound.
  change (nth 0 (first :: more) EmptyString) with first.
  inversion Hplain as [|? ? Hfirst Hmore]; subst.
  destruct (endsText_false _ Hfirst) as [H1 [H2 [H3 [H4 H5]]]].
  rewrite H5, H2, H3, H4, H1. cbv iota. simpl negb. cbv iota.
  rewrite collectText_plain.
  - change (List.length (first :: more) - 1)%nat with (List.length more - 0)%nat.
    rewrite Nat.sub_0_r. cbv beta iota zeta.
    rewrite parseContentFrom_S.
    replace (List.length (first :: more) <=? 1 + List.length more)%nat with true
      by (symmetry; apply Nat.leb_le; simpl; lia).
    f_equal. unfold appendTokens, etree.AddChild. do 3 f_equal.
    pose proof (map_nth_seq strings.TrimSpace (first :: more) 1) as Hm.
    change (List.length (first :: more) - 1)%nat with (List.length more - 0)%nat in Hm.
    rewrite Nat.sub_0_r in Hm. rewrite Hm. reflexivity.
  - intros k Hk. rewrite Forall_forall in Hmore.
    destruct k as [|k]; [lia|]. simpl. apply Hmore. apply nth_In. simpl in Hk. lia.
Qed.

Lemma paragraph_is_one_text_witness :
  parseContent Reference.env ["  one "; "two"; "#three"] (etree.NewElement "body")
  = Ok (etree.mkElement "body" []
          [etree.TElement
             (etree.mkElement "text" []
                [etree.TCharData ("one" +++ newline +++ "two" +++ newline +++ "#three")])]).
Proof.
  apply (paragraph_is_one_text Reference.env "  one " ["two"; "#three"]
           (etree.NewElement "body")).
  repeat constructor.
Defined.

(** X15.  Parsing goes paragraph by paragraph.  When lines parse, and
    the lines after them start with a line that ends a paragraph (a
    blank line or a line with a mark) and parse too, the whole parses to
    the body of the first followed by the children of the second. *)
Theorem parseContent_app
    (env : Env) (pre post : list string) (x : string) (body b1 b2 : etree.Element) :
  endsText (strings.TrimSpace x) = true ->
  parseContent env pre body = Ok b1 ->
  parseContent env (x :: post) (etree.NewElement "body") = Ok b2 ->
  parseContent env (pre ++ x :: post) body = Ok (appendTokens b1 (etree.Child b2)).
Proof.
  intros Hx Hpre Hpost. unfold parseContent in *.
  rewrite (parseContentFrom_pre env pre post x (S (List.length pre)) Hx 0%nat body b1 _
             (Nat.le_0_l _) Hpre) by lia.
  destruct (parseContentFrom_shift env pre (x :: post) (S (List.length (x :: post))) 0%nat
              (etree.NewElement "body") b2 Hpost) as [ts [Hb2 Hany]].
  replace (List.length pre) with (List.length pre + 0)%nat at 1 by lia.
  change (S (S (List.length post))) with (S (List.length (x :: post))).
  rewrite Hany. subst b2. reflexivity.
Qed.

Lemma parseContent_app_witness :
  parseContent Reference.env ["a"; "b"; ""; "c"] (etree.NewElement "body")
  = Ok (etree.mkElement "body" []
          [etree.TElement
             (etree.mkElement "text" [] [etree.TCharData ("a" +++ newline +++ "b")]);
           etree.TElement (etree.mkElement "text" [] [etree.TCharData "c"])]).
Proof.
  apply (parseContent_app Reference.env ["a"; "b"] ["c"] "" (etree.NewElement "body")
           (etree.mkElement "body" []
              [etree.TElement
                 (etree.mkElement "text" [] [etree.TCharData ("a" +++ newline +++ "b")])])
           (etree.mkElement "body" []
              [etree.TElement (etree.mkElement "text" [] [etree.TCharData "c"])]));
    vm_compute; reflexivity.
Defined.

Lemma findFence_at (lines : list string) (n : nat) :
  forall e j,
    (e <= j < e + n)%nat ->
    (forall k, (e <= k < j)%nat -> isFence (nth k lines EmptyString) = false) ->
    isFence (nth j lines EmptyString) = true ->
    findFence lines e n = j.
Proof.
  induction n as [|n IH]; intros e j Hj Hbefore Hfence; [lia|]. simpl.
  destruct (Nat.eq_dec e j) as [->|Hne].
  - rewrite Hfence. reflexivity.
  - rewrite (Hbefore e) by lia. apply IH; [lia | intros k Hk; apply Hbefore; lia | exact Hfence].
Qed.

(** X16.  A code block survives a converter that fails.  Between an
    opening fence (whatever follows the three marks on its line) and the
    next fence, the lines are handed to the converter; when it fails,
    the block becomes a [code] element whose text is those lines as they
    are, with a line feed between them, and nothing is an error. *)
Theorem code_block_raw
    (env : Env) (opening closing : string) (code : list string) (err : error)
    (body : etree.Element) :
  isFence opening = true ->
  isFence closing = true ->
  Forall (fun line => isFence line = false) code ->
  pandoc env (strings.Join code newline) = inl err ->
  parseContent env (opening :: code ++ [closing]) body
  = Ok (appendTokens body
          [etree.TElement
             (etree.mkElement "code" [] [etree.TCharData (strings.Join code newline)])]).
Proof.
  intros Hopen Hclose Hcode Hpandoc.
  unfold parseContent.
  change (S (List.length (opening :: code ++ [closing])))
    with (S (S (List.length (code ++ [closing])))).
  rewrite parseContentFrom_S.
  change (List.length (opening :: code ++ [closing]) <=? 0)%nat with false. cbv iota.
  unfold parseRound.
  change (nth 0 (opening :: code ++ [closing]) EmptyString) with opening.
  unfold isFence in Hopen. rewrite Hopen.
  unfold parseCodeBlock.
  assert (Hlen : List.length (opening :: code ++ [closing]) = S (S (List.length code)))
    by (simpl; rewrite length_app; simpl; lia).
  rewrite (findFence_at (opening :: code ++ [closing]) _ (0 + 1) (S (List.length code))).
  - rewrite Hlen.
    replace (S (S (List.length code)) <=? S (List.length code))%nat with false
      by (symmetry; apply Nat.leb_gt; lia).
    change (skipn (0 + 1) (opening :: code ++ [closing])) with (code ++ [closing]).
    replace (S (List.length code) - (0 + 1))%nat with (List.length code) by lia.
    rewrite firstn_app, Nat.sub_diag, firstn_all. simpl firstn. rewrite app_nil_r.
    unfold processWithPandoc. rewrite Hpandoc.
    rewrite parseContentFrom_S, Hlen.
    replace (S (S (List.length code)) <=? S (List.length code) + 1)%nat with true
      by (symmetry; apply Nat.leb_le; lia).
    reflexivity.
  - rewrite Hlen. lia.
  - intros k Hk. destruct k as [|k]; [lia|]. simpl.
    rewrite app_nth1 by lia. rewrite Forall_forall in Hcode.
    apply Hcode. apply nth_In. lia.
  - simpl. rewrite app_nth2 by lia. rewrite Nat.sub_diag. exact Hclose.
Qed.

Lemma code_block_raw_witness :
  parseContent Reference.env ["```go"; "  x := 1"; ""; "> y"; "  ```  "]
    (etree.NewElement "body")
  = Ok (etree.mkElement "body" []
          [etree.TElement
             (etree.mkElement "code" []
                [etree.TCharData ("  x := 1" +++ newline +++ "" +++ newline +++ "> y")])]).
Proof.
  eapply (code_block_raw Reference.env "```go" "  ```  " ["  x := 1"; ""; "> y"] _
            (etree.NewElement "body")).
  - vm_compute. reflexivity.
  - vm_compute. reflexivity.
  - repeat constructor.
  - reflexivity.
Defined.

Lemma splitByte_free (sep : ascii) (s cur : string) :
  freeOf (Ascii.eqb sep) s = true -> strings.splitByte sep s cur = [cur +++ s].
Proof.
  revert cur. induction s as [|c r IH]; intros cur H; simpl in *.
  - rewrite append_nil_r. reflexivity.
  - apply andb_prop in H as [Hc Hr]. apply negb_true_iff in Hc.
    rewrite Ascii.eqb_sym, Hc. rewrite (IH _ Hr), append_assoc. reflexivity.
Qed.

(** X17.  A file without a line feed is refused before anything is
    read from it: the custom syntax needs the two lines of metadata. *)
Theorem ParseCustomSyntax_one_line (env : Env) (content : string) :
  freeOf (Ascii.eqb "010"%char) content = true ->
  ParseCustomSyntax env content
  = Err (errorString "file must have at least 2 lines for metadata").
Proof.
  intros H. unfold ParseCustomSyntax, strings.SplitNL.
  rewrite (splitByte_free _ _ _ H). reflexivity.
Qed.

Lemma ParseCustomSyntax_one_line_witness :
  ParseCustomSyntax Reference.env "title: 'T' tags: ['a']"
  = Err (errorString "file must have at least 2 lines for metadata").
Proof.
  apply (ParseCustomSyntax_one_line Reference.env "title: 'T' tags: ['a']").
  reflexivity.
Defined.

(** ** The parser and the loader together *)

Lemma quoted_nonempty (s g rest : string) :
  regex.quoted s = Some (g, rest) -> g <> EmptyString.
Proof.
  unfold regex.quoted. destruct s as [|q r]; [discriminate|].
  destruct (regex.isQuote q); [|discriminate].
  destruct (regex.spanNonQuote r) as [[|c body] [|c' rest']]; try discriminate.
  intros H. inversion H. discriminate.
Qed.

Lemma findTitle_nonempty (s g : string) : regex.findTitle s = Some g -> g <> EmptyString.
Proof.
  induction s as [|c r IH]; rewrite findTitle_unfold.
  - destruct (strings.HasPrefix EmptyString "title:"); [|discriminate].
    destruct (regex.quoted _) as [[g' rest]|] eqn:E; [|discriminate].
    simpl. intros H. inversion H; subst. eapply quoted_nonempty; exact E.
  - destruct (strings.HasPrefix (String c r) "title:").
    + destruct (regex.quoted _) as [[g' rest]|] eqn:E; simpl.
      * intros H. inversion H; subst. eapply quoted_nonempty; exact E.
      * exact IH.
    + exact IH.
Qed.

Lemma findAllQuotedFrom_nonempty (fuel : nat) :
  forall s, Forall (fun g => g <> EmptyString) (regex.findAllQuotedFrom fuel s).
Proof.
  induction fuel as [|fuel IH]; intros s; simpl; [constructor|].
  destruct (regex.quoted s) as [[g rest]|] eqn:E.
  - constructor; [eapply quoted_nonempty; exact E | apply IH].
  - destruct s; [constructor | apply IH].
Qed.

Lemma fold_AddChild {A : Type} (g : A -> etree.Token) (xs : list A) :
  forall e,
    fold_left (fun e x => etree.AddChild e (g x)) xs e
    = etree.mkElement (etree.Tag e) (etree.Attr e) (etree.Child e ++ map g xs).
Proof.
  induction xs as [|x r IH]; intros e; simpl.
  - rewrite app_nil_r. destruct e; reflexivity.
  - rewrite IH. simpl. rewrite <- app_assoc. reflexivity.
Qed.

Lemma metaOf_shape (title : string) (tags : list string) :
  metaOf title tags
  = etree.mkElement "meta" []
      (etree.TElement (etree.mkElement "title" [etree.mkAttr "value" title] [])
       :: map (fun tagLabel =>
                 etree.TElement (etree.mkElement "tag" [etree.mkAttr "label" tagLabel] []))
            tags).
Proof.
  unfold metaOf.
  rewrite (fold_AddChild
             (fun tagLabel =>
                etree.TElement (etree.CreateAttr (etree.NewElement "tag") "label" tagLabel))).
  reflexivity.
Qed.

Lemma selectElements_tags (tags : list string) :
  etree.selectElements "tag"
    (map (fun tagLabel =>
            etree.TElement (etree.mkElement "tag" [etree.mkAttr "label" tagLabel] []))
       tags)
  = map (fun tagLabel => etree.mkElement "tag" [etree.mkAttr "label" tagLabel] []) tags.
Proof. induction tags as [|t r IH]; simpl; [reflexivity | rewrite IH; reflexivity]. Qed.

Lemma assureLabels_labelled (tags : list string) (key : Z) :
  Forall (fun g => g <> EmptyString) tags ->
  forall taxonomy labelKeys,
    exists ids taxonomy',
      assureLabels
        (map (fun tagLabel => etree.mkElement "tag" [etree.mkAttr "label" tagLabel] []) tags)
        key taxonomy labelKeys
      = (Ok (labelKeys ++ ids), taxonomy')
      /\ List.length ids = List.length tags.
Proof.
  induction 1 as [|t r Ht Hr IH]; intros taxonomy labelKeys; simpl.
  - exists [], taxonomy. rewrite app_nil_r. split; reflexivity.
  - change (etree.SelectAttrValue (etree.mkElement "tag" [etree.mkAttr "label" t] [])
              "label" "") with t.
    destruct (String.eqb_spec t "") as [Heq|_]; [contradiction|].
    destruct (AssureLabelFromDocument taxonomy t key) as [labelKey taxonomy1].
    destruct (IH taxonomy1 (labelKeys ++ [labelKey])) as [ids [taxonomy2 [Hrun Hlen]]].
    exists (labelKey :: ids), taxonomy2. rewrite Hrun, <- app_assoc.
    split; [reflexivity | simpl; rewrite Hlen; reflexivity].
Qed.

(** X18.  A document that [ParseCustomSyntax] returns always has the
    metadata the loader asks for: [ProcessPostMeta] finds the [meta]
    element, a title that is not empty and a label in every tag.  It
    returns the title and one tag id for each tag of the tags line, for
    any post id and any taxonomy. *)
Theorem ParseCustomSyntax_meta_is_valid
    (env : Env) (content : string) (document : etree.Element)
    (key : Z) (taxonomy : Taxonomy.t) :
  ParseCustomSyntax env content = Ok document ->
  exists title tags ids taxonomy',
    parseMetadata (nth 0 (strings.SplitNL content) EmptyString)
      (nth 1 (strings.SplitNL content) EmptyString) = Ok (title, tags)
    /\ title <> EmptyString
    /\ ProcessPostMeta document key taxonomy = (Ok (title, ids), taxonomy')
    /\ List.length ids = List.length tags.
Proof.
  unfold ParseCustomSyntax.
  destruct (List.length (strings.SplitNL content) <? 2)%nat; [discriminate|].
  destruct (parseMetadata _ _) as [[title tags]|e|] eqn:Em; try discriminate.
  destruct (parseContent env _ _) as [body|e|]; try discriminate.
  intros H. inversion H; subst. clear H.
  unfold parseMetadata in Em.
  destruct (regex.findTitle _) as [t|] eqn:Et; [|discriminate].
  destruct (regex.findTags _) as [tagsStr|] eqn:Eg; [|discriminate].
  inversion Em; subst. clear Em.
  pose proof (findTitle_nonempty _ _ Et) as Hne.
  pose proof (findAllQuotedFrom_nonempty (S (String.length tagsStr)) tagsStr) as Htags.
  fold (regex.findAllQuoted tagsStr) in Htags.
  destruct (assureLabels_labelled (regex.findAllQuoted tagsStr) key Htags taxonomy [])
    as [ids [taxonomy' [Hrun Hlen]]].
  exists title, (regex.findAllQuoted tagsStr), ids, taxonomy'.
  split; [reflexivity|]. split; [exact Hne|]. split; [|exact Hlen].
  rewrite metaOf_shape.
  destruct title as [|c title]; [contradiction|].
  unfold ProcessPostMeta, rootIsDocument. simpl.
  unfold etree.SelectElements. simpl.
  rewrite selectElements_tags, Hrun.
  reflexivity.
Qed.

Lemma ParseCustomSyntax_meta_is_valid_witness :
  exists document title tags ids taxonomy',
    ParseCustomSyntax Reference.env Reference.postB = Ok document
    /\ parseMetadata (nth 0 (strings.SplitNL Reference.postB) EmptyString)
         (nth 1 (strings.SplitNL Reference.postB) EmptyString) = Ok (title, tags)
    /\ ProcessPostMeta document 7 (GetTaxonomy (Keylock.mk [])) = (Ok (title, ids), taxonomy')
    /\ List.length ids = List.length tags.
Proof.
  eexists.
  assert (H : ParseCustomSyntax Reference.env Reference.postB = Ok ?[d])
    by (vm_compute; reflexivity).
  destruct (ParseCustomSyntax_meta_is_valid Reference.env Reference.postB _ 7
              (GetTaxonomy (Keylock.mk [])) H)
    as [title [tags [ids [taxonomy' [H1 [_ [H2 H3]]]]]]].
  exists title, tags, ids, taxonomy'. repeat split; assumption.
Defined.

(** ** More of the loader *)

Lemma extends_refl (keylock : Keylock.t) : extends keylock keylock.
Proof. exists []. rewrite app_nil_r. reflexivity. Qed.

Lemma extends_trans (a b c : Keylock.t) : extends a b -> extends b c -> extends a c.
Proof.
  intros [x Hx] [y Hy]. exists (y ++ x). rewrite Hx, Hy, <- app_assoc. reflexivity.
Qed.

Lemma extends_findKey (after before : Keylock.t) (k : string) (id : Z) :
  extends after before ->
  findKey (Keylock.Keys before) k = Some id -> findKey (Keylock.Keys after) k = Some id.
Proof. intros [added H] Hk. rewrite H. apply findKey_kept. exact Hk. Qed.

Lemma AssureKey_extends' (keylock : Keylock.t) (value : string) :
  extends (snd (AssureKey keylock value)) keylock.
Proof.
  destruct (AssureKey_extends keylock value) as [added [H _]]. exists added. exact H.
Qed.

Lemma AssureLabelFromDocument_extends (taxonomy : Taxonomy.t) (label : string) (document : Z) :
  extends (Taxonomy.Keylock (snd (AssureLabelFromDocument taxonomy label document)))
    (Taxonomy.Keylock taxonomy).
Proof.
  unfold AssureLabelFromDocument.
  destruct (assureKnownLabel _ _ _) as [[k tags']|].
  - apply extends_refl.
  - pose proof (AssureKey_extends' (Taxonomy.Keylock taxonomy) ("TAG:" +++ label)) as H.
    destruct (AssureKey _ _). exact H.
Qed.

Lemma assureLabels_extends (tags : list etree.Element) (key : Z) :
  forall taxonomy labelKeys,
    extends (Taxonomy.Keylock (snd (assureLabels tags key taxonomy labelKeys)))
      (Taxonomy.Keylock taxonomy).
Proof.
  induction tags as [|tag r IH]; intros taxonomy labelKeys; simpl.
  - apply extends_refl.
  - destruct (String.eqb _ ""); [apply extends_refl|].
    pose proof (AssureLabelFromDocument_extends taxonomy
                  (etree.SelectAttrValue tag "label" "") key) as H.
    destruct (AssureLabelFromDocument _ _ _) as [labelKey taxonomy1]. simpl in H.
    eapply extends_trans; [apply IH | exact H].
Qed.

Lemma ProcessPostMeta_extends (content : etree.Element) (key : Z) (taxonomy : Taxonomy.t) :
  extends (Taxonomy.Keylock (snd (ProcessPostMeta content key taxonomy)))
    (Taxonomy.Keylock taxonomy).
Proof.
  unfold ProcessPostMeta.
  destruct (match rootIsDocument content with
            | Some docRoot => etree.SelectElement docRoot "meta"
            | None => etree.SelectElement content "meta"
            end) as [meta|]; [|apply extends_refl].
  destruct (etree.SelectElement meta "title") as [title|]; [|apply extends_refl].
  destruct (String.eqb _ ""); [apply extends_refl|].
  pose proof (assureLabels_extends (etree.SelectElements meta "tag") key taxonomy []) as H.
  destruct (assureLabels _ _ _ _) as [[ids|e|] taxonomy']; exact H.
Qed.

(** What [GetPostDocument] gives for a file it accepts. *)
Lemma GetPostDocument_Ok
    (env : Env) (path name : string) (file : error + string) (taxonomy taxonomy' : Taxonomy.t)
    (post : Post.t) :
  GetPostDocument env path name file taxonomy = (Ok post, taxonomy') ->
  Post.Name post = name
  /\ registered (Taxonomy.Keylock taxonomy') post
  /\ extends (Taxonomy.Keylock taxonomy') (Taxonomy.Keylock taxonomy).
Proof.
  unfold GetPostDocument.
  destruct file as [err|contentStr]; [discriminate|].
  destruct (readPostDocument env path contentStr) as [document|e|]; try discriminate.
  pose proof (AssureKey_finds (Taxonomy.Keylock taxonomy) ("POST:" +++ name)) as Hf.
  pose proof (AssureKey_extends' (Taxonomy.Keylock taxonomy) ("POST:" +++ name)) as He.
  destruct (AssureKey (Taxonomy.Keylock taxonomy) ("POST:" +++ name)) as [key keylock].
  simpl in Hf, He.
  pose proof (ProcessPostMeta_extends document key
                (Taxonomy.mk keylock (Taxonomy.Tags taxonomy))) as Hm.
  destruct (ProcessPostMeta document key _) as [[[title tags]|e|] taxonomy2];
    try discriminate.
  simpl in Hm. intros H. inversion H; subst. clear H.
  split; [reflexivity|]. split.
  - unfold registered. simpl. eapply extends_findKey; [exact Hm | exact Hf].
  - eapply extends_trans; [exact Hm | exact He].
Qed.

Lemma walkPosts_Ok (env : Env) (walk : list WalkEntry.t) :
  forall posts taxonomy posts' taxonomy',
    walkPosts env walk posts taxonomy = (Ok posts', taxonomy') ->
    Forall (registered (Taxonomy.Keylock taxonomy)) posts ->
    map Post.Name posts'
    = map Post.Name posts
      ++ map WalkEntry.name (filter (fun entry => negb (passedOver entry)) walk)
    /\ Forall (registered (Taxonomy.Keylock taxonomy')) posts'
    /\ extends (Taxonomy.Keylock taxonomy') (Taxonomy.Keylock taxonomy).
Proof.
  induction walk as [|entry r IH]; intros posts taxonomy posts' taxonomy' H Hreg;
    simpl in H.
  - inversion H; subst. simpl. rewrite app_nil_r.
    split; [reflexivity|]. split; [exact Hreg | apply extends_refl].
  - destruct (WalkEntry.walkErr entry); [discriminate|].
    simpl filter. unfold passedOver at 1.
    destruct (WalkEntry.IsDir entry); [exact (IH _ _ _ _ H Hreg)|].
    destruct (startsWithTilde (WalkEntry.name entry)); [exact (IH _ _ _ _ H Hreg)|].
    destruct (GetPostDocument env (WalkEntry.path entry) (WalkEntry.name entry)
                (WalkEntry.file entry) taxonomy) as [[post|e|] taxonomy1] eqn:E;
      try discriminate.
    destruct (GetPostDocument_Ok _ _ _ _ _ _ _ E) as [Hname [Hpost Hext]].
    assert (Hreg1 : Forall (registered (Taxonomy.Keylock taxonomy1)) (posts ++ [post])).
    { apply Forall_app. split.
      - eapply Forall_impl; [|exact Hreg]. intros p Hp.
        unfold registered in *. eapply extends_findKey; [exact Hext | exact Hp].
      - constructor; [exact Hpost | constructor]. }
    destruct (IH _ _ _ _ H Hreg1) as [Hnames [Hall Hext']].
    split; [|split].
    + rewrite Hnames, map_app, <- app_assoc. simpl. rewrite Hname. reflexivity.
    + exact Hall.
    + eapply extends_trans; [exact Hext' | exact Hext].
Qed.

(** X19.  The source lists the posts in the order of the walk, one for
    each entry that is neither a folder nor a file whose name starts
    with a tilde. *)
Theorem GetSource_walk_order
    (env : Env) (walk : list WalkEntry.t) (taxonomy taxonomy' : Taxonomy.t)
    (source : Source.t) :
  GetSource env walk taxonomy = (Ok source, taxonomy') ->
  map Post.Name (Source.Posts source)
  = map WalkEntry.name (filter (fun entry => negb (passedOver entry)) walk).
Proof.
  unfold GetSource.
  destruct (walkPosts env walk [] taxonomy) as [[posts|e|] taxonomy1] eqn:E;
    try discriminate.
  intros H. inversion H; subst.
  destruct (walkPosts_Ok env walk [] taxonomy posts taxonomy' E (Forall_nil _))
    as [Hnames _].
  exact Hnames.
Qed.

Lemma GetSource_walk_order_witness :
  fst Reference.loaded = Ok Reference.source
  /\ map Post.Name (Source.Posts Reference.source) = ["a.txt"; "b.txt"].
Proof.
  split; [vm_compute; reflexivity|].
  exact (GetSource_walk_order Reference.env Reference.walk (GetTaxonomy (Keylock.mk []))
           Reference.taxonomy Reference.source
           ltac:(vm_compute; reflexivity)).
Defined.

(** X20.  The loader only adds to the registry, and every post it
    returns has the id the registry holds for [POST:] followed by its
    file name. *)
Theorem GetSource_registers_posts
    (env : Env) (walk : list WalkEntry.t) (taxonomy taxonomy' : Taxonomy.t)
    (source : Source.t) :
  GetSource env walk taxonomy = (Ok source, taxonomy') ->
  extends (Taxonomy.Keylock taxonomy') (Taxonomy.Keylock taxonomy)
  /\ Forall (registered (Taxonomy.Keylock taxonomy')) (Source.Posts source).
Proof.
  unfold GetSource.
  destruct (walkPosts env walk [] taxonomy) as [[posts|e|] taxonomy1] eqn:E;
    try discriminate.
  intros H. inversion H; subst.
  destruct (walkPosts_Ok env walk [] taxonomy posts taxonomy' E (Forall_nil _))
    as [_ [Hall Hext]].
  split; assumption.
Qed.

Lemma GetSource_registers_posts_witness :
  fst Reference.loaded = Ok Reference.source
  /\ Forall (registered (Taxonomy.Keylock Reference.taxonomy))
       (Source.Posts Reference.source).
Proof.
  split; [vm_compute; reflexivity|].
  exact (proj2 (GetSource_registers_posts Reference.env Reference.walk
                  (GetTaxonomy (Keylock.mk [])) Reference.taxonomy Reference.source
                  ltac:(vm_compute; reflexivity))).
Defined.


(** ** More of the build *)

Lemma buildPost_page
    (env : Env) (post : Post.t) (taxonomy : Taxonomy.t) (fs fs' : Files) (r : result unit) :
  buildPost env post xmlOutputPath taxonomy fs = (r, fs') ->
  match r with
  | Ok _ => exists content, fs' = fs ++ [(pagePath (Post.Key post), content)]
  | _ => fs' = fs
  end.
Proof.
  unfold buildPost, WriteToFile. fold (pagePath (Post.Key post)).
  destruct (MkdirAll env _); [intros H; inversion H; reflexivity|].
  destruct (postDocument env post taxonomy) as [doc|e|];
    try (intros H; inversion H; reflexivity).
  destruct (WriteFile env _); intros H; inversion H; subst; [reflexivity|].
  eexists. reflexivity.
Qed.

Lemma buildTag_page
    (env : Env) (tag : Tag.t) (source : Source.t) (fs fs' : Files) (r : result unit) :
  buildTag env tag xmlOutputPath source fs = (r, fs') ->
  match r with
  | Ok _ => exists content, fs' = fs ++ [(pagePath (Tag.Key tag), content)]
  | _ => fs' = fs
  end.
Proof.
  unfold buildTag, WriteToFile. fold (pagePath (Tag.Key tag)).
  destruct (MkdirAll env _); [intros H; inversion H; reflexivity|].
  destruct (WriteFile env _); intros H; inversion H; subst; [reflexivity|].
  eexists. reflexivity.
Qed.

(** The pages of the posts: the pages of the posts built before the
    first that fails, or of all of them. *)
Lemma buildPosts_pages (env : Env) (taxonomy : Taxonomy.t) (posts : list Post.t) :
  forall fs r fs',
    buildPosts env posts taxonomy fs = (r, fs') ->
    exists built added,
      fs' = fs ++ added
      /\ map fst added = map (fun post => pagePath (Post.Key post)) built
      /\ match r with
         | Ok _ => built = posts
         | _ => exists rest, posts = built ++ rest /\ rest <> []
         end.
Proof.
  induction posts as [|post rest IH]; intros fs r fs' H; simpl in H.
  - inversion H; subst. exists [], []. rewrite app_nil_r. repeat split.
  - destruct (buildPost env post xmlOutputPath taxonomy fs) as [r1 fs1] eqn:E.
    pose proof (buildPost_page _ _ _ _ _ _ E) as Hp.
    destruct r1 as [u|e|].
    + destruct Hp as [content Hfs1]. destruct (IH _ _ _ H) as [built [added [Hfs [Hmap Hr]]]].
      exists (post :: built), ((pagePath (Post.Key post), content) :: added). split; [|split].
      * rewrite Hfs, Hfs1, <- app_assoc. reflexivity.
      * simpl. rewrite Hmap. reflexivity.
      * destruct r as [u'|e|]; [subst; reflexivity| |];
          destruct Hr as [rest' [Hrest Hne]]; exists rest'; subst; split;
          try reflexivity; assumption.
    + inversion H; subst. exists [], []. rewrite app_nil_r.
      split; [reflexivity|]. split; [reflexivity|].
      exists (post :: rest). split; [reflexivity | discriminate].
    + inversion H; subst. exists [], []. rewrite app_nil_r.
      split; [reflexivity|]. split; [reflexivity|].
      exists (post :: rest). split; [reflexivity | discriminate].
Qed.

Lemma buildTags_pages (env : Env) (source : Source.t) (tags : list Tag.t) :
  forall fs r fs',
    buildTags env tags source fs = (r, fs') ->
    exists built added,
      fs' = fs ++ added
      /\ map fst added = map (fun tag => pagePath (Tag.Key tag)) built
      /\ match r with
         | Ok _ => built = tags
         | _ => exists rest, tags = built ++ rest /\ rest <> []
         end.
Proof.
  induction tags as [|tag rest IH]; intros fs r fs' H; simpl in H.
  - inversion H; subst. exists [], []. rewrite app_nil_r. repeat split.
  - destruct (buildTag env tag xmlOutputPath source fs) as [r1 fs1] eqn:E.
    pose proof (buildTag_page _ _ _ _ _ _ E) as Hp.
    destruct r1 as [u|e|].
    + destruct Hp as [content Hfs1]. destruct (IH _ _ _ H) as [built [added [Hfs [Hmap Hr]]]].
      exists (tag :: built), ((pagePath (Tag.Key tag), content) :: added). split; [|split].
      * rewrite Hfs, Hfs1, <- app_assoc. reflexivity.
      * simpl. rewrite Hmap. reflexivity.
      * destruct r as [u'|e|]; [subst; reflexivity| |];
          destruct Hr as [rest' [Hrest Hne]]; exists rest'; subst; split;
          try reflexivity; assumption.
    + inversion H; subst. exists [], []. rewrite app_nil_r.
      split; [reflexivity|]. split; [reflexivity|].
      exists (tag :: rest). split; [reflexivity | discriminate].
    + inversion H; subst. exists [], []. rewrite app_nil_r.
      split; [reflexivity|]. split; [reflexivity|].
      exists (tag :: rest). split; [reflexivity | discriminate].
Qed.

Lemma buildHomeCatalog_page
    (env : Env) (source : Source.t) (taxonomy : Taxonomy.t) (fs : Files) :
  taxonomyOf (buildHomeCatalog env source taxonomy xmlOutputPath fs)
  = Taxonomy.mk (Taxonomy.Keylock taxonomy)
      (SortFunc env Tag.t byTagKeyDesc (Taxonomy.Tags taxonomy))
  /\ match outcomeOf (buildHomeCatalog env source taxonomy xmlOutputPath fs) with
     | Ok _ =>
         exists content,
           filesOf (buildHomeCatalog env source taxonomy xmlOutputPath fs)
           = fs ++ [(filepath_Join xmlOutputPath "index.xml", content)]
     | _ => filesOf (buildHomeCatalog env source taxonomy xmlOutputPath fs) = fs
     end.
Proof.
  unfold buildHomeCatalog, WriteToFile, taxonomyOf, outcomeOf, filesOf.
  destruct (WriteFile env _); simpl; split; try reflexivity.
  eexists. reflexivity.
Qed.

Lemma removeAll_incl (dir : string) (fs : Files) : incl (removeAll dir fs) fs.
Proof. intros file Hin. apply filter_In in Hin. exact (proj1 Hin). Qed.

Lemma removeFolders_incl (env : Env) (entries : list DirEntry.t) :
  forall fs, incl (snd (removeFolders env entries fs)) fs.
Proof.
  induction entries as [|entry r IH]; intros fs; simpl; [apply incl_refl|].
  destruct (DirEntry.IsDir entry); [|apply IH].
  destruct (RemoveAll env _); [apply incl_refl|].
  eapply incl_tran; [apply IH | apply removeAll_incl].
Qed.

(** When every removal succeeds, no file inside a folder of the
    listing is left. *)
Lemma removeFolders_gone (env : Env) (entries : list DirEntry.t) :
  forall fs,
    fst (removeFolders env entries fs) = None ->
    forall entry file,
      In entry entries -> DirEntry.IsDir entry = true ->
      In file (snd (removeFolders env entries fs)) ->
      strings.HasPrefix (fst file)
        (filepath_Join outputParent (DirEntry.Name entry) +++ "/") = false.
Proof.
  induction entries as [|e r IH]; intros fs Hok entry file Hin Hdir Hfile;
    [contradiction|].
  simpl in Hok, Hfile.
  destruct (DirEntry.IsDir e) eqn:Ee.
  - destruct (RemoveAll env (filepath_Join outputParent (DirEntry.Name e)));
      [discriminate|].
    destruct Hin as [Heq|Hin].
    + subst e.
      apply removeFolders_incl in Hfile. apply filter_In in Hfile.
      destruct Hfile as [_ Hkeep]. apply negb_true_iff in Hkeep. exact Hkeep.
    + exact (IH _ Hok entry file Hin Hdir Hfile).
  - destruct Hin as [Heq|Hin]; [subst e; congruence|].
    exact (IH _ Hok entry file Hin Hdir Hfile).
Qed.

(** The documents a build writes, in the order it writes them, after
    the files that the clearing has left. *)
Lemma Build_paths (env : Env) (source : Source.t) (taxonomy : Taxonomy.t) (fs : Files) :
  exists posts tags home added,
    filesOf (Build env source taxonomy fs) = snd (clearOutput env fs) ++ added
    /\ map fst added
       = map (fun post => pagePath (Post.Key post)) posts
         ++ map (fun tag => pagePath (Tag.Key tag)) tags
         ++ home
    /\ (home = [] \/ home = [filepath_Join xmlOutputPath "index.xml"])
    /\ (outcomeOf (Build env source taxonomy fs) = Ok tt ->
        fst (clearOutput env fs) = None
        /\ posts = Source.Posts source /\ tags = Taxonomy.Tags taxonomy
        /\ home = [filepath_Join xmlOutputPath "index.xml"]).
Proof.
  unfold Build.
  destruct (clearOutput env fs) as [[err|] fs0]; simpl snd; simpl fst.
  { exists [], [], [], []. unfold filesOf, outcomeOf. simpl. rewrite app_nil_r.
    split; [reflexivity|]. split; [reflexivity|].
    split; [left; reflexivity | discriminate]. }
  destruct (MkdirAll env xmlOutputPath).
  { exists [], [], [], []. unfold filesOf, outcomeOf. simpl. rewrite app_nil_r.
    split; [reflexivity|]. split; [reflexivity|].
    split; [left; reflexivity | discriminate]. }
  destruct (buildPosts env (Source.Posts source) taxonomy fs0) as [r1 fs1] eqn:E1.
  destruct (buildPosts_pages _ _ _ _ _ _ E1) as [posts [added1 [Hfs1 [Hp Hr1]]]].
  destruct r1 as [u|e|];
    try (exists posts, [], [], added1; unfold filesOf, outcomeOf; simpl;
         rewrite app_nil_r;
         split; [exact Hfs1|]; split; [exact Hp|];
         split; [left; reflexivity | discriminate]).
  destruct (buildTags env (Taxonomy.Tags taxonomy) source fs1) as [r2 fs2] eqn:E2.
  destruct (buildTags_pages _ _ _ _ _ _ E2) as [tags [added2 [Hfs2 [Ht Hr2]]]].
  destruct r2 as [u'|e|];
    try (exists posts, tags, [], (added1 ++ added2); unfold filesOf, outcomeOf; simpl;
         rewrite app_nil_r, map_app, Hp, Ht, Hfs2, Hfs1, <- app_assoc;
         split; [reflexivity|]; split; [reflexivity|];
         split; [left; reflexivity | discriminate]).
  destruct (buildHomeCatalog_page env source taxonomy fs2) as [_ Hh].
  destruct (buildHomeCatalog env source taxonomy xmlOutputPath fs2)
    as [[[r3 src'] tx'] fs3].
  unfold outcomeOf, filesOf in Hh. simpl in Hh.
  destruct r3 as [u''|e|].
  - destruct Hh as [content Hh].
    exists posts, tags, [filepath_Join xmlOutputPath "index.xml"],
      (added1 ++ added2 ++ [(filepath_Join xmlOutputPath "index.xml", content)]).
    assert (Hall : fs3 = fs0 ++ added1 ++ added2
                           ++ [(filepath_Join xmlOutputPath "index.xml", content)])
      by (rewrite Hh, Hfs2, Hfs1, <- !app_assoc; reflexivity).
    assert (Hmap : map fst (added1 ++ added2
                            ++ [(filepath_Join xmlOutputPath "index.xml", content)])
                   = map (fun post => pagePath (Post.Key post)) posts
                     ++ map (fun tag => pagePath (Tag.Key tag)) tags
                     ++ [filepath_Join xmlOutputPath "index.xml"])
      by (rewrite !map_app, Hp, Ht; reflexivity).
    destruct (copyStatics env); [|destruct (applyStylesheets env)];
      unfold filesOf, outcomeOf; simpl;
      (split; [exact Hall|]; split; [exact Hmap|]; split; [right; reflexivity|]);
      try discriminate.
    intros _. subst. repeat split.
  - subst fs3. exists posts, tags, [], (added1 ++ added2). unfold filesOf, outcomeOf. simpl.
    rewrite app_nil_r, map_app, Hp, Ht, Hfs2, Hfs1, <- app_assoc.
    split; [reflexivity|]. split; [reflexivity|].
    split; [left; reflexivity | discriminate].
  - subst fs3. exists posts, tags, [], (added1 ++ added2). unfold filesOf, outcomeOf. simpl.
    rewrite app_nil_r, map_app, Hp, Ht, Hfs2, Hfs1, <- app_assoc.
    split; [reflexivity|]. split; [reflexivity|].
    split; [left; reflexivity | discriminate].
Qed.

(** X21.  A build that succeeds first clears the output: of the
    files there were, none is left inside a folder that the listing of
    the output parent names, and no file is added or changed by the
    clearing.  After the files that are left come the documents the
    build writes: one page for each post, in source order, then one
    page for each tag, in the order of the taxonomy, then the home page,
    these and no other; each page is [index.xml] in the folder named by
    the address of the id.  (The copies of the statics and the
    transformed pages are files the environment moves, not documents
    the program writes.) *)
Theorem Build_writes_pages
    (env : Env) (source : Source.t) (taxonomy : Taxonomy.t) (fs : Files) :
  outcomeOf (Build env source taxonomy fs) = Ok tt ->
  (exists left added,
     filesOf (Build env source taxonomy fs) = left ++ added
     /\ incl left fs
     /\ (forall entries entry file,
           ReadDir env outputParent = inr entries ->
           In entry entries -> DirEntry.IsDir entry = true ->
           In file left ->
           strings.HasPrefix (fst file) ("output/" +++ DirEntry.Name entry +++ "/") = false)
     /\ map fst added
        = map (fun post => pagePath (Post.Key post)) (Source.Posts source)
          ++ map (fun tag => pagePath (Tag.Key tag)) (Taxonomy.Tags taxonomy)
          ++ [filepath_Join xmlOutputPath "index.xml"])
  /\ forall id, pagePath id = "output/xml/" +++ KeyIDToHex id +++ "/index.xml".
Proof.
  intros Hok. split; [|reflexivity].
  destruct (Build_paths env source taxonomy fs)
    as [posts [tags [home [added [Hfs [Hmap [_ Hall]]]]]]].
  destruct (Hall Hok) as [Hclear [Hp [Ht Hh]]]. subst.
  exists (snd (clearOutput env fs)), added.
  split; [exact Hfs|]. unfold clearOutput in *. split; [|split; [|exact Hmap]].
  - destruct (ReadDir env outputParent) as [err|entries];
      [apply incl_refl | apply removeFolders_incl].
  - intros entries entry file Hread Hin Hdir Hfile. rewrite Hread in Hclear, Hfile.
    exact (removeFolders_gone env entries fs Hclear entry file Hin Hdir Hfile).
Qed.

Lemma Build_writes_pages_witness :
  let stale := [("output/xml/0x0009/index.xml", "stale"); ("./lock.xml", "lock")] in
  outcomeOf (Build Reference.env Reference.source Reference.taxonomy stale) = Ok tt
  /\ map fst (filesOf (Build Reference.env Reference.source Reference.taxonomy stale))
     = ["./lock.xml";
        "output/xml/0x0001/index.xml"; "output/xml/0x0003/index.xml";
        "output/xml/0x0002/index.xml"; "output/xml/0x0004/index.xml";
        "output/xml/index.xml"].
Proof.
  cbv zeta.
  assert (H : outcomeOf (Build Reference.env Reference.source Reference.taxonomy
                           [("output/xml/0x0009/index.xml", "stale"); ("./lock.xml", "lock")])
              = Ok tt)
    by (vm_compute; reflexivity).
  split; [exact H|].
  destruct (proj1 (Build_writes_pages Reference.env Reference.source Reference.taxonomy _ H))
    as [left [added [Hfs _]]].
  clear Hfs. vm_compute. reflexivity.
Defined.

(** What a build leaves of the taxonomy: the registry, and the tags
    either as they were or sorted. *)
Lemma Build_taxonomy (env : Env) (source : Source.t) (taxonomy : Taxonomy.t) (fs : Files) :
  Taxonomy.Keylock (taxonomyOf (Build env source taxonomy fs)) = Taxonomy.Keylock taxonomy
  /\ (Taxonomy.Tags (taxonomyOf (Build env source taxonomy fs)) = Taxonomy.Tags taxonomy
      \/ Taxonomy.Tags (taxonomyOf (Build env source taxonomy fs))
         = SortFunc env Tag.t byTagKeyDesc (Taxonomy.Tags taxonomy))
  /\ (outcomeOf (Build env source taxonomy fs) = Ok tt ->
      Taxonomy.Tags (taxonomyOf (Build env source taxonomy fs))
      = SortFunc env Tag.t byTagKeyDesc (Taxonomy.Tags taxonomy)).
Proof.
  destruct (Build_cases env source taxonomy fs)
    as [[_ [_ [Htx Hout]]] | [_ [_ Htx]]]; rewrite Htx.
  - split; [reflexivity|]. split; [left; reflexivity|].
    intros Hok. exfalso. exact (Hout Hok).
  - simpl. split; [reflexivity|]. split; [right; reflexivity|]. intros _. reflexivity.
Qed.

(** X22.  A build never touches the registry, and it keeps the tags:
    after it the taxonomy points to the same registry, with the tags it
    had, none changed, added or dropped; a build that succeeds leaves
    them in descending order of id. *)
Theorem Build_keeps_registry
    (env : Env) (source : Source.t) (taxonomy : Taxonomy.t) (fs : Files) :
  sortsSlices (SortFunc env) ->
  let after := taxonomyOf (Build env source taxonomy fs) in
  Taxonomy.Keylock after = Taxonomy.Keylock taxonomy
  /\ Permutation (Taxonomy.Tags taxonomy) (Taxonomy.Tags after)
  /\ (outcomeOf (Build env source taxonomy fs) = Ok tt ->
      descendingBy Tag.Key (Taxonomy.Tags after)).
Proof.
  intros Hsort. cbv zeta.
  destruct (SortFunc_descending (SortFunc env) Tag.Key (Taxonomy.Tags taxonomy) Hsort)
    as [Hperm Hdesc].
  fold byTagKeyDesc in Hperm, Hdesc.
  destruct (Build_taxonomy env source taxonomy fs) as [Hk [Ht Hok]].
  split; [exact Hk|]. split.
  - destruct Ht as [Ht|Ht]; rewrite Ht; [apply Permutation_refl | exact Hperm].
  - intros H. rewrite (Hok H). exact Hdesc.
Qed.

Lemma Build_keeps_registry_witness :
  sortsSlices (SortFunc Reference.env)
  /\ Taxonomy.Keylock (taxonomyOf (Build Reference.env Reference.source Reference.taxonomy []))
     = Taxonomy.Keylock Reference.taxonomy
  /\ map Tag.Label
       (Taxonomy.Tags (taxonomyOf (Build Reference.env Reference.source Reference.taxonomy [])))
     = ["rocq"; "go"].
Proof.
  split; [exact insertionSort_sortsSlices|]. split.
  - exact (proj1 (Build_keeps_registry Reference.env Reference.source Reference.taxonomy []
                    insertionSort_sortsSlices)).
  - vm_compute. reflexivity.
Defined.

(** ** The whole run *)

Lemma readFile_app_other (fs added : Files) (path : string) :
  ~ In path (map fst added) ->
  readFile (fs ++ added) path = readFile fs path.
Proof.
  induction fs as [|[p c] r IH]; intros Hnot; simpl.
  - induction added as [|[p c] r IH]; [reflexivity|].
    simpl in *. rewrite IH by tauto.
    destruct (String.eqb_spec p path) as [->|_]; [exfalso; tauto | reflexivity].
  - rewrite IH by assumption. reflexivity.
Qed.

Lemma pagePath_not_lock (id : Z) : pagePath id <> lockFilePath.
Proof. change (pagePath id) with ("output/xml/" +++ KeyIDToHex id +++ "/index.xml"). discriminate. Qed.

Lemma readFile_removeAll (dir path : string) (fs : Files) :
  strings.HasPrefix path (dir +++ "/") = false ->
  readFile (removeAll dir fs) path = readFile fs path.
Proof.
  intros Hout. induction fs as [|[p c] r IH]; [reflexivity|].
  unfold removeAll in *. simpl.
  destruct (strings.HasPrefix p (dir +++ "/")) eqn:E; simpl; rewrite IH.
  - destruct (readFile r path); [reflexivity|].
    destruct (String.eqb_spec p path) as [->|_]; [congruence | reflexivity].
  - reflexivity.
Qed.

(** Clearing the output leaves the lock file alone. *)
Lemma clearOutput_lock (env : Env) (fs : Files) :
  readFile (snd (clearOutput env fs)) lockFilePath = readFile fs lockFilePath.
Proof.
  unfold clearOutput. destruct (ReadDir env outputParent) as [err|entries]; [reflexivity|].
  simpl. revert fs. induction entries as [|entry r IH]; intros fs; [reflexivity|].
  simpl. destruct (DirEntry.IsDir entry); [|apply IH].
  destruct (RemoveAll env _); [reflexivity|].
  rewrite IH. apply readFile_removeAll. reflexivity.
Qed.

(** No page of the build is the lock file. *)
Lemma Build_not_lock (env : Env) (source : Source.t) (taxonomy : Taxonomy.t) (fs : Files) :
  exists added,
    filesOf (Build env source taxonomy fs) = snd (clearOutput env fs) ++ added
    /\ ~ In lockFilePath (map fst added).
Proof.
  destruct (Build_paths env source taxonomy fs)
    as [posts [tags [home [added [Hfs [Hmap [Hhome _]]]]]]].
  exists added. split; [exact Hfs|]. rewrite Hmap. intros Hin.
  apply in_app_or in Hin. destruct Hin as [Hin|Hin].
  { apply in_map_iff in Hin. destruct Hin as [post [Heq _]].
    exact (pagePath_not_lock _ Heq). }
  apply in_app_or in Hin. destruct Hin as [Hin|Hin].
  { apply in_map_iff in Hin. destruct Hin as [tag [Heq _]].
    exact (pagePath_not_lock _ Heq). }
  destruct Hhome as [->| ->]; simpl in Hin; [contradiction|].
  destruct Hin as [Heq|[]]. discriminate Heq.
Qed.

(** A build leaves the lock file with the content it had. *)
Lemma Build_lock (env : Env) (source : Source.t) (taxonomy : Taxonomy.t) (fs : Files) :
  readFile (filesOf (Build env source taxonomy fs)) lockFilePath
  = readFile fs lockFilePath.
Proof.
  destruct (Build_not_lock env source taxonomy fs) as [added [Hfs Hnot]].
  rewrite Hfs, readFile_app_other by exact Hnot. apply clearOutput_lock.
Qed.

(** X23.  The lock file is the last thing a run writes, and it is
    written only after the registry was loaded, the posts were loaded
    and the build succeeded: a run that leaves the lock file with
    another content than it had has come that far.  A run that succeeds
    leaves in it the document of the registry the loader ended with,
    which extends the registry the run began with. *)
Theorem main_saves_last (env : Env) (walk : list WalkEntry.t) (fs fs' : Files) (r : result unit) :
  main env walk fs = (r, fs') ->
  (readFile fs' lockFilePath <> readFile fs lockFilePath ->
   exists keylock source taxonomy,
     GetKeylock env fs = Ok keylock
     /\ GetSource env walk (GetTaxonomy keylock) = (Ok source, taxonomy)
     /\ outcomeOf (Build env source taxonomy fs) = Ok tt)
  /\ (r = Ok tt ->
      exists keylock source taxonomy,
        GetKeylock env fs = Ok keylock
        /\ GetSource env walk (GetTaxonomy keylock) = (Ok source, taxonomy)
        /\ extends (Taxonomy.Keylock taxonomy) keylock
        /\ readFile fs' lockFilePath
           = Some (WriteTo env (Indent env 4 (lockDocumentOf (Taxonomy.Keylock taxonomy))))).
Proof.
  unfold main.
  destruct (GetKeylock env fs) as [keylock|e|];
    try (intros H; inversion H; subst; split;
         [intros Hne; exfalso; apply Hne; reflexivity | discriminate]).
  destruct (GetSource env walk (GetTaxonomy keylock)) as [[source|e|] taxonomy] eqn:Eload;
    try (intros H; inversion H; subst; split;
         [intros Hne; exfalso; apply Hne; reflexivity | discriminate]).
  pose proof (Build_lock env source taxonomy fs) as Hlock.
  destruct (Build_taxonomy env source taxonomy fs) as [Hk _].
  destruct (Build env source taxonomy fs) as [[[rb src'] tx'] fsb] eqn:Ebuild.
  unfold filesOf, taxonomyOf in Hlock, Hk. simpl in Hlock, Hk.
  destruct rb as [u|e|];
    try (intros H; inversion H; subst; split;
         [intros Hne; exfalso; apply Hne; exact Hlock | discriminate]).
  destruct u. intros H. split.
  - intros _. exists keylock, source, taxonomy.
    split; [reflexivity|]. split; [exact Eload|]. rewrite Ebuild. reflexivity.
  - intros Hr. subst r. exists keylock, source, taxonomy.
    split; [reflexivity|]. split; [exact Eload|]. split.
    + unfold GetSource in Eload.
      destruct (walkPosts env walk [] (GetTaxonomy keylock)) as [[posts|e|] taxonomy1] eqn:E;
        try discriminate.
      inversion Eload; subst.
      destruct (walkPosts_Ok env walk [] (GetTaxonomy keylock) posts taxonomy E
                  (Forall_nil _)) as [_ [_ Hext]].
      exact Hext.
    + unfold Save, WriteToFile in H. rewrite Hk in H.
      destruct (WriteFile env lockFilePath); inversion H; subst.
      apply readFile_written.
Qed.

Lemma main_saves_last_witness :
  main Reference.env Reference.walk []
  = (Ok tt, snd (main Reference.env Reference.walk []))
  /\ readFile (snd (main Reference.env Reference.walk [])) lockFilePath <> None.
Proof.
  assert (H : main Reference.env Reference.walk []
              = (Ok tt, snd (main Reference.env Reference.walk [])))
    by (vm_compute; reflexivity).
  split; [exact H|].
  destruct (proj2 (main_saves_last _ _ _ _ _ H) eq_refl)
    as [keylock [source [taxonomy [_ [_ [_ Hr]]]]]].
  rewrite Hr. discriminate.
Defined.

(** ** The mentions of the tags *)

Lemma mentionsWithin_incl (ids ids' : list Z) (tags : list Tag.t) :
  incl ids ids' -> mentionsWithin ids tags -> mentionsWithin ids' tags.
Proof.
  intros Hincl H. unfold mentionsWithin in *.
  eapply Forall_impl; [|exact H]. intros tag Htag.
  eapply Forall_impl; [|exact Htag]. intros id Hid. apply Hincl. exact Hid.
Qed.

Lemma assureKnownLabel_within (ids : list Z) (label : string) (document : Z) :
  In document ids ->
  forall tags key tags',
    assureKnownLabel tags label document = Some (key, tags') ->
    mentionsWithin ids tags -> mentionsWithin ids tags'.
Proof.
  intros Hdoc. induction tags as [|tag r IH]; intros key tags' H Hw; simpl in H;
    [discriminate|].
  inversion Hw as [|? ? Htag Hr]; subst.
  destruct (String.eqb (Tag.Label tag) label).
  - destruct (mentioned (Tag.Mentions tag) document); inversion H; subst; [exact Hw|].
    constructor; [|exact Hr]. simpl. apply Forall_app. split; [exact Htag|].
    constructor; [exact Hdoc | constructor].
  - destruct (assureKnownLabel r label document) as [[k r']|] eqn:E; [|discriminate].
    inversion H; subst. constructor; [exact Htag|]. exact (IH _ _ eq_refl Hr).
Qed.

Lemma AssureLabelFromDocument_within
    (ids : list Z) (taxonomy : Taxonomy.t) (label : string) (document : Z) :
  In document ids ->
  mentionsWithin ids (Taxonomy.Tags taxonomy) ->
  mentionsWithin ids (Taxonomy.Tags (snd (AssureLabelFromDocument taxonomy label document))).
Proof.
  intros Hdoc Hw. unfold AssureLabelFromDocument.
  destruct (assureKnownLabel (Taxonomy.Tags taxonomy) label document) as [[k tags']|] eqn:E.
  - simpl. exact (assureKnownLabel_within ids label document Hdoc _ _ _ E Hw).
  - destruct (AssureKey _ _) as [key keylock]. simpl.
    apply Forall_app. split; [exact Hw|].
    constructor; [|constructor]. simpl. constructor; [exact Hdoc | constructor].
Qed.

Lemma assureLabels_within (ids : list Z) (key : Z) (tags : list etree.Element) :
  In key ids ->
  forall taxonomy labelKeys,
    mentionsWithin ids (Taxonomy.Tags taxonomy) ->
    mentionsWithin ids (Taxonomy.Tags (snd (assureLabels tags key taxonomy labelKeys))).
Proof.
  intros Hkey. induction tags as [|tag r IH]; intros taxonomy labelKeys Hw; simpl.
  - exact Hw.
  - destruct (String.eqb _ ""); [exact Hw|].
    pose proof (AssureLabelFromDocument_within ids taxonomy
                  (etree.SelectAttrValue tag "label" "") key Hkey Hw) as H.
    destruct (AssureLabelFromDocument _ _ _) as [labelKey taxonomy1]. simpl in H.
    apply IH. exact H.
Qed.

(** [ProcessPostMeta] records mentions of the post it is given and of
    no other, and the title it returns is not empty. *)
Lemma ProcessPostMeta_within
    (ids : list Z) (content : etree.Element) (key : Z) (taxonomy : Taxonomy.t) :
  In key ids ->
  mentionsWithin ids (Taxonomy.Tags taxonomy) ->
  mentionsWithin ids (Taxonomy.Tags (snd (ProcessPostMeta content key taxonomy)))
  /\ forall title tags,
       fst (ProcessPostMeta content key taxonomy) = Ok (title, tags) ->
       title <> EmptyString.
Proof.
  intros Hkey Hw. unfold ProcessPostMeta.
  destruct (match rootIsDocument content with
            | Some docRoot => etree.SelectElement docRoot "meta"
            | None => etree.SelectElement content "meta"
            end) as [meta|]; [|split; [exact Hw | discriminate]].
  destruct (etree.SelectElement meta "title") as [title|];
    [|split; [exact Hw | discriminate]].
  destruct (String.eqb_spec (etree.SelectAttrValue title "value" "") "") as [Heq|Hne];
    [split; [exact Hw | discriminate]|].
  pose proof (assureLabels_within ids key (etree.SelectElements meta "tag") Hkey
                taxonomy [] Hw) as H.
  destruct (assureLabels _ _ _ _) as [[labelKeys|e|] taxonomy']; simpl in *;
    (split; [exact H|]); try discriminate.
  intros t tags Ht. inversion Ht; subst. exact Hne.
Qed.

Lemma GetPostDocument_within
    (env : Env) (path name : string) (file : error + string) (taxonomy taxonomy' : Taxonomy.t)
    (post : Post.t) (ids : list Z) :
  GetPostDocument env path name file taxonomy = (Ok post, taxonomy') ->
  mentionsWithin ids (Taxonomy.Tags taxonomy) ->
  mentionsWithin (ids ++ [Post.Key post]) (Taxonomy.Tags taxonomy')
  /\ Post.Title post <> EmptyString.
Proof.
  unfold GetPostDocument.
  destruct file as [err|contentStr]; [discriminate|].
  destruct (readPostDocument env path contentStr) as [document|e|]; try discriminate.
  destruct (AssureKey (Taxonomy.Keylock taxonomy) ("POST:" +++ name)) as [key keylock].
  intros H Hw.
  assert (Hkey : In key (ids ++ [key])) by (apply in_or_app; right; left; reflexivity).
  assert (Hw' : mentionsWithin (ids ++ [key])
                  (Taxonomy.Tags (Taxonomy.mk keylock (Taxonomy.Tags taxonomy)))).
  { simpl. apply (mentionsWithin_incl ids); [|exact Hw].
    intros id Hid. apply in_or_app. left. exact Hid. }
  destruct (ProcessPostMeta_within (ids ++ [key]) document key
              (Taxonomy.mk keylock (Taxonomy.Tags taxonomy)) Hkey Hw') as [Hm Ht].
  destruct (ProcessPostMeta document key _) as [[[title tags]|e|] taxonomy2];
    try discriminate.
  inversion H; subst. clear H. simpl in *.
  split; [exact Hm | exact (Ht _ _ eq_refl)].
Qed.

Lemma walkPosts_within (env : Env) (walk : list WalkEntry.t) :
  forall posts taxonomy posts' taxonomy',
    walkPosts env walk posts taxonomy = (Ok posts', taxonomy') ->
    mentionsWithin (map Post.Key posts) (Taxonomy.Tags taxonomy) ->
    Forall (fun post => Post.Title post <> EmptyString) posts ->
    mentionsWithin (map Post.Key posts') (Taxonomy.Tags taxonomy')
    /\ Forall (fun post => Post.Title post <> EmptyString) posts'.
Proof.
  induction walk as [|entry r IH]; intros posts taxonomy posts' taxonomy' H Hw Ht;
    simpl in H.
  - inversion H; subst. split; assumption.
  - destruct (WalkEntry.walkErr entry); [discriminate|].
    destruct (WalkEntry.IsDir entry); [exact (IH _ _ _ _ H Hw Ht)|].
    destruct (startsWithTilde (WalkEntry.name entry)); [exact (IH _ _ _ _ H Hw Ht)|].
    destruct (GetPostDocument env (WalkEntry.path entry) (WalkEntry.name entry)
                (WalkEntry.file entry) taxonomy) as [[post|e|] taxonomy1] eqn:E;
      try discriminate.
    destruct (GetPostDocument_within _ _ _ _ _ _ _ _ E Hw) as [Hw1 Hpost].
    apply (IH _ _ _ _ H).
    + rewrite map_app. exact Hw1.
    + apply Forall_app. split; [exact Ht|]. constructor; [exact Hpost | constructor].
Qed.

Lemma postTitleOf_titled (posts : list Post.t) (id : Z) :
  Forall (fun post => Post.Title post <> EmptyString) posts ->
  In id (map Post.Key posts) ->
  postTitleOf posts id <> EmptyString.
Proof.
  induction posts as [|post r IH]; intros Ht Hin; simpl in *; [contradiction|].
  inversion Ht as [|? ? Hpost Hr]; subst.
  destruct (Z.eqb_spec (Post.Key post) id) as [Heq|Hne]; [exact Hpost|].
  apply IH; [exact Hr|]. destruct Hin as [Hin|Hin]; [contradiction | exact Hin].
Qed.

Lemma mentionLinks_all (source : Source.t) (mentions : list Z) :
  Forall (fun id => postTitleOf (Source.Posts source) id <> EmptyString) mentions ->
  mentionLinks mentions source = map (mentionLink source) mentions.
Proof.
  induction 1 as [|id r Hid Hr IH]; [reflexivity|].
  change (mentionLinks (id :: r) source)
    with ((if negb (String.eqb (postTitleOf (Source.Posts source) id) "")
           then [mentionLink source id] else [])
          ++ mentionLinks r source).
  rewrite IH.
  destruct (String.eqb_spec (postTitleOf (Source.Posts source) id) "") as [Heq|_];
    [contradiction|].
  reflexivity.
Qed.

(** X24.  After a load that starts with no tags, every mention of every
    tag is the id of a post of the source, and the post has a title: the
    body of the page of a tag is its label in [bold] and then one link
    for each of its mentions, in the order they were recorded, none
    left out. *)
Theorem tag_page_links_every_mention
    (env : Env) (walk : list WalkEntry.t) (keylock : Keylock.t)
    (source : Source.t) (taxonomy : Taxonomy.t) :
  GetSource env walk (GetTaxonomy keylock) = (Ok source, taxonomy) ->
  Forall
    (fun tag =>
       Forall (fun id => In id (map Post.Key (Source.Posts source))) (Tag.Mentions tag)
       /\ option_map etree.Child (bodyOfPage (tagDocument tag source))
          = Some (textElement "bold" (Tag.Label tag)
                  :: map (mentionLink source) (Tag.Mentions tag)))
    (Taxonomy.Tags taxonomy).
Proof.
  unfold GetSource.
  destruct (walkPosts env walk [] (GetTaxonomy keylock)) as [[posts|e|] taxonomy1] eqn:E;
    try discriminate.
  intros H. inversion H; subst. clear H.
  destruct (walkPosts_within env walk [] (GetTaxonomy keylock) posts taxonomy E
              (Forall_nil _) (Forall_nil _)) as [Hw Ht].
  unfold mentionsWithin in Hw.
  eapply Forall_impl; [|exact Hw]. intros tag Htag. simpl in Htag |- *.
  split; [exact Htag|].
  unfold tagDocument. rewrite mentionLinks_all; [reflexivity|].
  eapply Forall_impl; [|exact Htag]. intros id Hid. simpl.
  apply postTitleOf_titled; assumption.
Qed.

Lemma tag_page_links_every_mention_witness :
  fst Reference.loaded = Ok Reference.source
  /\ map (fun tag => (Tag.Label tag, Tag.Mentions tag)) (Taxonomy.Tags Reference.taxonomy)
     = [("go", [1; 3]); ("rocq", [3])]
  /\ Forall
       (fun tag =>
          Forall (fun id => In id (map Post.Key (Source.Posts Reference.source)))
            (Tag.Mentions tag)
          /\ option_map etree.Child (bodyOfPage (tagDocument tag Reference.source))
             = Some (textElement "bold" (Tag.Label tag)
                     :: map (mentionLink Reference.source) (Tag.Mentions tag)))
       (Taxonomy.Tags Reference.taxonomy).
Proof.
  split; [vm_compute; reflexivity|]. split; [vm_compute; reflexivity|].
  exact (tag_page_links_every_mention Reference.env Reference.walk (Keylock.mk [])
           Reference.source Reference.taxonomy ltac:(vm_compute; reflexivity)).
Defined.
